(** * pqConsole: the foreign predicates that bridge SWI-Prolog and Qt

    A shallow embedding of [pqConsole.cpp].  Prolog terms, the reflected
    properties of a [QObject], the widget hierarchy, menus and the queue of
    closures posted to the GUI thread are plain data; every foreign
    predicate is a function from the world before the call to its outcome
    and the world after it. *)

From stdpp Require Import base option list strings.
From Stdlib Require Import ZArith Lia.
From Equations Require Import Equations.

#[local] Set Warnings "-register-all".
Local Open Scope string_scope.
Local Open Scope list_scope.
Local Open Scope Z_scope.

(** ** Prolog terms, as the foreign language interface shows them *)

(** The IEEE-754 bit pattern of a C [double]; the bridge only moves doubles
    around, it never computes with them. *)
Definition double : Type := Z.

(** A term as a call finds it, tagged as [PlTerm::type()] reports it
    ([PL_VARIABLE], [PL_INTEGER], ...).  A compound term carries its name
    and arguments.  [PL_VARIABLE] is a variable that is unbound at that
    time; variables have no names here, so a variable that the caller wrote
    in two places is, once bound, its value in the later place. *)
Inductive PlTerm : Type :=
| PL_VARIABLE
| PL_INTEGER (i : Z)
| PL_ATOM (a : string)
| PL_FLOAT (d : double)
| PL_STRING (s : string)
| PL_TERM (name : string) (args : list PlTerm).

(** [A("...")]: the atom with the given text. *)
Definition A (s : string) : PlTerm := PL_ATOM s.

(** What a foreign predicate can raise: [PlException(term)], or the
    [PlTypeError] that the conversions of [PlTerm] throw. *)
Inductive exception : Type :=
| PlException (what : PlTerm)
| PlTypeError (expected : string) (culprit : PlTerm).

(** How a piece of C++ ends: it returns, it throws to the Prolog caller, or
    the process is stopped (a failed [Q_ASSERT], a division by zero). *)
Inductive result (T : Type) : Type :=
| Ok (a : T)
| Throw (e : exception)
| Crash (why : string).
Arguments Ok {T} a.
Arguments Throw {T} e.
Arguments Crash {T} why.

(** A foreign predicate returns [TRUE], binding its output arguments, or
    [FALSE]. *)
Abbreviation TRUE out := (Ok (Some out)).
Abbreviation FALSE := (Ok None).

(** C integer conversions: [int] and [unsigned] are 32 bits wide, [long] is
    64 bits wide (LP64). *)
Definition INT_MIN : Z := - 2 ^ 31.
Definition INT_MAX : Z := 2 ^ 31 - 1.
Definition LONG_MIN : Z := - 2 ^ 63.
Definition LONG_MAX : Z := 2 ^ 63 - 1.

(** Narrowing of an integer to [int]: the value modulo 2^32, read as signed. *)
Definition to_int (z : Z) : Z := (z + 2 ^ 31) mod 2 ^ 32 - 2 ^ 31.
(** Conversion to [unsigned]. *)
Definition to_uint (z : Z) : Z := z mod 2 ^ 32.

(** [PlTerm::operator int()]: [PL_get_integer], or [PlTypeError("integer")]
    when the term is not an integer that fits an [int]. *)
Definition PlTerm_int (v : PlTerm) : result Z :=
  match v with
  | PL_INTEGER i =>
      if (INT_MIN <=? i) && (i <=? INT_MAX) then Ok i
      else Throw (PlTypeError "integer" v)
  | _ => Throw (PlTypeError "integer" v)
  end.

(** [PlTerm::operator long()]: the same for [long]. *)
Definition PlTerm_long (v : PlTerm) : result Z :=
  match v with
  | PL_INTEGER i =>
      if (LONG_MIN <=? i) && (i <=? LONG_MAX) then Ok i
      else Throw (PlTypeError "integer" v)
  | _ => Throw (PlTypeError "integer" v)
  end.

(** [PL_get_name_arity], behind [PlTerm::name()] and [PlTerm::arity()]: an
    atom is its own name with arity 0, a compound term has its functor;
    nothing else has a name. *)
Definition name_arity (t : PlTerm) : option (string * nat) :=
  match t with
  | PL_ATOM a => Some (a, 0%nat)
  | PL_TERM f args => Some (f, length args)
  | _ => None
  end.

(** [PlTerm::name()] and [PlTerm::arity()] throw on a term without a name. *)
Definition PlTerm_name (t : PlTerm) : result string :=
  match name_arity t with
  | Some (f, _) => Ok f
  | None => Throw (PlTypeError "compound" t)
  end.

Definition PlTerm_arity (t : PlTerm) : result nat :=
  match name_arity t with
  | Some (_, n) => Ok n
  | None => Throw (PlTypeError "compound" t)
  end.

(** [opt[i]], the i-th argument of a compound term, counted from 1.  The
    call sites below only ask for arguments that the arity check has shown
    to exist; [PL_VARIABLE] stands for a missing one. *)
Definition PlTerm_arg (t : PlTerm) (i : nat) : PlTerm :=
  match t with
  | PL_TERM _ args => default PL_VARIABLE (args !! pred i)
  | _ => PL_VARIABLE
  end.

(** ** The property system of Qt, as far as [unify] uses it *)

Module QVariant.

(** [QVariant::Type], the declared kind of a property. *)
Inductive Type_ : Type :=
| Invalid | Bool | Int | UInt | Double | String | UserType.

End QVariant.

(** A [QVariant] value. *)
Inductive QVariant : Type :=
| QVariant_invalid
| QVariant_bool (b : bool)
| QVariant_int (i : Z)
| QVariant_uint (u : Z)
| QVariant_double (d : double)
| QVariant_string (s : string).

(** [QVariant::toBool], [toInt], [toUInt] and [toString] on the variants a
    property of that kind holds; conversions between numeric kinds follow
    C++, the remaining ones (parsing and printing numbers) are not used by
    the bridge and give the default value. *)
Definition toBool (x : QVariant) : bool :=
  match x with
  | QVariant_bool b => b
  | QVariant_int i => negb (i =? 0)
  | QVariant_uint u => negb (u =? 0)
  | _ => false
  end.

Definition toInt (x : QVariant) : Z :=
  match x with
  | QVariant_int i => i
  | QVariant_uint u => to_int u
  | QVariant_bool b => if b then 1 else 0
  | _ => 0
  end.

Definition toUInt (x : QVariant) : Z :=
  match x with
  | QVariant_uint u => u
  | QVariant_int i => to_uint i
  | QVariant_bool b => if b then 1 else 0
  | _ => 0
  end.

Definition toString (x : QVariant) : string :=
  match x with
  | QVariant_string s => s
  | _ => ""
  end.

(** [QMetaEnum]: the table of an enumeration's keys and values, in
    declaration order, and whether it is a flag (bit mask) type. *)
Record QMetaEnum : Type := {
  isFlag : bool;
  keys : list (string * Z)
}.

(** [QMetaEnum::valueToKey]: the first key with that value, or null. *)
Definition valueToKey (e : QMetaEnum) (value : Z) : option string :=
  fst <$> List.find (fun kv => snd kv =? value) (keys e).

(** [QMetaEnum::keyToValue]: the value of the key, or -1 when the
    enumeration has no such key. *)
Definition keyToValue (e : QMetaEnum) (key : string) : Z :=
  match List.find (fun kv => String.eqb (fst kv) key) (keys e) with
  | Some kv => snd kv
  | None => -1
  end.

(** [QMetaProperty] for objects of type [O]: the declared kind, the
    enumerator of an enumerated property, and the accessor pair.  [write]
    gives [None] where [QMetaProperty::write] returns false, leaving the
    object untouched. *)
Record QMetaProperty (O : Type) : Type := {
  name : string;
  type : QVariant.Type_;
  enumerator : option QMetaEnum;
  read : O -> QVariant;
  write : O -> QVariant -> option O
}.
Arguments name {O} _.
Arguments type {O} _.
Arguments enumerator {O} _.
Arguments read {O} _ _.
Arguments write {O} _ _ _.

Definition isEnumType {O} (p : QMetaProperty O) : bool :=
  match enumerator p with Some _ => true | None => false end.

Definition isFlagType {O} (p : QMetaProperty O) : bool :=
  match enumerator p with Some e => isFlag e | None => false end.

(** ** unify: read or write one property *)

Definition property_type_mismatch : exception :=
  PlException (A "property type mismatch").

(** [Q_ASSERT(!p.isFlagType())]: checked when assertions are compiled in
    ([debug = true]), and compiled out under [QT_NO_DEBUG]. *)
Definition Q_ASSERT_not_flag {O} (debug : bool) (p : QMetaProperty O) : bool :=
  negb (debug && isFlagType p).

(** [case QVariant::Int] of the [PL_ATOM] switch: the atom names a key of
    the enumeration.  The result of [p.write(o, i)] is not looked at.  The
    [QVariant::String] case falls through to here when its write fails. *)
Definition unify_atom_Int {O} (debug : bool) (p : QMetaProperty O) (o : O)
    (v : PlTerm) (text : string) : result PlTerm * O :=
  match enumerator p with
  | Some e =>
      if Q_ASSERT_not_flag debug p then
        let i := keyToValue e text in
        if negb (i =? -1) then
          (Ok v, default o (write p o (QVariant_int i)))
        else (Throw property_type_mismatch, o)
      else (Crash "ASSERT: !p.isFlagType()", o)
  | None => (Throw property_type_mismatch, o)
  end.

(** [unify(p, o, v)].  The result is the term [v] after the call: the value
    read when [v] was unbound, [v] itself after a write. *)
Definition unify {O} (debug : bool) (p : QMetaProperty O) (o : O) (v : PlTerm)
    : result PlTerm * O :=
  match v with
  | PL_VARIABLE =>
      match type p with
      | QVariant.Bool =>
          (Ok (if toBool (read p o) then A "true" else A "false"), o)
      | QVariant.Int =>
          match enumerator p with
          | Some e =>
              if Q_ASSERT_not_flag debug p then
                match valueToKey e (toInt (read p o)) with
                | Some key => (Ok (A key), o)
                | None => (Ok (PL_INTEGER (toInt (read p o))), o)
                end
              else (Crash "ASSERT: !p.isFlagType()", o)
          | None => (Ok (PL_INTEGER (toInt (read p o))), o)
          end
      | QVariant.UInt => (Ok (PL_INTEGER (toUInt (read p o))), o)
      | QVariant.String => (Ok (A (toString (read p o))), o)
      | _ => (Throw property_type_mismatch, o)
      end
  | PL_INTEGER _ =>
      match type p with
      | QVariant.Int | QVariant.UInt =>
          match PlTerm_int v with
          | Ok i =>
              match write p o (QVariant_int i) with
              | Some o' => (Ok v, o')
              | None => (Throw property_type_mismatch, o)
              end
          | Throw e => (Throw e, o)
          | Crash why => (Crash why, o)
          end
      | _ => (Throw property_type_mismatch, o)
      end
  | PL_ATOM text =>
      match type p with
      | QVariant.String =>
          match write p o (QVariant_string text) with
          | Some o' => (Ok v, o')
          | None => unify_atom_Int debug p o v text
          end
      | QVariant.Int => unify_atom_Int debug p o v text
      | _ => (Throw property_type_mismatch, o)
      end
  | PL_FLOAT d =>
      match type p with
      | QVariant.Double =>
          match write p o (QVariant_double d) with
          | Some o' => (Ok v, o')
          | None => (Throw property_type_mismatch, o)
          end
      | _ => (Throw property_type_mismatch, o)
      end
  | _ => (Throw property_type_mismatch, o)
  end.

(** ** Widgets, menus and the console *)

(** [QSize]. *)
Record QSize : Type := { width : Z; height : Z }.

(** What every [QWidget] carries and the predicates touch: title, position
    and size in pixels, and whether it is shown and activated. *)
Record QWidget : Type := {
  windowTitle : string;
  pos : Z * Z;
  size : QSize;
  isVisible : bool;
  isActiveWindow : bool
}.

(** A pointer to an object: its position in the hierarchy, as the index of
    a top-level widget followed by child indices.  The predicates remove
    and move no widget, and [win_open_console] adds one after the top-level
    widgets there are, so a pointer stays valid. *)
Definition ptr : Type := list nat.

(** [QAction]: the text shown, the tool tip (used by [add_action] as spare
    storage for Module:Goal), whether it is a separator, and the console
    whose slot [onConsoleMenuAction()] is connected to [triggered()]. *)
Record QAction : Type := {
  text : string;
  toolTip : string;
  isSeparator : bool;
  triggered : option ptr
}.

(** A menu of the menu bar: [QMenu::menuAction()->text()] and the actions
    of the menu, in display order.  Every entry of the menu bar is a menu,
    as every entry made by [win_insert_menu] is. *)
Record QMenu : Type := {
  title : string;
  actions : list QAction
}.

(** [QTextCursor], as the text before the selection, the selected text and
    the text after it. *)
Record QTextCursor : Type := {
  beforeSelection : string;
  selectedText : string;
  afterSelection : string
}.

(** The reflected properties of a console that the examples below use.
    The comment of [console_settings] names [updateRefreshRate],
    [maximumBlockCount] and [lineWrapMode]; [readOnly], [documentTitle]
    and [textInteractionFlags] are properties of [QPlainTextEdit], the
    base class of the console. *)
Record properties : Type := {
  updateRefreshRate : Z;
  maximumBlockCount : Z;
  lineWrapMode : Z;
  readOnly : bool;
  documentTitle : string;
  textInteractionFlags : Z
}.

(** Modelled from the spec: class [ConsoleEdit] is declared in
    ConsoleEdit.h, which is not part of the sources at hand.  Section 3
    gives it "a back-reference to the owning worker thread identifier" and
    "its command history (an ordered sequence of strings)".  [fontCell] is
    [fontMetrics().size(0, "Q")]. *)
Record ConsoleEdit : Type := {
  thread : Z;
  props : properties;
  history_lines : list string;
  font : string;
  fontCell : QSize;
  textCursor : QTextCursor
}.

(** Modelled from the spec: [ConsoleEdit::match_thread] (ConsoleEdit.h).
    Section 4.1: the console "whose owning-thread marker equals the
    identifier". *)
Definition match_thread (ce : ConsoleEdit) (thid : Z) : bool :=
  thread ce =? thid.

(** The dynamic class of an object with the data of that class.  An object
    that is no widget ([isWidgetType()] false) is a plain [QObject]. *)
Inductive QClass : Type :=
| Class_QObject
| Class_QWidget (w : QWidget)
| Class_QMainWindow (w : QWidget) (menuBar : list QMenu)
| Class_ConsoleEdit (w : QWidget) (ce : ConsoleEdit).

(** An object and its [children()], in registration order. *)
Inductive QObject : Type :=
| Object (cls : QClass) (children : list QObject).

Definition class_of (o : QObject) : QClass :=
  match o with Object cls _ => cls end.

Definition children (o : QObject) : list QObject :=
  match o with Object _ cs => cs end.

Definition isWidgetType (o : QObject) : bool :=
  match class_of o with Class_QObject => false | _ => true end.

(** The lambdas handed to [ConsoleEdit::exec_func], with what they capture. *)
Inductive closure : Type :=
| lambda_win_insert_menu (ce : ptr) (Label Before : string)
| lambda_win_insert_menu_item (ce : ptr)
    (Pulldown Label Before Goal ctxtmod : string)
| lambda_quit_console
| lambda_copy (c : ptr)
| lambda_paste (c : ptr).

(** The state of the application: [QApplication::topLevelWidgets()], the
    clipboard, the font kept in [Preferences], the closures posted to the
    GUI thread and not yet run, whether [qApp->quit()] was called, and what
    went to [qDebug()]. *)
Record World : Type := {
  topLevelWidgets : list QObject;
  clipboard : string;
  console_font : string;
  posted : list closure;
  quit_called : bool;
  qDebug : list (list string)
}.

Definition with_widgets (W : World) (ws : list QObject) : World :=
  {| topLevelWidgets := ws; clipboard := clipboard W;
     console_font := console_font W; posted := posted W;
     quit_called := quit_called W; qDebug := qDebug W |}.

Definition with_clipboard (W : World) (s : string) : World :=
  {| topLevelWidgets := topLevelWidgets W; clipboard := s;
     console_font := console_font W; posted := posted W;
     quit_called := quit_called W; qDebug := qDebug W |}.

Definition with_console_font (W : World) (f : string) : World :=
  {| topLevelWidgets := topLevelWidgets W; clipboard := clipboard W;
     console_font := f; posted := posted W;
     quit_called := quit_called W; qDebug := qDebug W |}.

Definition with_posted (W : World) (q : list closure) : World :=
  {| topLevelWidgets := topLevelWidgets W; clipboard := clipboard W;
     console_font := console_font W; posted := q;
     quit_called := quit_called W; qDebug := qDebug W |}.

Definition with_quit_called (W : World) : World :=
  {| topLevelWidgets := topLevelWidgets W; clipboard := clipboard W;
     console_font := console_font W; posted := posted W;
     quit_called := true; qDebug := qDebug W |}.

Definition with_qDebug (W : World) (line : list string) : World :=
  {| topLevelWidgets := topLevelWidgets W; clipboard := clipboard W;
     console_font := console_font W; posted := posted W;
     quit_called := quit_called W; qDebug := (qDebug W ++ [line])%list |}.

(** *** Dereferencing and updating through a pointer *)

(** The object a pointer designates. *)
Fixpoint deref (ws : list QObject) (p : ptr) : option QObject :=
  match p with
  | [] => None
  | i :: p' =>
      match ws !! i with
      | Some o => match p' with [] => Some o | _ => deref (children o) p' end
      | None => None
      end
  end.

(** Assignment through a pointer: the class data of the object becomes
    [f] of what it was, its children stay. *)
Fixpoint update (f : QClass -> QClass) (ws : list QObject) (p : ptr)
    : list QObject :=
  match p with
  | [] => ws
  | i :: p' =>
      alter (fun o =>
               match p' with
               | [] => Object (f (class_of o)) (children o)
               | _ => Object (class_of o) (update f (children o) p')
               end) i ws
  end.

(** [QWidget::parentWidget()]: the parent when it is a widget, else null.
    A top-level widget has no parent. *)
Definition parentWidget (ws : list QObject) (p : ptr) : option (ptr * QObject) :=
  match deref ws (removelast p) with
  | Some o => if isWidgetType o then Some (removelast p, o) else None
  | None => None
  end.

(** The [QWidget] part of a widget of any class. *)
Definition widget_of (cls : QClass) : option QWidget :=
  match cls with
  | Class_QObject => None
  | Class_QWidget w | Class_QMainWindow w _ | Class_ConsoleEdit w _ => Some w
  end.

(** Assignment to the [QWidget] part, whatever the class. *)
Definition set_widget (f : QWidget -> QWidget) (cls : QClass) : QClass :=
  match cls with
  | Class_QObject => Class_QObject
  | Class_QWidget w => Class_QWidget (f w)
  | Class_QMainWindow w mbar => Class_QMainWindow (f w) mbar
  | Class_ConsoleEdit w ce => Class_ConsoleEdit (f w) ce
  end.

(** Assignment to the [ConsoleEdit] part of a console. *)
Definition set_console (f : ConsoleEdit -> ConsoleEdit) (cls : QClass) : QClass :=
  match cls with
  | Class_ConsoleEdit w ce => Class_ConsoleEdit w (f ce)
  | _ => cls
  end.

(** Assignment to the menu bar of a main window. *)
Definition set_menuBar (f : list QMenu -> list QMenu) (cls : QClass) : QClass :=
  match cls with
  | Class_QMainWindow w mbar => Class_QMainWindow w (f mbar)
  | _ => cls
  end.

(** *** search_widget: depth first search of the widget hierarchy *)

Fixpoint object_size (o : QObject) : nat :=
  match o with
  | Object _ cs => S (list_sum (map object_size cs))
  end.

Definition stack_size (s : list (ptr * QObject)) : nat :=
  list_sum (map (fun e => object_size (snd e)) s).

(** [foreach (auto c, p->children()) if (c->isWidgetType()) s.push(c);]
    where [i] is the index of the first child of [cs] among the children
    of [p].  The head of the list is the top of the [QStack]. *)
Fixpoint push_children (p : ptr) (i : nat) (cs : list QObject)
    (s : list (ptr * QObject)) : list (ptr * QObject) :=
  match cs with
  | [] => s
  | c :: cs' =>
      push_children p (S i) cs'
        (if isWidgetType c then ((p ++ [i])%list, c) :: s else s)
  end.

(** The [while (!s.isEmpty())] loop of [search_widget]: pop a widget,
    return it when it matches, else push its widget children.  The total
    size of the widgets on the stack decreases with every turn. *)
Equations? search_loop (matches : QObject -> bool) (s : list (ptr * QObject))
    : option (ptr * QObject) by wf (stack_size s) lt :=
  search_loop matches [] := None;
  search_loop matches ((p, o) :: s') :=
    if matches o then Some (p, o)
    else search_loop matches (push_children p 0 (children o) s').
Proof.
  assert (Hpush : forall cs i s,
             (stack_size (push_children p i cs s)
              <= list_sum (map object_size cs) + stack_size s)%nat).
  { clear. induction cs as [|c cs IH]; intros i s; simpl; [lia|].
    etransitivity; [apply IH|].
    destruct (isWidgetType c); unfold stack_size; simpl; lia. }
  specialize (Hpush (children o) 0%nat s').
  destruct o as [cls cs]; unfold stack_size in *; simpl in *. lia.
Qed.

(** [foreach (auto widget, QApplication::topLevelWidgets())]: one search
    per top-level widget, the first match wins.  [i] is the index of the
    head of [tops] among the top-level widgets. *)
Fixpoint search_from (matches : QObject -> bool) (i : nat) (tops : list QObject)
    : option (ptr * QObject) :=
  match tops with
  | [] => None
  | widget :: rest =>
      match search_loop matches [([i], widget)] with
      | Some found => Some found
      | None => search_from matches (S i) rest
      end
  end.

Definition search_widget (matches : QObject -> bool) (W : World)
    : option (ptr * QObject) :=
  search_from matches 0 (topLevelWidgets W).

(** [qobject_cast<ConsoleEdit*>]. *)
Definition as_ConsoleEdit (o : QObject) : option (QWidget * ConsoleEdit) :=
  match class_of o with
  | Class_ConsoleEdit w ce => Some (w, ce)
  | _ => None
  end.

(** [qobject_cast<QMainWindow*>], giving the menu bar. *)
Definition as_QMainWindow (o : QObject) : option (QWidget * list QMenu) :=
  match class_of o with
  | Class_QMainWindow w mbar => Some (w, mbar)
  | _ => None
  end.

(** A console found by a search: where it is, and its data at that time. *)
Record console_ref : Type := {
  self : ptr;
  widget : QWidget;
  console : ConsoleEdit
}.

Definition cast_found (found : option (ptr * QObject)) : option console_ref :=
  match found with
  | Some (p, o) =>
      match as_ConsoleEdit o with
      | Some (w, ce) => Some {| self := p; widget := w; console := ce |}
      | None => None
      end
  | None => None
  end.

(** [console_by_thread()], for the calling thread [thid], which is
    [PL_thread_self()]. *)
Definition console_by_thread (thid : Z) (W : World) : option console_ref :=
  cast_found
    (search_widget
       (fun p => match as_ConsoleEdit p with
                 | Some (_, ce) => match_thread ce thid
                 | None => false
                 end) W).

(** [console_peek_first()]: any console. *)
Definition console_peek_first (W : World) : option console_ref :=
  cast_found
    (search_widget
       (fun p => match as_ConsoleEdit p with Some _ => true | None => false end)
       W).

(** ** The menu interface *)

(** [insertAction(before, a)] and [insertMenu(before, m)], with [before]
    given by its index. *)
Definition insert_before {T} (i : nat) (a : T) (l : list T) : list T :=
  (take i l ++ a :: drop i l)%list.

(** [new QMenu(Label)]. *)
Definition new_QMenu (Label : string) : QMenu :=
  {| title := Label; actions := [] |}.

(** The lambda of [win_insert_menu] on the menu bar.  [None] when control
    reaches the [qDebug()] line. *)
Definition insert_menu (Label Before : string) (mbar : list QMenu)
    : option (list QMenu) :=
  if existsb (fun ac => String.eqb (title ac) Label) mbar then Some mbar
  else
    match list_find (fun ac => title ac = Before) mbar with
    | Some (i, _) => Some (insert_before i (new_QMenu Label) mbar)
    | None =>
        if String.eqb Before "-" then Some (mbar ++ [new_QMenu Label])%list
        else None
    end.

(** [new QAction(mn)] as [add_action] sets it up. *)
Definition new_QAction (ce : ptr) (Label ctxtmod Goal : string) : QAction :=
  {| text := Label; toolTip := (ctxtmod ++ ":" ++ Goal)%string;
     isSeparator := false; triggered := Some ce |}.

(** The action made by [addSeparator()] and [insertSeparator()]. *)
Definition separator : QAction :=
  {| text := ""; toolTip := ""; isSeparator := true; triggered := None |}.

Definition setToolTip (a : QAction) (tip : string) : QAction :=
  {| text := text a; toolTip := tip;
     isSeparator := isSeparator a; triggered := triggered a |}.

(** [add_action(ce, mn, Label, ctxtmod, Goal, before)] on the actions of
    [mn]; [before] is the index of the action to insert before, or [None]
    for the null pointer. *)
Definition add_action (ce : ptr) (mn : list QAction)
    (Label ctxtmod Goal : string) (before : option nat) : list QAction :=
  match before with
  | Some i => insert_before i (new_QAction ce Label ctxtmod Goal) mn
  | None => (mn ++ [new_QAction ce Label ctxtmod Goal])%list
  end.

(** The body of [if (ac->text() == Pulldown) { ... }] in the lambda of
    [win_insert_menu_item], on the actions of that menu.  The boolean tells
    whether the lambda returned; the last branch does not. *)
Definition insert_menu_item_in (ce : ptr) (Label Before Goal ctxtmod : string)
    (mn : list QAction) : list QAction * bool :=
  match
    (if negb (String.eqb Label "--")
     then list_find (fun bc => text bc = Label) mn else None)
  with
  | Some (i, bc) => (<[i := setToolTip bc Goal]> mn, true)
  | None =>
      if String.eqb Before "-" then
        (if String.eqb Label "--" then (mn ++ [separator])%list
         else add_action ce mn Label ctxtmod Goal None, true)
      else
        match list_find (fun bc => text bc = Before) mn with
        | Some (i, _) =>
            (if String.eqb Label "--" then insert_before i separator mn
             else add_action ce mn Label ctxtmod Goal (Some i), true)
        | None =>
            let mn1 := add_action ce mn Before ctxtmod "" None in
            (add_action ce mn1 Label ctxtmod Goal (Some (length mn)), false)
        end
  end.

(** [foreach (QAction *ac, mw->menuBar()->actions())] of that lambda. *)
Fixpoint insert_menu_item (ce : ptr) (Pulldown Label Before Goal ctxtmod : string)
    (mbar : list QMenu) : list QMenu :=
  match mbar with
  | [] => []
  | ac :: rest =>
      if String.eqb (title ac) Pulldown then
        let (mn, returned) :=
          insert_menu_item_in ce Label Before Goal ctxtmod (actions ac) in
        let ac' := {| title := title ac; actions := mn |} in
        if returned then ac' :: rest
        else ac' :: insert_menu_item ce Pulldown Label Before Goal ctxtmod rest
      else ac :: insert_menu_item ce Pulldown Label Before Goal ctxtmod rest
  end.

(** [qobject_cast<QMainWindow*>(ce->parentWidget())], with its menu bar. *)
Definition parent_main_window (W : World) (ce : ptr) : option (ptr * list QMenu) :=
  match parentWidget (topLevelWidgets W) ce with
  | Some (mw, o) =>
      match as_QMainWindow o with
      | Some (_, mbar) => Some (mw, mbar)
      | None => None
      end
  | None => None
  end.

Definition set_console_at (W : World) (c : ptr) (f : ConsoleEdit -> ConsoleEdit)
    : World :=
  with_widgets W (update (set_console f) (topLevelWidgets W) c).

Definition set_widget_at (W : World) (w : ptr) (f : QWidget -> QWidget) : World :=
  with_widgets W (update (set_widget f) (topLevelWidgets W) w).

Definition set_menuBar_at (W : World) (mw : ptr) (mbar : list QMenu) : World :=
  with_widgets W (update (set_menuBar (fun _ => mbar)) (topLevelWidgets W) mw).

Definition with_textCursor (ce : ConsoleEdit) (tc : QTextCursor) : ConsoleEdit :=
  {| thread := thread ce; props := props ce;
     history_lines := history_lines ce; font := font ce;
     fontCell := fontCell ce; textCursor := tc |}.

(** [c->textCursor().insertText(t)]: the selection is replaced by the text. *)
Definition insertText (t : string) (ce : ConsoleEdit) : ConsoleEdit :=
  with_textCursor ce
    {| beforeSelection := (beforeSelection (textCursor ce) ++ t)%string;
       selectedText := "";
       afterSelection := afterSelection (textCursor ce) |}.

(** What a posted closure does when the GUI thread runs it.  The closures
    run to their end one after the other; [do_events()], which ends the
    lambdas of [copy] and [paste], changes nothing of what is kept here. *)
Definition run (f : closure) (W : World) : World :=
  match f with
  | lambda_win_insert_menu ce Label Before =>
      match parent_main_window W ce with
      | Some (mw, mbar) =>
          match insert_menu Label Before mbar with
          | Some mbar' => set_menuBar_at W mw mbar'
          | None => with_qDebug W ["failed win_insert_menu"; Label; Before]
          end
      | None => with_qDebug W ["failed win_insert_menu"; Label; Before]
      end
  | lambda_win_insert_menu_item ce Pulldown Label Before Goal ctxtmod =>
      match parent_main_window W ce with
      | Some (mw, mbar) =>
          set_menuBar_at W mw
            (insert_menu_item ce Pulldown Label Before Goal ctxtmod mbar)
      | None => W
      end
  | lambda_quit_console => with_quit_called W
  | lambda_copy c =>
      match deref (topLevelWidgets W) c ≫= as_ConsoleEdit with
      | Some (_, ce) => with_clipboard W (selectedText (textCursor ce))
      | None => W
      end
  | lambda_paste c => set_console_at W c (insertText (clipboard W))
  end.

(** Modelled from the spec: [ConsoleEdit::exec_func] (ConsoleEdit.h).
    Section 4.4, fire-and-forget: "submission returns immediately; the unit
    of work runs asynchronously on the GUI thread at its next opportunity",
    in FIFO order. *)
Definition exec_func (f : closure) (W : World) : World :=
  with_posted W (posted W ++ [f])%list.

(** The GUI thread runs what has been posted, oldest first. *)
Definition processEvents (W : World) : World :=
  fold_left (fun W' f => run f W') (posted W) (with_posted W []).

(** ** The foreign predicates

    Each takes the identifier [thid] of the calling thread where the code
    asks for [PL_thread_self()], its input arguments, and the world; it
    gives the outcome, with the bindings of its output arguments, and the
    world after the call.  Arguments that the code only turns into text
    ([CCP(A1)]) are given by their text. *)

(** Sequencing of computations that can throw. *)
#[export] Instance result_ret : MRet result := fun _ a => Ok a.
#[export] Instance result_bind : MBind result := fun _ _ f r =>
  match r with
  | Ok a => f a
  | Throw e => Throw e
  | Crash why => Crash why
  end.

Definition with_windowTitle (t : string) (w : QWidget) : QWidget :=
  {| windowTitle := t; pos := pos w; size := size w;
     isVisible := isVisible w; isActiveWindow := isActiveWindow w |}.

(** [w->resize(width, height)]; both arguments are narrowed to [int]. *)
Definition resize (width height : Z) (w : QWidget) : QWidget :=
  {| windowTitle := windowTitle w; pos := pos w;
     size := {| width := to_int width; height := to_int height |};
     isVisible := isVisible w; isActiveWindow := isActiveWindow w |}.

(** [w->move(x, y)]. *)
Definition move (x y : Z) (w : QWidget) : QWidget :=
  {| windowTitle := windowTitle w; pos := (to_int x, to_int y); size := size w;
     isVisible := isVisible w; isActiveWindow := isActiveWindow w |}.

(** [w->show()] and [w->hide()]. *)
Definition setVisible (b : bool) (w : QWidget) : QWidget :=
  {| windowTitle := windowTitle w; pos := pos w; size := size w;
     isVisible := b; isActiveWindow := isActiveWindow w |}.

(** [w->activateWindow()]. *)
Definition activateWindow (w : QWidget) : QWidget :=
  {| windowTitle := windowTitle w; pos := pos w; size := size w;
     isVisible := isVisible w; isActiveWindow := true |}.

(** [window_title(-Old, +New)]. *)
Definition window_title (thid : Z) (New : string) (W : World)
    : result (option string) * World :=
  match console_by_thread thid W with
  | Some c =>
      match parentWidget (topLevelWidgets W) (self c) with
      | Some (w, o) =>
          match as_QMainWindow o with
          | Some (wd, _) =>
              (TRUE (windowTitle wd), set_widget_at W w (with_windowTitle New))
          | None => (FALSE, W)
          end
      | None => (FALSE, W)
      end
  | None => (FALSE, W)
  end.

(** What one option of [win_window_pos] does to the window [w]: the new
    state of the window, or [None] at the [return FALSE] that ends the
    loop.  [c] is the console, asked for its font metrics. *)
Definition window_pos_option (c : ConsoleEdit) (opt : PlTerm) (w : QWidget)
    : result (option QWidget) :=
  arity ← PlTerm_arity opt;
  name ← PlTerm_name opt;
  if (arity =? 2)%nat && String.eqb name "size" then
    W ← PlTerm_long (PlTerm_arg opt 1);
    H ← PlTerm_long (PlTerm_arg opt 2);
    let sz := fontCell c in
    Ok (Some (resize (width sz * W) (height sz * H) w))
  else if (arity =? 2)%nat && String.eqb name "position" then
    X ← PlTerm_long (PlTerm_arg opt 1);
    Y ← PlTerm_long (PlTerm_arg opt 2);
    Ok (Some (move X Y w))
  else if (arity =? 1)%nat && String.eqb name "zorder" then
    Ok (Some w)
  else if (arity =? 1)%nat && String.eqb name "show" then
    arg ← PlTerm_name (PlTerm_arg opt 1);
    Ok (Some (setVisible (String.eqb arg "true") w))
  else if (arity =? 0)%nat && String.eqb name "activate" then
    Ok (Some (activateWindow w))
  else Ok None.

(** [while (options.next(opt)) { ... } return TRUE;] on the window. *)
Fixpoint window_pos_loop (c : ConsoleEdit) (options : list PlTerm) (w : QWidget)
    : result (option unit) * QWidget :=
  match options with
  | [] => (TRUE (), w)
  | opt :: rest =>
      match window_pos_option c opt w with
      | Ok (Some w') => window_pos_loop c rest w'
      | Ok None => (FALSE, w)
      | Throw e => (Throw e, w)
      | Crash why => (Crash why, w)
      end
  end.

(** [win_window_pos(Options)]. *)
Definition win_window_pos (thid : Z) (Options : list PlTerm) (W : World)
    : result (option unit) * World :=
  match console_by_thread thid W with
  | None => (FALSE, W)
  | Some c =>
      match parentWidget (topLevelWidgets W) (self c) with
      | None => (FALSE, W)
      | Some (w, o) =>
          match widget_of (class_of o) with
          | Some wd =>
              let (r, wd') := window_pos_loop (console c) Options wd in
              (r, set_widget_at W w (fun _ => wd'))
          | None => (FALSE, W)
          end
      end
  end.

(** [win_has_menu]. *)
Definition win_has_menu (thid : Z) (W : World) : result (option unit) * World :=
  match console_by_thread thid W with
  | Some ce =>
      match parentWidget (topLevelWidgets W) (self ce) ≫= (as_QMainWindow ∘ snd) with
      | Some _ => (TRUE (), W)
      | None => (FALSE, W)
      end
  | None => (FALSE, W)
  end.

(** [win_insert_menu(+Label, +Before)]. *)
Definition win_insert_menu (thid : Z) (Label Before : string) (W : World)
    : result (option unit) * World :=
  match console_by_thread thid W with
  | Some ce => (TRUE (), exec_func (lambda_win_insert_menu (self ce) Label Before) W)
  | None => (FALSE, W)
  end.

(** [win_insert_menu_item(+Pulldown, +Label, +Before, :Goal)].  The context
    module is overwritten with "win_menu". *)
Definition win_insert_menu_item (thid : Z) (Pulldown Label Before Goal : string)
    (W : World) : result (option unit) * World :=
  match console_by_thread thid W with
  | Some ce =>
      let ctxtmod := "win_menu" in
      (TRUE (),
       exec_func
         (lambda_win_insert_menu_item (self ce) Pulldown Label Before Goal ctxtmod)
         W)
  | None => (FALSE, W)
  end.

(** Modelled from the spec: [ConsoleEdit::tty_clear] (ConsoleEdit.h),
    "clears the console's visible buffer". *)
Definition ConsoleEdit_tty_clear (ce : ConsoleEdit) : ConsoleEdit :=
  with_textCursor ce
    {| beforeSelection := ""; selectedText := ""; afterSelection := "" |}.

(** [tty_clear]. *)
Definition tty_clear (thid : Z) (W : World) : result (option unit) * World :=
  match console_by_thread thid W with
  | Some c => (TRUE (), set_console_at W (self c) ConsoleEdit_tty_clear)
  | None => (FALSE, W)
  end.

(** Modelled from the spec: [ConsoleEdit::new_console] (ConsoleEdit.h).
    Section 6: the stream triple is "bound to a newly named console";
    section 3: "Console widget: one per logical terminal".  So the call
    makes a console widget named [title].  The spec does not say where the
    widget is put, how it is set up or which thread comes to own it: here
    it is a new top-level widget after those there are, set up like the
    console [c] that was asked, hidden, with an empty history and an empty
    text, and owned by no thread yet ([thread] is 0, where the runtime
    numbers its threads from 1). *)
Definition new_console (title : string) (c : console_ref) (W : World) : World :=
  with_widgets W
    (topLevelWidgets W ++
     [ Object
         (Class_ConsoleEdit
            {| windowTitle := title; pos := pos (widget c);
               size := size (widget c); isVisible := false;
               isActiveWindow := false |}
            {| thread := 0; props := props (console c); history_lines := [];
               font := font (console c); fontCell := fontCell (console c);
               textCursor := {| beforeSelection := ""; selectedText := "";
                                afterSelection := "" |} |}) [] ])%list.

(** [PL_unify_stream(t, s)] for a stream [s] just made, on the term [t] as
    the call finds it: an unbound variable takes the stream, and no other
    term equals it. *)
Definition PL_unify_stream (t : PlTerm) : bool :=
  match t with PL_VARIABLE => true | _ => false end.

Definition no_ConsoleEdit_available : exception :=
  PlException (A "no ConsoleEdit available").

(** [win_open_console(Title, In, Out, Err, _)].  [In], [Out] and [Err] are
    A2, A3 and A4 as the three calls of [PL_unify_stream] find them, one
    after the other: where the caller wrote one variable in two of these
    places, the first call binds it to its stream and the second finds it
    bound. *)
Definition win_open_console (Title : string) (In Out Err : PlTerm) (W : World)
    : result (option unit) * World :=
  let W := with_qDebug W ["win_open_console"] in
  match console_peek_first W with
  | None => (Throw no_ConsoleEdit_available, W)
  | Some ce =>
      let W := new_console Title ce W in
      if PL_unify_stream In && PL_unify_stream Out && PL_unify_stream Err
      then (TRUE (), W)
      else (FALSE, W)
  end.

(** Modelled from the spec: [ConsoleEdit::add_history_line]
    (ConsoleEdit.h); "history-list returns lines in the exact order they
    were appended". *)
Definition add_history_line (line : string) (ce : ConsoleEdit) : ConsoleEdit :=
  {| thread := thread ce; props := props ce;
     history_lines := (history_lines ce ++ [line])%list; font := font ce;
     fontCell := fontCell ce; textCursor := textCursor ce |}.

(** [rl_add_history(+Line)]: an empty line is not recorded. *)
Definition rl_add_history (thid : Z) (line : string) (W : World)
    : result (option unit) * World :=
  match console_by_thread thid W with
  | Some c =>
      (TRUE (),
       if String.eqb line "" then W
       else set_console_at W (self c) (add_history_line line))
  | None => (FALSE, W)
  end.

(** [rl_read_init_file(_)]. *)
Definition rl_read_init_file (W : World) : result (option unit) * World :=
  (TRUE (), W).

(** [$rl_history(-Lines)]. *)
Definition rl_history (thid : Z) (W : World)
    : result (option (list string)) * World :=
  match console_by_thread thid W with
  | Some c => (TRUE (history_lines (console c)), W)
  | None => (FALSE, W)
  end.

(** [tty_size(-Rows, -Cols)].  [/] on [int] truncates; dividing by zero
    stops the process. *)
Definition tty_size (thid : Z) (W : World) : result (option (Z * Z)) * World :=
  match console_by_thread thid W with
  | Some c =>
      let sz := fontCell (console c) in
      if (height sz =? 0) || (width sz =? 0) then (Crash "division by zero", W)
      else
        let Rows := height (size (widget c)) ÷ height sz in
        let Cols := width (size (widget c)) ÷ width sz in
        (TRUE (Rows, Cols), W)
  | None => (FALSE, W)
  end.

(** [QMetaObject::indexOfProperty] followed by [QMetaObject::property]:
    the index and the property of that name, or [None] for index -1. *)
Definition indexOfProperty {O} (metaObject : list (QMetaProperty O)) (n : string)
    : option (nat * QMetaProperty O) :=
  list_find (fun p => name p = n) metaObject.

Definition property_not_found : exception :=
  PlException (A "property not found").

Definition properties_have_arity_1 : exception :=
  PlException (A "properties have arity 1").

(** [for (PlTail opts(A1); opts.next(opt); ) { ... }] of
    [console_settings], on the console.  [opts] holds the options as
    [opts.next(opt)] finds them, one after the other: where the caller
    wrote one variable in two options, the read of the first binds it, and
    the second option is found with that value, which makes it a write.
    The result is the option list after the call, where each unbound
    [Value] of [name(Value)] has been bound to what was read. *)
Fixpoint console_settings_loop (debug : bool)
    (metaObject : list (QMetaProperty ConsoleEdit)) (opts : list PlTerm)
    (c : ConsoleEdit) : result (list PlTerm) * ConsoleEdit :=
  match opts with
  | [] => (Ok [], c)
  | opt :: rest =>
      match PlTerm_arity opt, PlTerm_name opt with
      | Ok 1%nat, Ok n =>
          match indexOfProperty metaObject n with
          | Some (_, p) =>
              match unify debug p c (PlTerm_arg opt 1) with
              | (Ok v, c') =>
                  let (r, c'') := console_settings_loop debug metaObject rest c' in
                  (bound ← r; Ok (PL_TERM n [v] :: bound), c'')
              | (Throw e, c') => (Throw e, c')
              | (Crash why, c') => (Crash why, c')
              end
          | None => (Throw property_not_found, c)
          end
      | Ok _, Ok _ => (Throw properties_have_arity_1, c)
      | Throw e, _ | _, Throw e => (Throw e, c)
      | Crash why, _ | _, Crash why => (Crash why, c)
      end
  end.

(** [console_settings(Options)]; [metaObject] is [c->metaObject()]. *)
Definition console_settings (debug : bool)
    (metaObject : list (QMetaProperty ConsoleEdit)) (thid : Z)
    (Options : list PlTerm) (W : World)
    : result (option (list PlTerm)) * World :=
  match console_by_thread thid W with
  | Some c =>
      let (r, ce) := console_settings_loop debug metaObject Options (console c) in
      (bound ← r; TRUE bound, set_console_at W (self c) (fun _ => ce))
  | None => (FALSE, W)
  end.

(** Modelled from the spec: [ConsoleEdit::exec_sync] (ConsoleEdit.h) around
    a lambda posted with [exec_func].  Section 4.4, fire-and-wait: the
    caller blocks until the unit of work has run on the GUI thread.  In
    this sequential view the GUI thread runs what was posted before, then
    the lambda to its end, and the caller goes on.  The steps of the two
    threads, one by one, are further down. *)
Definition exec_func_and_stop (W : World) : World := processEvents W.

(** [getOpenFileName(+Title, ?StartPath, +Pattern, -Choice)].  [dialog] is
    what the user answers to [QFileDialog::getOpenFileName(c, Caption,
    StartPath, Pattern)]; the empty string when the dialog is cancelled. *)
Definition getOpenFileName (dialog : string -> string -> string -> string)
    (thid : Z) (Caption : string) (A2 : PlTerm) (Pattern : string) (W : World)
    : result (option string) * World :=
  match console_by_thread thid W with
  | Some c =>
      let StartPath := match A2 with PL_ATOM s => s | _ => "" end in
      let W := exec_func_and_stop W in
      let Choice := dialog Caption StartPath Pattern in
      if negb (String.eqb Choice "") then (TRUE Choice, W) else (FALSE, W)
  | None => (FALSE, W)
  end.

(** [getSaveFileName(+Title, ?StartPath, +Pattern, -Choice)]. *)
Definition getSaveFileName (dialog : string -> string -> string -> string)
    (thid : Z) (Caption : string) (A2 : PlTerm) (Pattern : string) (W : World)
    : result (option string) * World :=
  match console_by_thread thid W with
  | Some c =>
      let StartPath := match A2 with PL_ATOM s => s | _ => "" end in
      let W := exec_func_and_stop W in
      let Choice := dialog Caption StartPath Pattern in
      if negb (String.eqb Choice "") then (TRUE Choice, W) else (FALSE, W)
  | None => (FALSE, W)
  end.

Definition setFont (f : string) (ce : ConsoleEdit) : ConsoleEdit :=
  {| thread := thread ce; props := props ce;
     history_lines := history_lines ce; font := f;
     fontCell := fontCell ce; textCursor := textCursor ce |}.

(** [select_font].  [getFont] is what the user answers to
    [QFontDialog::getFont(&ok, p.console_font, c)]: a font, or [None] when
    [ok] is false.  The world is the one the lambda leaves when it has
    ended, [Preferences p] destroyed. *)
Definition select_font (getFont : string -> option string) (thid : Z) (W : World)
    : result (option unit) * World :=
  match console_by_thread thid W with
  | Some c =>
      let W := exec_func_and_stop W in
      match getFont (console_font W) with
      | Some f =>
          (TRUE (), with_console_font (set_console_at W (self c) (setFont f)) f)
      | None => (FALSE, W)
      end
  | None => (FALSE, W)
  end.

(** [quit_console]. *)
Definition quit_console (thid : Z) (W : World) : result (option unit) * World :=
  match console_by_thread thid W with
  | Some c => (TRUE (), exec_func lambda_quit_console W)
  | None => (FALSE, W)
  end.

(** [copy]. *)
Definition copy (thid : Z) (W : World) : result (option unit) * World :=
  match console_by_thread thid W with
  | Some c => (TRUE (), exec_func (lambda_copy (self c)) W)
  | None => (FALSE, W)
  end.

(** [paste]. *)
Definition paste (thid : Z) (W : World) : result (option unit) * World :=
  match console_by_thread thid W with
  | Some c => (TRUE (), exec_func (lambda_paste (self c)) W)
  | None => (FALSE, W)
  end.

(** ** The meta object of a console, for the examples *)

Definition with_props (ce : ConsoleEdit) (ps : properties) : ConsoleEdit :=
  {| thread := thread ce; props := ps;
     history_lines := history_lines ce; font := font ce;
     fontCell := fontCell ce; textCursor := textCursor ce |}.

(** [QPlainTextEdit::LineWrapMode]. *)
Definition LineWrapMode : QMetaEnum :=
  {| isFlag := false; keys := [("NoWrap", 0); ("WidgetWidth", 1)] |}.

(** [Qt::TextInteractionFlags], a flag type. *)
Definition TextInteractionFlags : QMetaEnum :=
  {| isFlag := true;
     keys := [("NoTextInteraction", 0); ("TextSelectableByMouse", 1);
              ("TextSelectableByKeyboard", 2); ("LinksAccessibleByMouse", 4);
              ("LinksAccessibleByKeyboard", 8); ("TextEditable", 16);
              ("TextEditorInteraction", 19); ("TextBrowserInteraction", 13)] |}.

Definition updateRefreshRate_property : QMetaProperty ConsoleEdit :=
  {| name := "updateRefreshRate"; type := QVariant.Int; enumerator := None;
     read := fun ce => QVariant_int (updateRefreshRate (props ce));
     write := fun ce x =>
       match x with
       | QVariant_int i =>
           Some (with_props ce
             {| updateRefreshRate := i;
                maximumBlockCount := maximumBlockCount (props ce);
                lineWrapMode := lineWrapMode (props ce);
                readOnly := readOnly (props ce);
                documentTitle := documentTitle (props ce);
                textInteractionFlags := textInteractionFlags (props ce) |})
       | _ => None
       end |}.

Definition maximumBlockCount_property : QMetaProperty ConsoleEdit :=
  {| name := "maximumBlockCount"; type := QVariant.Int; enumerator := None;
     read := fun ce => QVariant_int (maximumBlockCount (props ce));
     write := fun ce x =>
       match x with
       | QVariant_int i =>
           Some (with_props ce
             {| updateRefreshRate := updateRefreshRate (props ce);
                maximumBlockCount := i;
                lineWrapMode := lineWrapMode (props ce);
                readOnly := readOnly (props ce);
                documentTitle := documentTitle (props ce);
                textInteractionFlags := textInteractionFlags (props ce) |})
       | _ => None
       end |}.

Definition lineWrapMode_property : QMetaProperty ConsoleEdit :=
  {| name := "lineWrapMode"; type := QVariant.Int;
     enumerator := Some LineWrapMode;
     read := fun ce => QVariant_int (lineWrapMode (props ce));
     write := fun ce x =>
       match x with
       | QVariant_int i =>
           Some (with_props ce
             {| updateRefreshRate := updateRefreshRate (props ce);
                maximumBlockCount := maximumBlockCount (props ce);
                lineWrapMode := i;
                readOnly := readOnly (props ce);
                documentTitle := documentTitle (props ce);
                textInteractionFlags := textInteractionFlags (props ce) |})
       | _ => None
       end |}.

Definition readOnly_property : QMetaProperty ConsoleEdit :=
  {| name := "readOnly"; type := QVariant.Bool; enumerator := None;
     read := fun ce => QVariant_bool (readOnly (props ce));
     write := fun ce x =>
       match x with
       | QVariant_bool b =>
           Some (with_props ce
             {| updateRefreshRate := updateRefreshRate (props ce);
                maximumBlockCount := maximumBlockCount (props ce);
                lineWrapMode := lineWrapMode (props ce);
                readOnly := b;
                documentTitle := documentTitle (props ce);
                textInteractionFlags := textInteractionFlags (props ce) |})
       | _ => None
       end |}.

Definition documentTitle_property : QMetaProperty ConsoleEdit :=
  {| name := "documentTitle"; type := QVariant.String; enumerator := None;
     read := fun ce => QVariant_string (documentTitle (props ce));
     write := fun ce x =>
       match x with
       | QVariant_string s =>
           Some (with_props ce
             {| updateRefreshRate := updateRefreshRate (props ce);
                maximumBlockCount := maximumBlockCount (props ce);
                lineWrapMode := lineWrapMode (props ce);
                readOnly := readOnly (props ce);
                documentTitle := s;
                textInteractionFlags := textInteractionFlags (props ce) |})
       | _ => None
       end |}.

Definition textInteractionFlags_property : QMetaProperty ConsoleEdit :=
  {| name := "textInteractionFlags"; type := QVariant.Int;
     enumerator := Some TextInteractionFlags;
     read := fun ce => QVariant_int (textInteractionFlags (props ce));
     write := fun ce x =>
       match x with
       | QVariant_int i =>
           Some (with_props ce
             {| updateRefreshRate := updateRefreshRate (props ce);
                maximumBlockCount := maximumBlockCount (props ce);
                lineWrapMode := lineWrapMode (props ce);
                readOnly := readOnly (props ce);
                documentTitle := documentTitle (props ce);
                textInteractionFlags := i |})
       | _ => None
       end |}.

(** The properties a console answers to in the examples. *)
Definition ConsoleEdit_metaObject : list (QMetaProperty ConsoleEdit) :=
  [ readOnly_property; documentTitle_property; lineWrapMode_property;
    maximumBlockCount_property; textInteractionFlags_property;
    updateRefreshRate_property ].

(** ** The kinds of section 4.2, in the words of the specification

    "dispatch on the property's declared kind (boolean, integer, enumerated
    integer, unsigned integer, string) and the term's kind": an unbound
    term asks to read a property of one of these kinds; an integer is
    written to an integer or unsigned property, an atom to a string
    property, to an enumerated property whose name table has it, or, as
    one of the two fixed atoms, to a boolean property.  A floating point
    number and a floating point property are of one kind.  Everything else
    is a kind mismatch. *)
Definition spec_kinds_agree {O} (v : PlTerm) (p : QMetaProperty O) : bool :=
  match v, type p with
  | PL_VARIABLE, (QVariant.Bool | QVariant.Int | QVariant.UInt | QVariant.String) =>
      true
  | PL_INTEGER _, (QVariant.Int | QVariant.UInt) => true
  | PL_ATOM _, QVariant.String => true
  | PL_ATOM a, QVariant.Int =>
      match enumerator p with
      | Some e => existsb (fun kv => String.eqb (fst kv) a) (keys e)
      | None => false
      end
  | PL_ATOM a, QVariant.Bool => String.eqb a "true" || String.eqb a "false"
  | PL_FLOAT _, QVariant.Double => true
  | _, _ => false
  end.

(** Where [unify] comes to [Q_ASSERT(!p.isFlagType())] and the assertion
    fails: an atom for an enumerated integer property of a flag type, in a
    build with assertions.  The assertion stands before the name of the
    atom is looked up. *)
Definition stops_at_assertion {O} (debug : bool) (p : QMetaProperty O)
    (v : PlTerm) : bool :=
  match v, type p with
  | PL_ATOM _, QVariant.Int => debug && isFlagType p
  | _, _ => false
  end.

(** A property that keeps the variant [x] it is given: writing [x]
    succeeds on every object, and reading gives [x] back. *)
Definition stores {O} (p : QMetaProperty O) (x : QVariant) : Prop :=
  forall o, exists o', write p o x = Some o' /\ read p o' = x.

(** What can be written and read back: an integer that fits an [int] on a
    plain integer property; a key on an enumerated property, when the key
    is the first one of its value and that value is not -1; an atom on a
    string property.  In each case the property keeps what it is given. *)
Definition reads_back {O} (debug : bool) (p : QMetaProperty O) (v : PlTerm) : Prop :=
  match v with
  | PL_INTEGER i =>
      type p = QVariant.Int /\ enumerator p = None /\
      INT_MIN <= i <= INT_MAX /\ stores p (QVariant_int i)
  | PL_ATOM a =>
      (type p = QVariant.String /\ stores p (QVariant_string a)) \/
      (type p = QVariant.Int /\ Q_ASSERT_not_flag debug p = true /\
       exists e, enumerator p = Some e /\ keyToValue e a <> -1 /\
                 valueToKey e (keyToValue e a) = Some a /\
                 stores p (QVariant_int (keyToValue e a)))
  | _ => False
  end.

(** ** The options of win_window_pos *)

(** An option "matching both name and arity": [size/2], [position/2],
    [zorder/1], [show/1] or [activate/0]. *)
Definition known_option (opt : PlTerm) : bool :=
  match name_arity opt with
  | Some (f, n) =>
      (n =? 2)%nat && String.eqb f "size"
      || (n =? 2)%nat && String.eqb f "position"
      || (n =? 1)%nat && String.eqb f "zorder"
      || (n =? 1)%nat && String.eqb f "show"
      || (n =? 0)%nat && String.eqb f "activate"
  | None => false
  end.

(** An atom or compound term that is none of the five. *)
Definition unknown_option (opt : PlTerm) : bool :=
  match name_arity opt with
  | Some _ => negb (known_option opt)
  | None => false
  end.

Definition is_long (t : PlTerm) : bool :=
  match t with
  | PL_INTEGER i => (LONG_MIN <=? i) && (i <=? LONG_MAX)
  | _ => false
  end.

(** A known option whose arguments convert: integers that fit a [long] for
    [size] and [position], an atom or compound term for [show]. *)
Definition well_typed_option (opt : PlTerm) : bool :=
  match name_arity opt with
  | Some (f, n) =>
      if (n =? 2)%nat && (String.eqb f "size" || String.eqb f "position") then
        is_long (PlTerm_arg opt 1) && is_long (PlTerm_arg opt 2)
      else if (n =? 1)%nat && String.eqb f "show" then
        match name_arity (PlTerm_arg opt 1) with Some _ => true | None => false end
      else known_option opt
  | None => false
  end.

(** ** Fire-and-wait, thread by thread

    The worker thread and the GUI thread of one call of [getOpenFileName],
    [getSaveFileName] or [select_font], from [ConsoleEdit::exec_sync s;] to
    the [return], as an interleaving of their steps. *)

(** The variables of the predicate that its lambda captures by reference,
    [QString Choice] and [bool ok], and the variables of the lambda of
    [select_font]: [Preferences p], of which [p.console_font] is used, and
    [QFont font]. *)
Record locals : Type := {
  Choice : string;
  ok : bool;
  p_console_font : string;
  QFont_font : string
}.

(** What the two threads execute, statement by statement.  Of the worker:
    [c->exec_func([&]() { ... })], [s.stop()], and the return of the
    predicate, which is [if (!Choice.isEmpty()) { A4 = A(Choice); return
    TRUE; } return FALSE] or [return ok].  Of the lambdas:
    [Choice = QFileDialog::get...FileName(c, Caption, StartPath, Pattern)]
    with what the user answers; [Preferences p];
    [QFont font = QFontDialog::getFont(&ok, p.console_font, c)];
    [if (ok) c->setFont(p.console_font = font)]; [s.go()]; and the closing
    brace of the lambda of [select_font], where [font] and [p] are
    destroyed.  The lambda of an earlier call is run as a whole. *)
Inductive statement : Type :=
| call_exec_func (lambda : list statement)
| call_stop
| return_Choice
| return_ok
| assign_Choice (answer : string)
| declare_Preferences
| call_getFont (getFont : string -> option string)
| if_ok_setFont (c : ptr)
| call_go
| leave_lambda
| run_closure (f : closure).

(** What a predicate returns to the runtime. *)
Inductive outcome : Type :=
| returns_Choice (r : result (option string))
| returns_ok (r : result (option unit)).

(** What the two threads share: the application, the variables above, and
    whether the synchronization point [s] has been signalled. *)
Record shared : Type := {
  world : World;
  vars : locals;
  signalled : bool
}.

(** The rest of the worker's predicate, the rest of the lambda the GUI
    thread is running, the lambdas posted and not yet started, what the
    predicate has returned, and what the threads share. *)
Record threads : Type := {
  worker : list statement;
  gui : list statement;
  event_queue : list (list statement);
  returned : option outcome;
  now : shared
}.

(** One statement of a lambda, on the GUI thread.

    Modelled from the spec: [ConsoleEdit::exec_sync::go] (ConsoleEdit.h)
    and class [Preferences] (Preferences.h).  Section 4.4: the unit of work
    "signals that point"; section 6, select-font: "on acceptance, updates
    the console font and persists the preference".  The lambda has no
    statement that stores the preference: [p] takes the stored font when
    it is declared, and stores its font when it is destroyed.  A cancelled
    font dialog returns the font it was given. *)
Definition gui_exec (st : statement) (g : shared) : shared :=
  match st with
  | assign_Choice answer =>
      {| world := world g;
         vars := {| Choice := answer; ok := ok (vars g);
                    p_console_font := p_console_font (vars g);
                    QFont_font := QFont_font (vars g) |};
         signalled := signalled g |}
  | declare_Preferences =>
      {| world := world g;
         vars := {| Choice := Choice (vars g); ok := ok (vars g);
                    p_console_font := console_font (world g);
                    QFont_font := QFont_font (vars g) |};
         signalled := signalled g |}
  | call_getFont getFont =>
      {| world := world g;
         vars := {| Choice := Choice (vars g);
                    ok := match getFont (p_console_font (vars g)) with
                          | Some _ => true
                          | None => false
                          end;
                    p_console_font := p_console_font (vars g);
                    QFont_font := default (p_console_font (vars g))
                                    (getFont (p_console_font (vars g))) |};
         signalled := signalled g |}
  | if_ok_setFont c =>
      if ok (vars g) then
        {| world := set_console_at (world g) c (setFont (QFont_font (vars g)));
           vars := {| Choice := Choice (vars g); ok := ok (vars g);
                      p_console_font := QFont_font (vars g);
                      QFont_font := QFont_font (vars g) |};
           signalled := signalled g |}
      else g
  | call_go =>
      {| world := world g; vars := vars g; signalled := true |}
  | leave_lambda =>
      {| world := with_console_font (world g) (p_console_font (vars g));
         vars := vars g; signalled := signalled g |}
  | run_closure f =>
      {| world := run f (world g); vars := vars g; signalled := signalled g |}
  | _ => g
  end.

(** What the [return] of a predicate gives, from the variables as they are
    when the worker comes to it. *)
Definition return_value (st : statement) (v : locals) : option outcome :=
  match st with
  | return_Choice =>
      Some (returns_Choice
              (if negb (String.eqb (Choice v) "") then TRUE (Choice v) else FALSE))
  | return_ok => Some (returns_ok (if ok v then TRUE () else FALSE))
  | _ => None
  end.

(** One step of the worker thread, where it can take one.

    Modelled from the spec: [ConsoleEdit::exec_func] and
    [ConsoleEdit::exec_sync::stop] (ConsoleEdit.h).  Section 4.4: a
    submitted unit of work "runs asynchronously on the GUI thread at its
    next opportunity", FIFO; "submission blocks the calling thread on a
    single-use synchronization point".  So [exec_func] appends the lambda
    to the queue of the GUI thread, and [stop] returns only once the point
    has been signalled. *)
Definition worker_step (s : threads) : option threads :=
  match worker s with
  | call_exec_func lambda :: k =>
      Some {| worker := k; gui := gui s;
              event_queue := (event_queue s ++ [lambda])%list;
              returned := returned s; now := now s |}
  | call_stop :: k =>
      if signalled (now s)
      then Some {| worker := k; gui := gui s; event_queue := event_queue s;
                   returned := returned s; now := now s |}
      else None
  | st :: k =>
      match return_value st (vars (now s)) with
      | Some out =>
          Some {| worker := k; gui := gui s; event_queue := event_queue s;
                  returned := Some out; now := now s |}
      | None => None
      end
  | [] => None
  end.

(** One step of the GUI thread: the next statement of the lambda it is
    running, or, when that has ended, the start of the next lambda of the
    queue. *)
Definition gui_step (s : threads) : option threads :=
  match gui s with
  | st :: k =>
      Some {| worker := worker s; gui := k; event_queue := event_queue s;
              returned := returned s; now := gui_exec st (now s) |}
  | [] =>
      match event_queue s with
      | lambda :: q =>
          Some {| worker := worker s; gui := lambda; event_queue := q;
                  returned := returned s; now := now s |}
      | [] => None
      end
  end.

(** The threads run in parallel: any of them takes the next step. *)
Definition step (s s' : threads) : Prop :=
  worker_step s = Some s' \/ gui_step s = Some s'.

(** The states a run can reach. *)
Inductive reachable (init : threads) : threads -> Prop :=
| reachable_init : reachable init init
| reachable_step s s' : reachable init s -> step s s' -> reachable init s'.

(** A run by its schedule: [true] for a step of the worker, [false] for a
    step of the GUI thread. *)
Fixpoint run_schedule (schedule : list bool) (s : threads) : option threads :=
  match schedule with
  | [] => Some s
  | who :: rest =>
      match (if who then worker_step s else gui_step s) with
      | Some s' => run_schedule rest s'
      | None => None
      end
  end.

(** The three predicates from [ConsoleEdit::exec_sync s;] on.  [dialog]
    and [getFont] are what the user answers, as in the predicates above. *)
Definition getOpenFileName_body (dialog : string -> string -> string -> string)
    (Caption : string) (A2 : PlTerm) (Pattern : string) : list statement :=
  let StartPath := match A2 with PL_ATOM s => s | _ => "" end in
  [ call_exec_func [assign_Choice (dialog Caption StartPath Pattern); call_go];
    call_stop; return_Choice ].

Definition getSaveFileName_body (dialog : string -> string -> string -> string)
    (Caption : string) (A2 : PlTerm) (Pattern : string) : list statement :=
  let StartPath := match A2 with PL_ATOM s => s | _ => "" end in
  [ call_exec_func [assign_Choice (dialog Caption StartPath Pattern); call_go];
    call_stop; return_Choice ].

Definition select_font_lambda (getFont : string -> option string) (c : ptr)
    : list statement :=
  [ declare_Preferences; call_getFont getFont; if_ok_setFont c; call_go;
    leave_lambda ].

Definition select_font_body (getFont : string -> option string) (c : ptr)
    : list statement :=
  [ call_exec_func (select_font_lambda getFont c); call_stop; return_ok ].

(** The variables at the start: [QString Choice] is empty and [bool ok =
    false]; the variables of the lambda do not exist yet. *)
Definition at_start : locals :=
  {| Choice := ""; ok := false; p_console_font := ""; QFont_font := "" |}.

(** The start of a call in the world [W]: the worker is about to run
    [body], the GUI thread has the lambdas posted before in its queue. *)
Definition start (body : list statement) (W : World) : threads :=
  {| worker := body; gui := [];
     event_queue := map (fun f => [run_closure f]) (posted W);
     returned := None;
     now := {| world := with_posted W []; vars := at_start;
               signalled := false |} |}.

(** *** The phases of a call *)

Definition gui_exec_all (l : list statement) (g : shared) : shared :=
  fold_left (fun g st => gui_exec st g) l g.

(** What the threads share when the lambda of the call starts: the lambdas
    posted before have run. *)
Definition at_lambda (W : World) : shared :=
  {| world := processEvents W; vars := at_start; signalled := false |}.

(** Before the lambda of the call starts, the GUI thread has the rest
    [gs] of an earlier lambda and the earlier lambdas [fs] to run. *)
Definition earlier (W : World) (g : list statement) (q : list (list statement))
    (sh : shared) : Prop :=
  exists gs fs,
    g = map run_closure gs /\ q = map (fun f => [run_closure f]) fs /\
    vars sh = at_start /\ signalled sh = false /\
    fold_left (fun V f => run f V) (gs ++ fs) (world sh) = processEvents W.

(** Where the worker is when the GUI thread has run [n] statements of the
    lambda [lam]: blocked in [stop]; past it, the point signalled; or
    returned, with the variables as they were after some [m] statements,
    the point signalled by then. *)
Definition worker_at (lam : list statement) (ret : statement) (W : World)
    (n : nat) (w : list statement) (r : option outcome) : Prop :=
  (w = [call_stop; ret] /\ r = None) \/
  (w = [ret] /\ r = None /\
   signalled (gui_exec_all (take n lam) (at_lambda W)) = true) \/
  (w = [] /\ exists m, (m <= n)%nat /\
     signalled (gui_exec_all (take m lam) (at_lambda W)) = true /\
     r = return_value ret (vars (gui_exec_all (take m lam) (at_lambda W)))).

(** The phases a call goes through: the lambda is not yet posted; posted
    and waiting behind earlier lambdas; started, [n] statements run. *)
Inductive phase (lam : list statement) (ret : statement) (W : World)
    : threads -> Prop :=
| phase_calling g q sh :
    earlier W g q sh ->
    phase lam ret W
      {| worker := [call_exec_func lam; call_stop; ret]; gui := g;
         event_queue := q; returned := None; now := sh |}
| phase_posted g q sh :
    earlier W g q sh ->
    phase lam ret W
      {| worker := [call_stop; ret]; gui := g;
         event_queue := (q ++ [lam])%list; returned := None; now := sh |}
| phase_started n w r :
    (n <= length lam)%nat -> worker_at lam ret W n w r ->
    phase lam ret W
      {| worker := w; gui := drop n lam; event_queue := []; returned := r;
         now := gui_exec_all (take n lam) (at_lambda W) |}.

(** ** What a search can see of the hierarchy

    [search_widget] and the two predicates handed to it look at the shape
    of the hierarchy, at whether an object is a widget, and at the thread
    of a console; at nothing else. *)

(** Not a widget; a widget that is no console; a console of a thread. *)
Definition tag (cls : QClass) : option (option Z) :=
  match cls with
  | Class_QObject => None
  | Class_QWidget _ | Class_QMainWindow _ _ => Some None
  | Class_ConsoleEdit _ ce => Some (Some (thread ce))
  end.

Inductive skel : Type :=
| Skel (t : option (option Z)) (kids : list skel).

Fixpoint skeleton (o : QObject) : skel :=
  match o with
  | Object cls cs => Skel (tag cls) (map skeleton cs)
  end.

(** Two stacks of a search that hold the same pointers to objects of the
    same skeleton. *)
Definition stack_sim (s s' : list (ptr * QObject)) : Prop :=
  Forall2 (fun e e' => fst e = fst e' /\ skeleton (snd e) = skeleton (snd e')) s s'.

(** The entries of a stack point to where their objects are. *)
Definition stack_valid (tops : list QObject) (s : list (ptr * QObject)) : Prop :=
  Forall (fun e => deref tops (fst e) = Some (snd e)) s.

(** The number of menus of the menu bar with the given label. *)
Definition count_menus (Label : string) (mbar : list QMenu) : nat :=
  length (filter (fun ac => title ac = Label) mbar).

(** ** A console in a main window, for the examples *)

Definition demo_console : ConsoleEdit :=
  {| thread := 1;
     props := {| updateRefreshRate := 100; maximumBlockCount := 0;
                 lineWrapMode := 1; readOnly := false; documentTitle := "";
                 textInteractionFlags := 19 |};
     history_lines := []; font := "Monospace";
     fontCell := {| width := 8; height := 16 |};
     textCursor := {| beforeSelection := "?- "; selectedText := "";
                      afterSelection := "" |} |}.

Definition demo_window : QWidget :=
  {| windowTitle := "pqConsole"; pos := (0, 0);
     size := {| width := 640; height := 480 |};
     isVisible := true; isActiveWindow := false |}.

Definition demo_console_widget : QWidget :=
  {| windowTitle := ""; pos := (0, 23);
     size := {| width := 643; height := 457 |};
     isVisible := true; isActiveWindow := false |}.

(** A main window with the given menu bar; its children are a layout (no
    widget) and the console of thread 1. *)
Definition demo_world (mbar : list QMenu) : World :=
  {| topLevelWidgets :=
       [ Object (Class_QMainWindow demo_window mbar)
           [ Object Class_QObject [];
             Object (Class_ConsoleEdit demo_console_widget demo_console) [] ] ];
     clipboard := ""; console_font := "Monospace"; posted := [];
     quit_called := false; qDebug := [] |}.

(** A File menu with the items Open and Quit. *)
Definition File_menu : QMenu :=
  {| title := "File";
     actions := [ new_QAction [0; 1]%nat "Open" "win_menu" "open_file";
                  new_QAction [0; 1]%nat "Quit" "win_menu" "halt" ] |}.

(** No window at all. *)
Definition no_windows : World :=
  {| topLevelWidgets := []; clipboard := ""; console_font := "Monospace";
     posted := []; quit_called := false; qDebug := [] |}.

(** A console that is a top-level widget itself. *)
Definition bare_console_world : World :=
  {| topLevelWidgets :=
       [ Object (Class_ConsoleEdit demo_console_widget demo_console) [] ];
     clipboard := ""; console_font := "Monospace"; posted := [];
     quit_called := false; qDebug := [] |}.

(** ** Option lists of console_settings, one after the other *)

(** What a loop that ended as [r1] and a second loop [k] give together:
    the second starts from the console the first left, if the first ended
    well, and the options bound by both are put together. *)
Definition settings_then (r1 : result (list PlTerm) * ConsoleEdit)
    (k : ConsoleEdit -> result (list PlTerm) * ConsoleEdit)
    : result (list PlTerm) * ConsoleEdit :=
  match r1 with
  | (Ok b1, c1) => let (r2, c2) := k c1 in (b2 ← r2; Ok (b1 ++ b2), c2)
  | (Throw e, c1) => (Throw e, c1)
  | (Crash why, c1) => (Crash why, c1)
  end.

(** The same for two calls of the predicate. *)
Definition calls_then (r1 : result (option (list PlTerm)) * World)
    (k : World -> result (option (list PlTerm)) * World)
    : result (option (list PlTerm)) * World :=
  match r1 with
  | (TRUE b1, W1) =>
      match k W1 with
      | (TRUE b2, W2) => (TRUE (b1 ++ b2), W2)
      | other => other
      end
  | other => other
  end.

(** No property of the meta object changes the thread a console belongs
    to when it is written. *)
Definition keep_thread (metaObject : list (QMetaProperty ConsoleEdit)) : Prop :=
  forall p o x o', In p metaObject -> write p o x = Some o' -> thread o' = thread o.

(** An option of [console_settings] that asks for a value: [name(Value)]
    with [Value] unbound when the loop comes to it. *)
Definition is_query (opt : PlTerm) : bool :=
  match opt with
  | PL_TERM _ [PL_VARIABLE] => true
  | _ => false
  end.

(** ** Where a new menu goes *)

(** The place the lambda of [win_insert_menu] gives a new menu: before the
    first menu labelled [Before]; at the end when there is no such menu
    and [Before] is "-"; none otherwise. *)
Definition menu_position (Before : string) (mbar : list QMenu) : option nat :=
  match list_find (fun ac => title ac = Before) mbar with
  | Some (i, _) => Some i
  | None => if String.eqb Before "-" then Some (length mbar) else None
  end.

(** ** The order of a search

    The widgets a search looks at, in the order in which the loop pops
    them, written by recursion on the hierarchy: a widget, then the
    widgets under its last widget child, ..., then those under its first. *)
Fixpoint visits (o : QObject) (p : ptr) : list (ptr * QObject) :=
  match o with
  | Object cls cs =>
      (p, Object cls cs)
      :: (fix under (cs : list QObject) (i : nat) : list (ptr * QObject) :=
            match cs with
            | [] => []
            | c :: cs' =>
                under cs' (S i)
                ++ (if isWidgetType c then visits c (p ++ [i]) else [])
            end) cs 0%nat
  end.

(** The widgets under the children [cs] of the object at [p], the first of
    which has index [i]. *)
Fixpoint visits_under (p : ptr) (cs : list QObject) (i : nat)
    : list (ptr * QObject) :=
  match cs with
  | [] => []
  | c :: cs' =>
      visits_under p cs' (S i)
      ++ (if isWidgetType c then visits c (p ++ [i]) else [])
  end.

(** The widgets a stack still stands for. *)
Definition stack_visits (s : list (ptr * QObject)) : list (ptr * QObject) :=
  concat (map (fun e => visits (snd e) (fst e)) s).

(** The widgets of the top-level widgets [tops], the first of which has
    index [i], one top-level widget after the other. *)
Fixpoint visits_from (i : nat) (tops : list QObject) : list (ptr * QObject) :=
  match tops with
  | [] => []
  | widget :: rest => visits widget [i] ++ visits_from (S i) rest
  end.

(** All widgets a search can come to, in the order of the search. *)
Definition visit_order (W : World) : list (ptr * QObject) :=
  visits_from 0 (topLevelWidgets W).

(** The widgets of the hierarchy: a top-level widget, or a child that is a
    widget of such a widget. *)
Inductive widget_at (tops : list QObject) : ptr -> QObject -> Prop :=
| widget_top i o : tops !! i = Some o -> widget_at tops [i] o
| widget_child p o i c :
    widget_at tops p o -> children o !! i = Some c -> isWidgetType c = true ->
    widget_at tops (p ++ [i]) c.

(** A main window with two consoles of thread 1, one after the other. *)
Definition two_consoles_world : World :=
  {| topLevelWidgets :=
       [ Object (Class_QWidget demo_window) [];
         Object (Class_QMainWindow demo_window [])
           [ Object (Class_ConsoleEdit demo_console_widget demo_console) [];
             Object (Class_ConsoleEdit demo_console_widget demo_console) [] ] ];
     clipboard := ""; console_font := "Monospace"; posted := [];
     quit_called := false; qDebug := [] |}.

(** ** First facts: the examples run *)

Example demo_console_found :
  console_by_thread 1 (demo_world []) =
  Some {| self := [0; 1]%nat; widget := demo_console_widget;
          console := demo_console |}.
Proof. reflexivity. Qed.

Example demo_other_thread : console_by_thread 2 (demo_world []) = None.
Proof. reflexivity. Qed.

Example demo_tty_size :
  fst (tty_size 1 (demo_world [])) = TRUE (28, 80).
Proof. reflexivity. Qed.

(** ** The property bridge *)

Lemma keyToValue_unknown (e : QMetaEnum) (key : string) :
  existsb (fun kv => String.eqb (fst kv) key) (keys e) = false ->
  keyToValue e key = -1.
Proof.
  unfold keyToValue. induction (keys e) as [|kv l IH]; simpl; [reflexivity|].
  destruct (String.eqb (fst kv) key); simpl; [discriminate | exact IH].
Qed.

Lemma Q_ASSERT_not_flag_false {O} (debug : bool) (p : QMetaProperty O) :
  Q_ASSERT_not_flag debug p = false <-> debug = true /\ isFlagType p = true.
Proof.
  unfold Q_ASSERT_not_flag. destruct debug, (isFlagType p); simpl; intuition congruence.
Qed.

(** The atom-to-enumeration case never assigns on a name the enumeration
    does not have. *)
Lemma unify_atom_Int_unknown {O} (debug : bool) (p : QMetaProperty O) (o : O)
    (v : PlTerm) (a : string) :
  match enumerator p with
  | Some e => existsb (fun kv => String.eqb (fst kv) a) (keys e) = false
  | None => True
  end ->
  snd (unify_atom_Int debug p o v a) = o /\
  (forall t, fst (unify_atom_Int debug p o v a) <> Ok t) /\
  (Q_ASSERT_not_flag debug p = true ->
   fst (unify_atom_Int debug p o v a) = Throw property_type_mismatch).
Proof.
  unfold unify_atom_Int. destruct (enumerator p) as [e|] eqn:He.
  - intros Hk. rewrite (keyToValue_unknown e a Hk).
    destruct (Q_ASSERT_not_flag debug p); simpl; repeat split; congruence.
  - intros _. simpl. repeat split; congruence.
Qed.

Lemma unify_mismatch {O} (debug : bool) (p : QMetaProperty O) (o : O) (v : PlTerm) :
  spec_kinds_agree v p = false ->
  snd (unify debug p o v) = o /\
  (forall t, fst (unify debug p o v) <> Ok t) /\
  (Q_ASSERT_not_flag debug p = true ->
   fst (unify debug p o v) = Throw property_type_mismatch).
Proof.
  unfold spec_kinds_agree, unify.
  destruct v as [|i|a|d|s|f args]; destruct (type p) eqn:Ht;
    try discriminate; intros Hk; simpl;
    try (repeat split; congruence).
  (* an atom for an integer property *)
  apply unify_atom_Int_unknown. destruct (enumerator p); [exact Hk | exact I].
Qed.

(** Writing to a boolean property is a type mismatch, whatever is written. *)
Lemma unify_Bool_write {O} (debug : bool) (p : QMetaProperty O) (o : O) (v : PlTerm) :
  type p = QVariant.Bool -> v <> PL_VARIABLE ->
  unify debug p o v = (Throw property_type_mismatch, o).
Proof.
  intros Ht Hv. unfold unify. rewrite Ht. destruct v; congruence.
Qed.

Lemma PlTerm_int_in_range (i : Z) :
  INT_MIN <= i <= INT_MAX -> PlTerm_int (PL_INTEGER i) = Ok i.
Proof.
  intros [H1 H2]. unfold PlTerm_int.
  destruct (Z.leb_spec INT_MIN i); [|lia].
  destruct (Z.leb_spec i INT_MAX); [reflexivity|lia].
Qed.

(** C2, as the code has it.  A kind mismatch between the term and the
    property never assigns and never returns: [unify] leaves the object as
    it was and throws "property type mismatch" to the caller, except for
    an atom on an enumerated property of a flag type in a build with
    assertions, where [Q_ASSERT(!p.isFlagType())] stops the call before the
    name is looked up. *)
Theorem C2_kind_mismatch_is_raised {O} (debug : bool) (p : QMetaProperty O)
    (o : O) (v : PlTerm) :
  spec_kinds_agree v p = false ->
  unify debug p o v =
    (if stops_at_assertion debug p v
     then Crash "ASSERT: !p.isFlagType()"
     else Throw property_type_mismatch, o) /\
  (forall t, fst (unify debug p o v) <> Ok t).
Proof.
  intros Hk. destruct (unify_mismatch debug p o v Hk) as (Hs & Hn & Ht).
  split; [|exact Hn].
  unfold stops_at_assertion. unfold spec_kinds_agree in Hk.
  destruct v as [|i|a|d|s|f args]; destruct (type p) eqn:Hty; try discriminate;
    try (cbn [unify]; rewrite ?Hty; reflexivity).
  (* an atom for an integer property *)
  cbn [unify]. rewrite Hty. unfold unify_atom_Int, Q_ASSERT_not_flag, isFlagType.
  destruct (enumerator p) as [e|]; [|rewrite andb_false_r; reflexivity].
  rewrite (keyToValue_unknown e a Hk).
  destruct (debug && isFlag e); reflexivity.
Qed.

(** An atom written to the integer property [maximumBlockCount]. *)
Lemma C2_kind_mismatch_is_raised_witness :
  spec_kinds_agree (PL_ATOM "many") maximumBlockCount_property = false /\
  unify true maximumBlockCount_property demo_console (PL_ATOM "many") =
  (Throw property_type_mismatch, demo_console).
Proof.
  split; [reflexivity|].
  destruct (C2_kind_mismatch_is_raised true maximumBlockCount_property
              demo_console (PL_ATOM "many") eq_refl) as [H _].
  exact H.
Defined.

(** C2, as stated, fails on a property of a flag type in a build with
    assertions: [textInteractionFlags('NoSuchFlag')] names no key of the
    enumeration, and the call stops at the assertion; no exception reaches
    the caller of [console_settings]. *)
Lemma C2_unknown_flag_name_stops_at_the_assertion :
  spec_kinds_agree (PL_ATOM "NoSuchFlag") textInteractionFlags_property = false /\
  unify true textInteractionFlags_property demo_console (PL_ATOM "NoSuchFlag") =
    (Crash "ASSERT: !p.isFlagType()", demo_console) /\
  console_settings true ConsoleEdit_metaObject 1
    [PL_TERM "textInteractionFlags" [PL_ATOM "NoSuchFlag"]] (demo_world []) =
    (Crash "ASSERT: !p.isFlagType()", demo_world []).
Proof. split; [reflexivity|]. split; reflexivity. Qed.

(** C3, as the code has it.  A value that [reads_back] is written by
    [unify] and read back unchanged by a second call with an unbound
    term. *)
Theorem C3_write_then_read {O} (debug : bool) (p : QMetaProperty O) (o : O)
    (v : PlTerm) :
  reads_back debug p v ->
  exists o', unify debug p o v = (Ok v, o') /\
             unify debug p o' PL_VARIABLE = (Ok v, o').
Proof.
  destruct v as [|i|a|d|s|f args]; cbn [reads_back]; try contradiction.
  - intros (Ht & He & Hi & Hst). destruct (Hst o) as (o' & Hw & Hr).
    exists o'. cbn [unify]. rewrite Ht, He, (PlTerm_int_in_range i Hi), Hw, Hr.
    split; reflexivity.
  - intros [(Ht & Hst) | (Ht & Ha & e & He & Hk & Hv & Hst)].
    + destruct (Hst o) as (o' & Hw & Hr). exists o'.
      cbn [unify]. rewrite Ht, Hw, Hr. split; reflexivity.
    + destruct (Hst o) as (o' & Hw & Hr). exists o'.
      cbn [unify]. unfold unify_atom_Int. rewrite Ht, He, Ha, Hw, Hr. cbn [toInt].
      rewrite Hv. destruct (Z.eqb_spec (keyToValue e a) (-1)); [contradiction|].
      split; reflexivity.
Qed.

Lemma lineWrapMode_stores (i : Z) : stores lineWrapMode_property (QVariant_int i).
Proof. intros ce. eexists. split; reflexivity. Qed.

(** [lineWrapMode('NoWrap')], then [lineWrapMode(X)]. *)
Lemma C3_write_then_read_witness :
  exists o',
    unify true lineWrapMode_property demo_console (PL_ATOM "NoWrap") =
      (Ok (PL_ATOM "NoWrap"), o') /\
    unify true lineWrapMode_property o' PL_VARIABLE = (Ok (PL_ATOM "NoWrap"), o').
Proof.
  apply (C3_write_then_read true lineWrapMode_property demo_console
           (PL_ATOM "NoWrap")).
  right. split; [reflexivity|]. split; [reflexivity|].
  exists LineWrapMode. split; [reflexivity|]. split; [discriminate|].
  split; [reflexivity|]. apply lineWrapMode_stores.
Defined.

(** C3, as stated, fails.  An integer that does not fit an [int] is not
    written: [maximumBlockCount(4294967296)] throws a type error.  And
    nothing is written to a boolean property: [readOnly(true)] throws, and
    the property keeps its value, which a read then shows as [false]. *)
Lemma C3_values_not_written :
  unify true maximumBlockCount_property demo_console (PL_INTEGER (2 ^ 32)) =
    (Throw (PlTypeError "integer" (PL_INTEGER (2 ^ 32))), demo_console) /\
  unify true readOnly_property demo_console (A "true") =
    (Throw property_type_mismatch, demo_console) /\
  unify false readOnly_property demo_console (A "true") =
    (Throw property_type_mismatch, demo_console) /\
  unify true readOnly_property demo_console PL_VARIABLE =
    (Ok (A "false"), demo_console).
Proof. repeat split. Qed.

(** An integer written to an enumerated property reads back as the key of
    that value: [lineWrapMode(0)], then [lineWrapMode(X)]. *)
Example unify_integer_reads_back_as_key :
  unify true lineWrapMode_property
    (snd (unify true lineWrapMode_property demo_console (PL_INTEGER 0)))
    PL_VARIABLE =
  (Ok (PL_ATOM "NoWrap"),
   snd (unify true lineWrapMode_property demo_console (PL_INTEGER 0))).
Proof. reflexivity. Qed.

(** C6, as the code has it.  On a property of a flag type, a read and the
    write of an atom stop at [Q_ASSERT(!p.isFlagType())] in a build with
    assertions, the object untouched; the write of an integer is not
    guarded, and assigns the integer as it is. *)
Theorem C6_flag_type_asserts {O} (p : QMetaProperty O) (o : O) :
  type p = QVariant.Int -> isFlagType p = true ->
  (forall v, v = PL_VARIABLE \/ (exists a, v = PL_ATOM a) ->
     unify true p o v = (Crash "ASSERT: !p.isFlagType()", o)) /\
  (forall debug i o', INT_MIN <= i <= INT_MAX ->
     write p o (QVariant_int i) = Some o' ->
     unify debug p o (PL_INTEGER i) = (Ok (PL_INTEGER i), o')).
Proof.
  intros Ht Hf. split.
  - intros v [-> | [a ->]]; cbn [unify]; unfold unify_atom_Int, Q_ASSERT_not_flag;
      rewrite Ht, Hf; unfold isFlagType in Hf;
      destruct (enumerator p); [reflexivity|discriminate|reflexivity|discriminate].
  - intros debug i o' Hi Hw. cbn [unify].
    rewrite Ht, (PlTerm_int_in_range i Hi), Hw. reflexivity.
Qed.

(** [textInteractionFlags(X)], [textInteractionFlags('TextEditable')] and
    [textInteractionFlags(3)]. *)
Lemma C6_flag_type_asserts_witness :
  unify true textInteractionFlags_property demo_console PL_VARIABLE =
    (Crash "ASSERT: !p.isFlagType()", demo_console) /\
  unify true textInteractionFlags_property demo_console (PL_ATOM "TextEditable") =
    (Crash "ASSERT: !p.isFlagType()", demo_console) /\
  fst (unify false textInteractionFlags_property demo_console (PL_INTEGER 3)) =
    Ok (PL_INTEGER 3).
Proof.
  destruct (C6_flag_type_asserts textInteractionFlags_property demo_console
              eq_refl eq_refl) as [Hassert Hint].
  split; [apply Hassert; left; reflexivity|].
  split; [apply Hassert; right; exists "TextEditable"; reflexivity|].
  rewrite (Hint false 3
             (snd (unify false textInteractionFlags_property demo_console
                     (PL_INTEGER 3)))); [reflexivity | | reflexivity].
  split; discriminate.
Defined.

(** C6, as stated, fails: [textInteractionFlags(3)] is written to the
    flag-type property, with assertions and without; nothing fails. *)
Lemma C6_integer_write_to_flag_type :
  isFlagType textInteractionFlags_property = true /\
  fst (unify true textInteractionFlags_property demo_console (PL_INTEGER 3)) =
    Ok (PL_INTEGER 3) /\
  fst (unify false textInteractionFlags_property demo_console (PL_INTEGER 3)) =
    Ok (PL_INTEGER 3) /\
  textInteractionFlags
    (props (snd (unify true textInteractionFlags_property demo_console
                   (PL_INTEGER 3)))) = 3.
Proof. repeat split. Qed.

(** ** tty_size *)

(** C8.  For a console whose font cell is positive in both directions,
    [tty_size] succeeds with the integer quotients of the pixel height and
    width of the widget by the height and width of the cell: Rows x cell
    height <= pixel height < (Rows + 1) x cell height, and the same for
    the columns.  The pixel size of a widget is never negative. *)
Theorem C8_tty_size_quotients (thid : Z) (W : World) (c : console_ref) :
  console_by_thread thid W = Some c ->
  0 < height (fontCell (console c)) ->
  0 < width (fontCell (console c)) ->
  0 <= height (size (widget c)) ->
  0 <= width (size (widget c)) ->
  exists Rows Cols,
    tty_size thid W = (TRUE (Rows, Cols), W) /\
    Rows * height (fontCell (console c)) <= height (size (widget c))
      < (Rows + 1) * height (fontCell (console c)) /\
    Cols * width (fontCell (console c)) <= width (size (widget c))
      < (Cols + 1) * width (fontCell (console c)) /\
    Rows = height (size (widget c)) / height (fontCell (console c)) /\
    Cols = width (size (widget c)) / width (fontCell (console c)).
Proof.
  intros Hc Hfh Hfw Hh Hw.
  set (fh := height (fontCell (console c))) in *.
  set (fw := width (fontCell (console c))) in *.
  set (h := height (size (widget c))) in *.
  set (w := width (size (widget c))) in *.
  exists (h ÷ fh), (w ÷ fw). unfold tty_size. rewrite Hc. fold fh fw h w.
  destruct (Z.eqb_spec fh 0); [lia|]. destruct (Z.eqb_spec fw 0); [lia|].
  cbn [orb]. rewrite !Z.quot_div_nonneg by lia.
  pose proof (Z.mul_div_le h fh Hfh). pose proof (Z.mul_succ_div_gt h fh Hfh).
  pose proof (Z.mul_div_le w fw Hfw). pose proof (Z.mul_succ_div_gt w fw Hfw).
  repeat split; lia.
Qed.

Lemma C8_tty_size_quotients_witness :
  exists Rows Cols,
    tty_size 1 (demo_world []) = (TRUE (Rows, Cols), demo_world []) /\
    Rows * 16 <= 457 < (Rows + 1) * 16 /\
    Cols * 8 <= 643 < (Cols + 1) * 8 /\
    Rows = 457 / 16 /\ Cols = 643 / 8.
Proof.
  apply (C8_tty_size_quotients 1 (demo_world [])
           {| self := [0; 1]%nat; widget := demo_console_widget;
              console := demo_console |});
    [reflexivity | reflexivity | reflexivity | discriminate | discriminate].
Defined.

(** ** Pointers into the hierarchy *)

Lemma deref_cons (ws : list QObject) (i : nat) (p : ptr) (o : QObject) :
  ws !! i = Some o -> p <> [] -> deref ws (i :: p) = deref (children o) p.
Proof. intros Hi Hp. simpl. rewrite Hi. destruct p; [contradiction|reflexivity]. Qed.

(** The i-th child of the object at [p] is at [p ++ [i]]. *)
Lemma deref_snoc (p : ptr) : forall (ws : list QObject) (o : QObject) (i : nat),
  deref ws p = Some o -> deref ws (p ++ [i]) = children o !! i.
Proof.
  induction p as [|j p IH]; intros ws o i H; [discriminate|].
  simpl in H. destruct (ws !! j) as [oj|] eqn:Hj; [|discriminate].
  destruct p as [|k p].
  - injection H as ->. simpl. rewrite Hj. simpl.
    destruct (children o !! i); reflexivity.
  - change ((j :: k :: p) ++ [i])%list with (j :: ((k :: p) ++ [i]))%list.
    rewrite (deref_cons ws j _ oj Hj) by (destruct p; discriminate).
    apply IH. exact H.
Qed.

(** Reading through a pointer after assigning through it. *)
Lemma deref_update (f : QClass -> QClass) (p : ptr) :
  forall (ws : list QObject) (o : QObject),
  deref ws p = Some o ->
  deref (update f ws p) p = Some (Object (f (class_of o)) (children o)).
Proof.
  induction p as [|i p IH]; intros ws o H; [discriminate|].
  simpl in H. destruct (ws !! i) as [oi|] eqn:Hi; [|discriminate].
  cbn [update deref]. rewrite list_lookup_alter_eq, Hi. cbn [fmap option_fmap option_map].
  destruct p as [|k p].
  - injection H as ->. reflexivity.
  - cbn [children]. apply IH. exact H.
Qed.

(** Assigning what is already there changes nothing. *)
Lemma update_same (f : QClass -> QClass) (p : ptr) :
  forall (ws : list QObject),
  (forall o, deref ws p = Some o -> f (class_of o) = class_of o) ->
  update f ws p = ws.
Proof.
  induction p as [|i p IH]; intros ws H; [reflexivity|].
  cbn [update]. destruct (ws !! i) as [oi|] eqn:Hi.
  - apply list_eq. intros j. destruct (decide (i = j)) as [<-|Hne].
    + rewrite list_lookup_alter_eq, Hi. cbn. f_equal.
      destruct p as [|k p].
      * rewrite (H oi) by (simpl; rewrite Hi; reflexivity). destruct oi; reflexivity.
      * rewrite IH; [destruct oi; reflexivity|].
        intros o Ho. apply H. simpl. rewrite Hi. exact Ho.
    + rewrite list_lookup_alter_ne by exact Hne. reflexivity.
  - apply list_eq. intros j. destruct (decide (i = j)) as [<-|Hne].
    + rewrite list_lookup_alter_eq, Hi. reflexivity.
    + rewrite list_lookup_alter_ne by exact Hne. reflexivity.
Qed.

(** Two assignments through one pointer. *)
Lemma update_update (f g : QClass -> QClass) (p : ptr) :
  forall (ws : list QObject),
  update f (update g ws p) p = update (f ∘ g) ws p.
Proof.
  induction p as [|i p IH]; intros ws; [reflexivity|].
  cbn [update]. rewrite list_alter_alter_eq. apply list_alter_ext; [|reflexivity].
  intros o _. cbn [compose]. destruct p as [|k p]; [reflexivity|].
  cbn [class_of children]. rewrite IH. reflexivity.
Qed.

Lemma update_ext (f g : QClass -> QClass) (p : ptr) :
  (forall cls, f cls = g cls) ->
  forall (ws : list QObject), update f ws p = update g ws p.
Proof.
  intros Hfg. induction p as [|i p IH]; intros ws; [reflexivity|].
  cbn [update]. apply list_alter_ext; [|reflexivity].
  intros o _. destruct p as [|k p]; [rewrite Hfg; reflexivity|].
  rewrite IH. reflexivity.
Qed.

(** ** What search_widget finds *)

Lemma push_children_valid (tops : list QObject) (p : ptr) (o : QObject) :
  deref tops p = Some o ->
  forall (cs : list QObject) (i : nat) (s : list (ptr * QObject)),
  (forall j c, cs !! j = Some c -> children o !! (i + j)%nat = Some c) ->
  stack_valid tops s -> stack_valid tops (push_children p i cs s).
Proof.
  intros Hp. induction cs as [|c cs IH]; intros i s Hcs Hs; [exact Hs|].
  cbn [push_children]. apply IH.
  - intros j c' Hj. replace (S i + j)%nat with (i + S j)%nat by lia.
    apply Hcs. exact Hj.
  - destruct (isWidgetType c); [|exact Hs].
    constructor; [|exact Hs]. cbn [fst snd].
    rewrite (deref_snoc p tops o i Hp).
    replace i with (i + 0)%nat at 1 by lia. apply Hcs. reflexivity.
Qed.

(** The loop returns a widget that matches, with the pointer to it. *)
Lemma search_loop_Some (matches : QObject -> bool) (tops : list QObject)
    (s : list (ptr * QObject)) (q : ptr) (found : QObject) :
  stack_valid tops s ->
  search_loop matches s = Some (q, found) ->
  matches found = true /\ deref tops q = Some found.
Proof.
  funelim (search_loop matches s); intros Hs Hr.
  - discriminate.
  - inversion Hs as [|e s0 He Hs']; subst. cbn [fst snd] in He.
    destruct (matches o) eqn:Hm.
    + injection Hr as <- <-. split; [exact Hm | exact He].
    + apply H; [|exact Hr].
      apply (push_children_valid tops p o He); [|exact Hs'].
      intros j c Hj. exact Hj.
Qed.

Lemma search_from_Some (matches : QObject -> bool) (tops : list QObject)
    (p : ptr) (o : QObject) :
  forall (rest : list QObject) (i : nat),
  (forall j c, rest !! j = Some c -> tops !! (i + j)%nat = Some c) ->
  search_from matches i rest = Some (p, o) ->
  matches o = true /\ deref tops p = Some o.
Proof.
  induction rest as [|widget rest IH]; intros i Hrest Hr; [discriminate|].
  cbn [search_from] in Hr.
  destruct (search_loop matches [([i], widget)]) as [found|] eqn:Hl.
  - injection Hr as ->.
    apply (search_loop_Some matches tops _ p o) in Hl; [exact Hl|].
    constructor; [|constructor]. cbn [fst snd deref].
    replace i with (i + 0)%nat by lia. rewrite (Hrest 0%nat widget); reflexivity.
  - apply (IH (S i)); [|exact Hr].
    intros j c Hj. replace (S i + j)%nat with (i + S j)%nat by lia.
    apply Hrest. exact Hj.
Qed.

Lemma search_widget_Some (matches : QObject -> bool) (W : World)
    (p : ptr) (o : QObject) :
  search_widget matches W = Some (p, o) ->
  matches o = true /\ deref (topLevelWidgets W) p = Some o.
Proof.
  apply search_from_Some. intros j c Hj. exact Hj.
Qed.

(** The console found for a thread is a console of that thread, and the
    pointer leads to it. *)
Lemma console_by_thread_Some (thid : Z) (W : World) (c : console_ref) :
  console_by_thread thid W = Some c ->
  match_thread (console c) thid = true /\
  exists cs, deref (topLevelWidgets W) (self c) =
             Some (Object (Class_ConsoleEdit (widget c) (console c)) cs).
Proof.
  unfold console_by_thread, cast_found.
  destruct (search_widget _ W) as [[p o]|] eqn:Hs; [|discriminate].
  apply search_widget_Some in Hs as [Hm Hd].
  destruct o as [cls cs]. unfold as_ConsoleEdit in *. cbn [class_of] in *.
  destruct cls; try discriminate.
  intros [= <-]. cbn [self console widget]. split; [exact Hm|].
  exists cs. exact Hd.
Qed.

Lemma console_peek_first_Some (W : World) (c : console_ref) :
  console_peek_first W = Some c ->
  exists cs, deref (topLevelWidgets W) (self c) =
             Some (Object (Class_ConsoleEdit (widget c) (console c)) cs).
Proof.
  unfold console_peek_first, cast_found.
  destruct (search_widget _ W) as [[p o]|] eqn:Hs; [|discriminate].
  apply search_widget_Some in Hs as [Hm Hd].
  destruct o as [cls cs]. unfold as_ConsoleEdit in *. cbn [class_of] in *.
  destruct cls; try discriminate.
  intros [= <-]. cbn [self console widget]. exists cs. exact Hd.
Qed.

(** ** Searches do not see what the predicates change *)

Lemma skeleton_inv (o o' : QObject) :
  skeleton o = skeleton o' ->
  tag (class_of o) = tag (class_of o') /\
  Forall2 (fun c c' => skeleton c = skeleton c') (children o) (children o').
Proof.
  destruct o as [cls cs], o' as [cls' cs']. cbn [skeleton class_of children].
  intros [= Ht Hcs]. split; [exact Ht|].
  revert cs' Hcs. induction cs as [|c cs IH]; intros [|c' cs'] Hcs;
    try discriminate; [constructor|].
  injection Hcs as Hc Hcs. constructor; [exact Hc | apply IH; exact Hcs].
Qed.

Lemma isWidgetType_tag (o : QObject) :
  isWidgetType o = match tag (class_of o) with None => false | Some _ => true end.
Proof. destruct o as [[| | |] cs]; reflexivity. Qed.

Lemma push_children_sim (p : ptr) (cs cs' : list QObject) :
  Forall2 (fun c c' => skeleton c = skeleton c') cs cs' ->
  forall (i : nat) (s s' : list (ptr * QObject)),
  stack_sim s s' ->
  stack_sim (push_children p i cs s) (push_children p i cs' s').
Proof.
  induction 1 as [|c c' cs cs' Hc Hcs IH]; intros i s s' Hs; [exact Hs|].
  cbn [push_children]. apply IH.
  rewrite !isWidgetType_tag. destruct (skeleton_inv c c' Hc) as [-> _].
  destruct (tag (class_of c')); [|exact Hs].
  constructor; [|exact Hs]. split; [reflexivity | exact Hc].
Qed.

(** Two searches over hierarchies of the same skeleton end alike: both
    find nothing, or both find a widget at the same place. *)
Lemma search_loop_sim (matches : QObject -> bool) (s : list (ptr * QObject)) :
  (forall a b, skeleton a = skeleton b -> matches a = matches b) ->
  forall s', stack_sim s s' ->
  option_Forall2 (fun r r' => fst r = fst r' /\ skeleton (snd r) = skeleton (snd r'))
    (search_loop matches s) (search_loop matches s').
Proof.
  intros Hm. funelim (search_loop matches s); intros t Ht.
  - inversion Ht; subst. simp search_loop. constructor.
  - inversion Ht as [|e e' s0 t0 [He1 He2] Hs0]; subst.
    destruct e' as [p' o']. cbn [fst snd] in He1, He2. subst p'.
    simp search_loop. rewrite <- (Hm o o' He2).
    destruct (matches o).
    + constructor. split; [reflexivity | exact He2].
    + apply H; [exact Hm|].
      apply push_children_sim; [|exact Hs0].
      apply (skeleton_inv o o' He2).
Qed.

Lemma search_from_sim (matches : QObject -> bool) (rest rest' : list QObject) :
  (forall a b, skeleton a = skeleton b -> matches a = matches b) ->
  Forall2 (fun c c' => skeleton c = skeleton c') rest rest' ->
  forall i,
  option_Forall2 (fun r r' => fst r = fst r' /\ skeleton (snd r) = skeleton (snd r'))
    (search_from matches i rest) (search_from matches i rest').
Proof.
  intros Hm. induction 1 as [|c c' rest rest' Hc Hrest IH]; intros i;
    [constructor|].
  cbn [search_from].
  assert (Hl : option_Forall2
                 (fun r r' => fst r = fst r' /\ skeleton (snd r) = skeleton (snd r'))
                 (search_loop matches [([i], c)]) (search_loop matches [([i], c')])).
  { apply search_loop_sim; [exact Hm|].
    constructor; [|constructor]. split; [reflexivity | exact Hc]. }
  destruct Hl as [r r' Hr|].
  - constructor. exact Hr.
  - apply IH.
Qed.

Lemma map_skeleton_Forall2 (l l' : list QObject) :
  map skeleton l = map skeleton l' ->
  Forall2 (fun c c' => skeleton c = skeleton c') l l'.
Proof.
  revert l'. induction l as [|c l IH]; intros [|c' l'] H; try discriminate;
    [constructor|].
  injection H as Hc Hl. constructor; [exact Hc | apply IH; exact Hl].
Qed.

(** An assignment that keeps the tag keeps the skeleton. *)
Lemma skeleton_update (f : QClass -> QClass) (p : ptr) :
  (forall cls, tag (f cls) = tag cls) ->
  forall ws, map skeleton (update f ws p) = map skeleton ws.
Proof.
  intros Hf. induction p as [|i p IH]; intros ws; [reflexivity|].
  cbn [update]. apply list_eq. intros j.
  rewrite !list_lookup_fmap. destruct (decide (i = j)) as [<-|Hne].
  - rewrite list_lookup_alter_eq. destruct (ws !! i) as [[cls cs]|]; [|reflexivity].
    cbn. f_equal. destruct p as [|k p].
    + cbn. rewrite Hf. reflexivity.
    + cbn [class_of children skeleton]. rewrite IH. reflexivity.
  - rewrite list_lookup_alter_ne by exact Hne. reflexivity.
Qed.

Lemma tag_set_menuBar (f : list QMenu -> list QMenu) (cls : QClass) :
  tag (set_menuBar f cls) = tag cls.
Proof. destruct cls; reflexivity. Qed.

Lemma tag_set_console (f : ConsoleEdit -> ConsoleEdit) (cls : QClass) :
  (forall ce, thread (f ce) = thread ce) ->
  tag (set_console f cls) = tag cls.
Proof. intros Hf. destruct cls; cbn; [reflexivity..|]. rewrite Hf. reflexivity. Qed.

Lemma cast_found_sim (r r' : option (ptr * QObject)) :
  option_Forall2 (fun r r' => fst r = fst r' /\ skeleton (snd r) = skeleton (snd r'))
    r r' ->
  self <$> cast_found r = self <$> cast_found r'.
Proof.
  intros [[p o] [p' o'] [Hp Ho]|]; [|reflexivity].
  cbn [fst snd] in Hp, Ho. subst p'.
  apply skeleton_inv in Ho as [Ht _].
  unfold cast_found, as_ConsoleEdit.
  destruct (class_of o), (class_of o'); try discriminate; reflexivity.
Qed.

(** Where the console of a thread is depends on the skeleton only. *)
Lemma console_by_thread_frame (thid : Z) (W W' : World) :
  map skeleton (topLevelWidgets W') = map skeleton (topLevelWidgets W) ->
  self <$> console_by_thread thid W' = self <$> console_by_thread thid W.
Proof.
  intros H. unfold console_by_thread. apply cast_found_sim.
  unfold search_widget. apply search_from_sim.
  - intros a b Hab. apply skeleton_inv in Hab as [Ht _].
    unfold as_ConsoleEdit, match_thread.
    destruct (class_of a), (class_of b); try discriminate; try reflexivity.
    cbn in Ht. injection Ht as ->. reflexivity.
  - apply map_skeleton_Forall2. exact H.
Qed.

(** ** The queue of the GUI thread *)

Lemma posted_run (f : closure) (W : World) : posted (run f W) = posted W.
Proof.
  destruct f; cbn [run].
  - destruct (parent_main_window W ce) as [[mw mbar]|]; [|reflexivity].
    destruct (insert_menu Label Before mbar); reflexivity.
  - destruct (parent_main_window W ce) as [[mw mbar]|]; reflexivity.
  - reflexivity.
  - destruct (deref (topLevelWidgets W) c ≫= as_ConsoleEdit) as [[w ce]|]; reflexivity.
  - reflexivity.
Qed.

Lemma skeleton_run (f : closure) (W : World) :
  map skeleton (topLevelWidgets (run f W)) = map skeleton (topLevelWidgets W).
Proof.
  destruct f; cbn [run].
  - destruct (parent_main_window W ce) as [[mw mbar]|]; [|reflexivity].
    destruct (insert_menu Label Before mbar); [|reflexivity].
    apply skeleton_update, tag_set_menuBar.
  - destruct (parent_main_window W ce) as [[mw mbar]|]; [|reflexivity].
    apply skeleton_update, tag_set_menuBar.
  - reflexivity.
  - destruct (deref (topLevelWidgets W) c ≫= as_ConsoleEdit) as [[w ce]|]; reflexivity.
  - apply skeleton_update. intros cls. apply tag_set_console. reflexivity.
Qed.

Lemma skeleton_fold_run (q : list closure) : forall (W : World),
  map skeleton (topLevelWidgets (fold_left (fun W' f => run f W') q W)) =
  map skeleton (topLevelWidgets W).
Proof.
  induction q as [|f q IH]; intros W; [reflexivity|].
  cbn [fold_left]. rewrite IH. apply skeleton_run.
Qed.

Lemma posted_fold_run (q : list closure) : forall (W : World),
  posted (fold_left (fun W' f => run f W') q W) = posted W.
Proof.
  induction q as [|f q IH]; intros W; [reflexivity|].
  cbn [fold_left]. rewrite IH. apply posted_run.
Qed.

Lemma skeleton_processEvents (W : World) :
  map skeleton (topLevelWidgets (processEvents W)) = map skeleton (topLevelWidgets W).
Proof. unfold processEvents. rewrite skeleton_fold_run. reflexivity. Qed.

Lemma posted_processEvents (W : World) : posted (processEvents W) = [].
Proof. unfold processEvents. rewrite posted_fold_run. reflexivity. Qed.

(** A closure posted last runs last. *)
Lemma processEvents_exec_func (f : closure) (W : World) :
  processEvents (exec_func f W) = run f (processEvents W).
Proof.
  unfold processEvents, exec_func. cbn [posted with_posted].
  rewrite fold_left_app. reflexivity.
Qed.

(** With nothing posted, the GUI thread has nothing to do. *)
Lemma processEvents_idle (W : World) : posted W = [] -> processEvents W = W.
Proof.
  intros H. unfold processEvents. rewrite H. destruct W; cbn in *. subst. reflexivity.
Qed.

(** ** win_insert_menu *)

Lemma existsb_title_count (Label : string) (mbar : list QMenu) :
  existsb (fun ac => String.eqb (title ac) Label) mbar = false <->
  count_menus Label mbar = 0%nat.
Proof.
  unfold count_menus. induction mbar as [|ac mbar IH]; [split; reflexivity|].
  cbn [existsb]. rewrite filter_cons.
  destruct (String.eqb_spec (title ac) Label) as [He|Hne].
  - rewrite decide_True by exact He. cbn. split; discriminate.
  - rewrite decide_False by exact Hne. cbn. exact IH.
Qed.

Lemma list_find_title_existsb (Before : string) (mbar : list QMenu) :
  list_find (fun ac => title ac = Before) mbar = None <->
  existsb (fun ac => String.eqb (title ac) Before) mbar = false.
Proof.
  induction mbar as [|ac mbar IH]; [split; reflexivity|].
  cbn [list_find existsb].
  destruct (String.eqb_spec (title ac) Before) as [He|Hne].
  - rewrite decide_True by exact He. cbn. split; discriminate.
  - rewrite decide_False by exact Hne. cbn. rewrite fmap_None. exact IH.
Qed.

Lemma count_menus_app (Label : string) (l1 l2 : list QMenu) :
  count_menus Label (l1 ++ l2) = (count_menus Label l1 + count_menus Label l2)%nat.
Proof. unfold count_menus. rewrite filter_app, length_app. reflexivity. Qed.

Lemma count_menus_insert_before (Label : string) (i : nat) (mbar : list QMenu) :
  count_menus Label (insert_before i (new_QMenu Label) mbar) =
  S (count_menus Label mbar).
Proof.
  unfold insert_before. rewrite count_menus_app.
  rewrite <- (take_drop i mbar) at 3. rewrite count_menus_app.
  unfold count_menus at 2. rewrite filter_cons, decide_True by reflexivity.
  cbn [length]. fold (count_menus Label (drop i mbar)). lia.
Qed.

(** What the lambda of [win_insert_menu] makes of a menu bar. *)
Lemma insert_menu_cases (Label Before : string) (mbar : list QMenu) :
  if existsb (fun ac => String.eqb (title ac) Label) mbar
  then insert_menu Label Before mbar = Some mbar
  else if String.eqb Before "-"
          || existsb (fun ac => String.eqb (title ac) Before) mbar
       then exists mbar', insert_menu Label Before mbar = Some mbar' /\
                          count_menus Label mbar' = 1%nat
       else insert_menu Label Before mbar = None.
Proof.
  unfold insert_menu.
  destruct (existsb (fun ac => String.eqb (title ac) Label) mbar) eqn:HL;
    [reflexivity|].
  apply existsb_title_count in HL.
  destruct (list_find (fun ac => title ac = Before) mbar) as [[i ac]|] eqn:HB.
  - assert (existsb (fun ac => String.eqb (title ac) Before) mbar = true) as ->.
    { destruct (existsb _ mbar) eqn:E; [reflexivity|].
      apply list_find_title_existsb in E. congruence. }
    rewrite orb_true_r. eexists. split; [reflexivity|].
    rewrite count_menus_insert_before, HL. reflexivity.
  - apply list_find_title_existsb in HB. rewrite HB, orb_false_r.
    destruct (String.eqb Before "-"); [|reflexivity].
    eexists. split; [reflexivity|].
    rewrite count_menus_app, HL. unfold count_menus.
    rewrite filter_cons, decide_True by reflexivity. reflexivity.
Qed.

(** Once the label is in the menu bar, the lambda leaves the bar alone. *)
Lemma insert_menu_again (Label Before : string) (mbar mbar' : list QMenu) :
  insert_menu Label Before mbar = Some mbar' ->
  insert_menu Label Before mbar' = Some mbar'.
Proof.
  intros H. pose proof (insert_menu_cases Label Before mbar) as Hc.
  destruct (existsb (fun ac => String.eqb (title ac) Label) mbar) eqn:HL.
  - rewrite Hc in H. injection H as <-. exact Hc.
  - destruct (_ || _); [|congruence].
    destruct Hc as (m & Hm & Hcount). rewrite Hm in H. injection H as <-.
    unfold insert_menu.
    destruct (existsb (fun ac => String.eqb (title ac) Label) m) eqn:E;
      [reflexivity|].
    apply existsb_title_count in E. congruence.
Qed.

Lemma parent_main_window_set_menuBar (W : World) (ce mw : ptr)
    (mbar mbar' : list QMenu) :
  parent_main_window W ce = Some (mw, mbar) ->
  parent_main_window (set_menuBar_at W mw mbar') ce = Some (mw, mbar').
Proof.
  unfold parent_main_window, parentWidget, set_menuBar_at.
  cbn [topLevelWidgets with_widgets].
  destruct (deref (topLevelWidgets W) (removelast ce)) as [o|] eqn:Hd;
    [|discriminate].
  destruct (isWidgetType o) eqn:Hw; [|discriminate].
  destruct o as [cls cs]. unfold as_QMainWindow. cbn [class_of].
  destruct cls; try discriminate. intros [= <- <-].
  rewrite (deref_update _ _ _ _ Hd). reflexivity.
Qed.

(** Running the lambda of [win_insert_menu] a second time changes no
    widget. *)
Lemma run_win_insert_menu_twice (ce : ptr) (Label Before : string) (W : World) :
  topLevelWidgets
    (run (lambda_win_insert_menu ce Label Before)
       (run (lambda_win_insert_menu ce Label Before) W)) =
  topLevelWidgets (run (lambda_win_insert_menu ce Label Before) W).
Proof.
  cbn [run].
  destruct (parent_main_window W ce) as [[mw mbar]|] eqn:Hp.
  - destruct (insert_menu Label Before mbar) as [mbar'|] eqn:Hi.
    + rewrite (parent_main_window_set_menuBar W ce mw mbar mbar' Hp).
      rewrite (insert_menu_again _ _ _ _ Hi).
      unfold set_menuBar_at. cbn [topLevelWidgets with_widgets].
      rewrite update_update. apply update_ext. intros []; reflexivity.
    + change (parent_main_window (with_qDebug W _) ce)
        with (parent_main_window W ce).
      rewrite Hp, Hi. reflexivity.
  - change (parent_main_window (with_qDebug W _) ce)
      with (parent_main_window W ce).
    rewrite Hp. reflexivity.
Qed.

Lemma fmap_self_eq (x : option console_ref) (c : console_ref) :
  self <$> x = self <$> Some c -> exists c', x = Some c' /\ self c' = self c.
Proof. destruct x as [c'|]; [|discriminate]. intros [= H]. eauto. Qed.

Lemma win_insert_menu_found (thid : Z) (Label Before : string) (W : World)
    (c : console_ref) :
  console_by_thread thid W = Some c ->
  win_insert_menu thid Label Before W =
  (TRUE (), exec_func (lambda_win_insert_menu (self c) Label Before) W).
Proof. intros H. unfold win_insert_menu. rewrite H. reflexivity. Qed.

Lemma win_insert_menu_none (thid : Z) (Label Before : string) (W : World) :
  console_by_thread thid W = None ->
  win_insert_menu thid Label Before W = (FALSE, W).
Proof. intros H. unfold win_insert_menu. rewrite H. reflexivity. Qed.

(** C4, as the code has it.  Once a call [win_insert_menu(L, Before)] has
    taken effect, a second one changes no widget, whether the GUI thread
    runs between the two calls or after both.  If a menu labelled [L] is
    there already, the menu bar stays as it is; otherwise there is exactly
    one such menu afterwards when [Before] is "-" or the label of a menu,
    and none when it is neither. *)
Theorem C4_win_insert_menu_twice (thid : Z) (Label Before : string) (W : World) :
  let once := processEvents (snd (win_insert_menu thid Label Before W)) in
  topLevelWidgets (processEvents (snd (win_insert_menu thid Label Before once))) =
    topLevelWidgets once /\
  topLevelWidgets
    (processEvents
       (snd (win_insert_menu thid Label Before
               (snd (win_insert_menu thid Label Before W))))) =
    topLevelWidgets once /\
  forall c mw mbar,
    console_by_thread thid W = Some c ->
    parent_main_window (processEvents W) (self c) = Some (mw, mbar) ->
    exists mbar',
      parent_main_window once (self c) = Some (mw, mbar') /\
      if existsb (fun ac => String.eqb (title ac) Label) mbar then mbar' = mbar
      else count_menus Label mbar' =
           if String.eqb Before "-"
              || existsb (fun ac => String.eqb (title ac) Before) mbar
           then 1%nat else 0%nat.
Proof.
  cbn zeta. destruct (console_by_thread thid W) as [c|] eqn:Hc.
  - rewrite !(win_insert_menu_found thid Label Before W c Hc). cbn [snd].
    rewrite processEvents_exec_func.
    set (f := lambda_win_insert_menu (self c) Label Before).
    set (W0 := processEvents W).
    assert (Hposted : posted (run f W0) = []).
    { rewrite posted_run. apply posted_processEvents. }
    assert (Hframe : exists c', console_by_thread thid (run f W0) = Some c' /\
                                self c' = self c).
    { apply fmap_self_eq. rewrite <- Hc. apply console_by_thread_frame.
      rewrite skeleton_run. apply skeleton_processEvents. }
    destruct Hframe as (c' & Hc' & Hself).
    split; [|split].
    + rewrite (win_insert_menu_found thid Label Before _ c' Hc'). cbn [snd].
      rewrite Hself. fold f.
      rewrite processEvents_exec_func, (processEvents_idle _ Hposted).
      apply run_win_insert_menu_twice.
    + rewrite (win_insert_menu_found thid Label Before (exec_func f W) c Hc).
      cbn [snd]. fold f. rewrite !processEvents_exec_func. fold W0.
      apply run_win_insert_menu_twice.
    + intros c0 mw mbar [= <-] Hp. subst f. cbn [run]. rewrite Hp.
      pose proof (insert_menu_cases Label Before mbar) as Hcases.
      destruct (existsb (fun ac => String.eqb (title ac) Label) mbar) eqn:HL.
      * rewrite Hcases. exists mbar. split; [|reflexivity].
        apply (parent_main_window_set_menuBar W0 _ mw mbar mbar Hp).
      * destruct (String.eqb Before "-"
                  || existsb (fun ac => String.eqb (title ac) Before) mbar).
        -- destruct Hcases as (mbar' & -> & Hcount). exists mbar'.
           split; [|exact Hcount].
           apply (parent_main_window_set_menuBar W0 _ mw mbar mbar' Hp).
        -- rewrite Hcases. exists mbar. split; [exact Hp|].
           apply existsb_title_count. exact HL.
  - rewrite !(win_insert_menu_none thid Label Before W Hc). cbn [snd].
    assert (Hnone : console_by_thread thid (processEvents W) = None).
    { pose proof (console_by_thread_frame thid W (processEvents W)
                    (skeleton_processEvents W)) as H.
      rewrite Hc in H. destruct (console_by_thread thid (processEvents W));
        [discriminate|reflexivity]. }
    split; [|split].
    + rewrite (win_insert_menu_none thid Label Before _ Hnone). cbn [snd].
      rewrite (processEvents_idle _ (posted_processEvents W)). reflexivity.
    + rewrite (win_insert_menu_none thid Label Before W Hc). reflexivity.
    + intros c0 mw mbar [=].
Qed.

(** A menu bar with File; [win_insert_menu('Tools', '-')] adds Tools once. *)
Lemma C4_win_insert_menu_twice_witness :
  exists mbar',
    parent_main_window
      (processEvents
         (snd (win_insert_menu 1 "Tools" "-" (demo_world [new_QMenu "File"]))))
      [0; 1]%nat = Some ([0%nat], mbar') /\
    count_menus "Tools" mbar' = 1%nat.
Proof.
  destruct (C4_win_insert_menu_twice 1 "Tools" "-" (demo_world [new_QMenu "File"]))
    as (_ & _ & H).
  destruct (H {| self := [0; 1]%nat; widget := demo_console_widget;
                 console := demo_console |} [0%nat] [new_QMenu "File"]
              eq_refl eq_refl) as (mbar' & Hp & Hcount).
  exists mbar'. split; [exact Hp | exact Hcount].
Defined.

(** C4, as stated, fails: with a menu bar that has File only, two calls
    [win_insert_menu('Tools', 'Help')] succeed and leave no menu Tools. *)
Lemma C4_no_menu_after_two_calls :
  let W := demo_world [new_QMenu "File"] in
  let W1 := processEvents (snd (win_insert_menu 1 "Tools" "Help" W)) in
  let W2 := processEvents (snd (win_insert_menu 1 "Tools" "Help" W1)) in
  fst (win_insert_menu 1 "Tools" "Help" W) = TRUE () /\
  fst (win_insert_menu 1 "Tools" "Help" W1) = TRUE () /\
  parent_main_window W2 [0; 1]%nat = Some ([0%nat], [new_QMenu "File"]) /\
  count_menus "Tools" [new_QMenu "File"] = 0%nat.
Proof. vm_compute. repeat split. Qed.

(** ** win_insert_menu_item *)

Lemma insert_menu_item_in_rebinds (ce : ptr) (Label Before Goal ctxtmod : string)
    (mn : list QAction) (j : nat) (bc : QAction) :
  Label <> "--" ->
  list_find (fun bc => text bc = Label) mn = Some (j, bc) ->
  insert_menu_item_in ce Label Before Goal ctxtmod mn =
  (<[j := setToolTip bc Goal]> mn, true).
Proof.
  intros HL Hfind. unfold insert_menu_item_in.
  destruct (String.eqb_spec Label "--"); [contradiction|].
  cbn [negb]. rewrite Hfind. reflexivity.
Qed.

(** When the body returns in the first menu of that title, that menu is the
    only one touched. *)
Lemma insert_menu_item_first (ce : ptr) (Pulldown Label Before Goal ctxtmod : string)
    (mbar : list QMenu) :
  forall (i : nat) (ac : QMenu) (mn : list QAction),
  list_find (fun ac => title ac = Pulldown) mbar = Some (i, ac) ->
  insert_menu_item_in ce Label Before Goal ctxtmod (actions ac) = (mn, true) ->
  insert_menu_item ce Pulldown Label Before Goal ctxtmod mbar =
  <[i := {| title := title ac; actions := mn |}]> mbar.
Proof.
  induction mbar as [|a mbar IH]; intros i ac mn Hfind Hin; [discriminate|].
  cbn [list_find] in Hfind. cbn [insert_menu_item].
  destruct (String.eqb_spec (title a) Pulldown) as [He|Hne].
  - rewrite decide_True in Hfind by exact He. injection Hfind as <- <-.
    rewrite Hin. reflexivity.
  - rewrite decide_False in Hfind by exact Hne.
    destruct (list_find _ mbar) as [[i' ac']|] eqn:Hf; [|discriminate].
    cbn in Hfind. injection Hfind as <- <-.
    cbn [insert list_insert]. f_equal. apply (IH i' ac' mn eq_refl Hin).
Qed.

Lemma win_insert_menu_item_found (thid : Z) (Pulldown Label Before Goal : string)
    (W : World) (c : console_ref) :
  console_by_thread thid W = Some c ->
  win_insert_menu_item thid Pulldown Label Before Goal W =
  (TRUE (),
   exec_func
     (lambda_win_insert_menu_item (self c) Pulldown Label Before Goal "win_menu") W).
Proof. intros H. unfold win_insert_menu_item. rewrite H. reflexivity. Qed.




(** ** win_window_pos *)

Lemma is_long_PlTerm_long (t : PlTerm) :
  is_long t = true -> exists z, t = PL_INTEGER z /\ PlTerm_long t = Ok z.
Proof.
  destruct t as [|z| | | |]; try discriminate. cbn [is_long PlTerm_long].
  intros ->. exists z. split; reflexivity.
Qed.

Lemma well_typed_known (opt : PlTerm) :
  well_typed_option opt = true -> known_option opt = true.
Proof.
  unfold well_typed_option, known_option.
  destruct (name_arity opt) as [[f n]|]; [|discriminate].
  destruct (n =? 2)%nat, (n =? 1)%nat, (n =? 0)%nat,
    (String.eqb f "size"), (String.eqb f "position"), (String.eqb f "show"),
    (String.eqb f "zorder"), (String.eqb f "activate"); cbn; congruence.
Qed.

(** A well-typed option changes the window and lets the loop go on. *)
Lemma window_pos_option_well_typed (c : ConsoleEdit) (opt : PlTerm) (w : QWidget) :
  well_typed_option opt = true ->
  exists w', window_pos_option c opt w = Ok (Some w').
Proof.
  unfold well_typed_option, known_option, window_pos_option, PlTerm_arity, PlTerm_name.
  destruct (name_arity opt) as [[f n]|]; [|discriminate]. cbn [mbind result_bind].
  destruct ((n =? 2)%nat) eqn:H2; cbn [andb orb].
  - destruct (String.eqb f "size") eqn:Hs; cbn [orb].
    + intros [H1 H3]%andb_true_iff.
      apply is_long_PlTerm_long in H1 as (z1 & _ & ->).
      apply is_long_PlTerm_long in H3 as (z2 & _ & ->).
      cbn. eauto.
    + destruct (String.eqb f "position") eqn:Hp.
      * intros [H1 H3]%andb_true_iff.
        apply is_long_PlTerm_long in H1 as (z1 & _ & ->).
        apply is_long_PlTerm_long in H3 as (z2 & _ & ->).
        cbn. eauto.
      * destruct ((n =? 1)%nat) eqn:H1; [apply Nat.eqb_eq in H2, H1; lia|].
        destruct ((n =? 0)%nat) eqn:H0; [apply Nat.eqb_eq in H2, H0; lia|].
        cbn. discriminate.
  - destruct ((n =? 1)%nat) eqn:H1; cbn [andb orb].
    + destruct (String.eqb f "zorder") eqn:Hz; [eauto|].
      destruct (String.eqb f "show") eqn:Hsh.
      * destruct (name_arity (PlTerm_arg opt 1)) as [[g m]|]; [|discriminate].
        cbn. eauto.
      * destruct ((n =? 0)%nat) eqn:H0; [apply Nat.eqb_eq in H1, H0; lia|].
        cbn. discriminate.
    + destruct ((n =? 0)%nat) eqn:H0; cbn [andb orb]; [|discriminate].
      destruct (String.eqb f "activate"); [eauto|discriminate].
Qed.

(** An unknown option ends the loop with [FALSE]. *)
Lemma window_pos_option_unknown (c : ConsoleEdit) (opt : PlTerm) (w : QWidget) :
  unknown_option opt = true -> window_pos_option c opt w = Ok None.
Proof.
  unfold unknown_option, known_option, window_pos_option, PlTerm_arity, PlTerm_name.
  destruct (name_arity opt) as [[f n]|]; [|discriminate]. cbn [mbind result_bind].
  destruct ((n =? 2)%nat && String.eqb f "size"); [discriminate|].
  destruct ((n =? 2)%nat && String.eqb f "position"); [discriminate|].
  destruct ((n =? 1)%nat && String.eqb f "zorder"); [discriminate|].
  destruct ((n =? 1)%nat && String.eqb f "show"); [discriminate|].
  destruct ((n =? 0)%nat && String.eqb f "activate"); [discriminate|].
  reflexivity.
Qed.

Lemma window_pos_loop_well_typed (c : ConsoleEdit) (options : list PlTerm) :
  Forall (fun opt => well_typed_option opt = true) options ->
  forall w, exists w', window_pos_loop c options w = (TRUE (), w').
Proof.
  induction 1 as [|opt options Hopt _ IH]; intros w; [eexists; reflexivity|].
  cbn [window_pos_loop].
  destruct (window_pos_option_well_typed c opt w Hopt) as (w1 & ->).
  apply IH.
Qed.

(** The loop over well-typed options followed by an unknown one: the
    options before it are applied, then the loop ends with [FALSE]. *)
Lemma window_pos_loop_unknown (c : ConsoleEdit) (pre : list PlTerm) (u : PlTerm)
    (post : list PlTerm) :
  Forall (fun opt => well_typed_option opt = true) pre ->
  unknown_option u = true ->
  forall w, exists w',
    window_pos_loop c pre w = (TRUE (), w') /\
    window_pos_loop c (pre ++ u :: post) w = (FALSE, w').
Proof.
  intros Hpre Hu. induction Hpre as [|opt pre Hopt _ IH]; intros w.
  - exists w. split; [reflexivity|]. cbn [app window_pos_loop].
    rewrite (window_pos_option_unknown c u w Hu). reflexivity.
  - cbn [app window_pos_loop].
    destruct (window_pos_option_well_typed c opt w Hopt) as (w1 & ->).
    apply IH.
Qed.

Lemma parentWidget_is_widget (ws : list QObject) (p w : ptr) (o : QObject) :
  parentWidget ws p = Some (w, o) ->
  deref ws w = Some o /\ exists wd, widget_of (class_of o) = Some wd.
Proof.
  unfold parentWidget.
  destruct (deref ws (removelast p)) as [o'|] eqn:Hd; [|discriminate].
  destruct (isWidgetType o') eqn:Hw; [|discriminate].
  intros [= <- <-]. split; [exact Hd|].
  unfold isWidgetType in Hw. destruct (class_of o'); [discriminate|eauto..].
Qed.

Lemma widget_of_set_widget (f : QWidget -> QWidget) (cls : QClass) (wd : QWidget) :
  widget_of cls = Some wd -> widget_of (set_widget f cls) = Some (f wd).
Proof. destruct cls; cbn; congruence. Qed.

Lemma win_window_pos_found (thid : Z) (Options : list PlTerm) (W : World)
    (c : console_ref) (w : ptr) (o : QObject) (wd : QWidget) :
  console_by_thread thid W = Some c ->
  parentWidget (topLevelWidgets W) (self c) = Some (w, o) ->
  widget_of (class_of o) = Some wd ->
  win_window_pos thid Options W =
  (fst (window_pos_loop (console c) Options wd),
   set_widget_at W w (fun _ => snd (window_pos_loop (console c) Options wd))).
Proof.
  intros Hc Hp Hw. unfold win_window_pos. rewrite Hc, Hp, Hw.
  destruct (window_pos_loop (console c) Options wd). reflexivity.
Qed.

Lemma window_pos_loop_app (c : ConsoleEdit) (l1 l2 : list PlTerm) :
  forall w w2,
  window_pos_loop c (l1 ++ l2) w = (TRUE (), w2) ->
  exists w1, window_pos_loop c l1 w = (TRUE (), w1) /\
             window_pos_loop c l2 w1 = (TRUE (), w2).
Proof.
  induction l1 as [|opt l1 IH]; intros w w2 H.
  - exists w. split; [reflexivity | exact H].
  - cbn [app window_pos_loop] in *.
    destruct (window_pos_option c opt w) as [[w'|]|e|why]; try discriminate.
    apply IH. exact H.
Qed.

(** C7, as the code has it.  For a console that has a parent widget: when
    every option is one of the five and its arguments convert, the call
    succeeds; when an atom or compound term that is none of the five comes
    after options that all are well typed, the call fails. *)
Theorem C7_known_options_succeed (thid : Z) (Options : list PlTerm) (W : World)
    (c : console_ref) (w : ptr) (o : QObject) :
  console_by_thread thid W = Some c ->
  parentWidget (topLevelWidgets W) (self c) = Some (w, o) ->
  (Forall (fun opt => well_typed_option opt = true) Options ->
   fst (win_window_pos thid Options W) = TRUE ()) /\
  (forall pre u post,
     Options = pre ++ u :: post ->
     Forall (fun opt => well_typed_option opt = true) pre ->
     unknown_option u = true ->
     fst (win_window_pos thid Options W) = FALSE).
Proof.
  intros Hc Hp. destruct (parentWidget_is_widget _ _ _ _ Hp) as (_ & wd & Hw).
  rewrite (win_window_pos_found thid Options W c w o wd Hc Hp Hw). cbn [fst].
  split.
  - intros Hall.
    destruct (window_pos_loop_well_typed (console c) Options Hall wd) as (w' & ->).
    reflexivity.
  - intros pre u post -> Hpre Hu.
    destruct (window_pos_loop_unknown (console c) pre u post Hpre Hu wd)
      as (w' & _ & ->).
    reflexivity.
Qed.

Lemma C7_known_options_succeed_witness :
  fst (win_window_pos 1
         [ PL_TERM "size" [PL_INTEGER 80; PL_INTEGER 25];
           PL_TERM "show" [PL_ATOM "true"]; PL_ATOM "activate" ]
         (demo_world [])) = TRUE ().
Proof.
  apply (C7_known_options_succeed 1 _ (demo_world [])
           {| self := [0; 1]%nat; widget := demo_console_widget;
              console := demo_console |}
           [0%nat]
           (Object (Class_QMainWindow demo_window [])
              [ Object Class_QObject [];
                Object (Class_ConsoleEdit demo_console_widget demo_console) [] ])
           eq_refl eq_refl).
  repeat constructor.
Defined.

(** C7, as stated, fails: [size(a, b)] matches a known option in name and
    arity, and the call throws a type error; and with a console that is
    its own window, the call with no option at all fails. *)
Lemma C7_known_option_raises :
  known_option (PL_TERM "size" [PL_ATOM "a"; PL_ATOM "b"]) = true /\
  fst (win_window_pos 1 [PL_TERM "size" [PL_ATOM "a"; PL_ATOM "b"]]
         (demo_world [])) = Throw (PlTypeError "integer" (PL_ATOM "a")) /\
  fst (win_window_pos 1 [] bare_console_world) = FALSE.
Proof. repeat split. Qed.

(** C10, as the code has it.  For a console that has a parent widget, and
    options that are well typed up to the first unknown one: the call
    fails, and leaves the world as the call with only the options before
    the unknown one, which succeeds, leaves it.  Those options are applied
    from left to right: what a first part of them makes of the window is
    what the rest starts from. *)
Theorem C10_applied_options_stay (thid : Z) (W : World) (c : console_ref)
    (w : ptr) (o : QObject) (pre : list PlTerm) (u : PlTerm) (post : list PlTerm) :
  console_by_thread thid W = Some c ->
  parentWidget (topLevelWidgets W) (self c) = Some (w, o) ->
  Forall (fun opt => well_typed_option opt = true) pre ->
  unknown_option u = true ->
  exists wd wd',
    widget_of (class_of o) = Some wd /\
    window_pos_loop (console c) pre wd = (TRUE (), wd') /\
    win_window_pos thid (pre ++ u :: post) W =
      (FALSE, set_widget_at W w (fun _ => wd')) /\
    win_window_pos thid pre W = (TRUE (), set_widget_at W w (fun _ => wd')) /\
    deref (topLevelWidgets (snd (win_window_pos thid (pre ++ u :: post) W))) w
      ≫= (widget_of ∘ class_of) = Some wd' /\
    forall l1 l2, pre = l1 ++ l2 ->
      exists w1, window_pos_loop (console c) l1 wd = (TRUE (), w1) /\
                 window_pos_loop (console c) l2 w1 = (TRUE (), wd').
Proof.
  intros Hc Hp Hpre Hu.
  destruct (parentWidget_is_widget _ _ _ _ Hp) as (Hd & wd & Hw).
  destruct (window_pos_loop_unknown (console c) pre u post Hpre Hu wd)
    as (wd' & Hloop & Hfail).
  exists wd, wd'. split; [exact Hw|]. split; [exact Hloop|].
  rewrite (win_window_pos_found thid (pre ++ u :: post) W c w o wd Hc Hp Hw).
  rewrite (win_window_pos_found thid pre W c w o wd Hc Hp Hw).
  rewrite Hfail, Hloop. cbn [fst snd].
  split; [reflexivity|]. split; [reflexivity|]. split.
  - unfold set_widget_at. cbn [topLevelWidgets with_widgets].
    rewrite (deref_update _ _ _ _ Hd). cbn [mbind option_bind compose class_of].
    exact (widget_of_set_widget (fun _ => wd') (class_of o) wd Hw).
  - intros l1 l2 ->. apply window_pos_loop_app. exact Hloop.
Qed.

(** [win_window_pos([show(false), position(10, 20), raise])]: the window is
    hidden and moved, and the call fails. *)
Lemma C10_applied_options_stay_witness :
  win_window_pos 1
    [ PL_TERM "show" [PL_ATOM "false"];
      PL_TERM "position" [PL_INTEGER 10; PL_INTEGER 20]; PL_ATOM "raise" ]
    (demo_world []) =
  (FALSE,
   set_widget_at (demo_world []) [0%nat]
     (fun _ => {| windowTitle := "pqConsole"; pos := (10, 20);
                  size := {| width := 640; height := 480 |};
                  isVisible := false; isActiveWindow := false |})).
Proof.
  destruct (C10_applied_options_stay 1 (demo_world [])
              {| self := [0; 1]%nat; widget := demo_console_widget;
                 console := demo_console |}
              [0%nat]
              (Object (Class_QMainWindow demo_window [])
                 [ Object Class_QObject [];
                   Object (Class_ConsoleEdit demo_console_widget demo_console) [] ])
              [ PL_TERM "show" [PL_ATOM "false"];
                PL_TERM "position" [PL_INTEGER 10; PL_INTEGER 20] ]
              (PL_ATOM "raise") []
              eq_refl eq_refl ltac:(repeat constructor) eq_refl)
    as (wd & wd' & Hwd & Hloop & Hfail & _).
  injection Hwd as <-. injection Hloop as <-. exact Hfail.
Defined.

(** C10, as stated, fails: in [activate, position(10, top), raise] the
    first unknown option is the third, and the call does not fail but
    throws at the second, with the window activated.  And with a console
    that is its own window, [activate, raise] fails with nothing applied. *)
Lemma C10_type_error_before_unknown :
  let Options :=
    [ PL_ATOM "activate";
      PL_TERM "position" [PL_INTEGER 10; PL_ATOM "top"]; PL_ATOM "raise" ] in
  map known_option Options = [true; true; false] /\
  map unknown_option Options = [false; false; true] /\
  win_window_pos 1 Options (demo_world []) =
  (Throw (PlTypeError "integer" (PL_ATOM "top")),
   set_widget_at (demo_world []) [0%nat] (fun _ => activateWindow demo_window)) /\
  win_window_pos 1 [PL_ATOM "activate"; PL_ATOM "raise"] bare_console_world =
  (FALSE, bare_console_world).
Proof. repeat split. Qed.

(** ** console_settings *)

Lemma set_console_at_same (W : World) (c : console_ref) (cs : list QObject) :
  deref (topLevelWidgets W) (self c) =
    Some (Object (Class_ConsoleEdit (widget c) (console c)) cs) ->
  set_console_at W (self c) (fun _ => console c) = W.
Proof.
  intros Hd. unfold set_console_at. rewrite update_same.
  - destruct W; reflexivity.
  - intros o Ho. rewrite Hd in Ho. injection Ho as <-. reflexivity.
Qed.

(** The exception of [unify] reaches the caller of [console_settings], and
    the world is as it was, when the first option is the mismatch. *)
Lemma console_settings_kind_mismatch (debug : bool)
    (metaObject : list (QMetaProperty ConsoleEdit)) (thid : Z) (W : World)
    (c : console_ref) (n : string) (v : PlTerm) (rest : list PlTerm)
    (pid : nat) (p : QMetaProperty ConsoleEdit) :
  console_by_thread thid W = Some c ->
  indexOfProperty metaObject n = Some (pid, p) ->
  spec_kinds_agree v p = false ->
  Q_ASSERT_not_flag debug p = true ->
  console_settings debug metaObject thid (PL_TERM n [v] :: rest) W =
  (Throw property_type_mismatch, W).
Proof.
  intros Hc Hp Hk Ha. unfold console_settings. rewrite Hc.
  cbn [console_settings_loop PlTerm_arity PlTerm_name name_arity length].
  change (PlTerm_arg (PL_TERM n [v]) 1) with v. rewrite Hp.
  destruct (unify_mismatch debug p (console c) v Hk) as (Hs & _ & Ht).
  specialize (Ht Ha).
  destruct (unify debug p (console c) v) as [r ce]. cbn [fst snd] in Hs, Ht.
  subst. cbn [mbind result_bind].
  destruct (console_by_thread_Some thid W c Hc) as (_ & cs & Hd).
  rewrite (set_console_at_same W c cs Hd). reflexivity.
Qed.

Example console_settings_readOnly :
  console_settings true ConsoleEdit_metaObject 1
    [PL_TERM "readOnly" [PL_ATOM "true"]] (demo_world []) =
  (Throw property_type_mismatch, demo_world []).
Proof. reflexivity. Qed.

Example console_settings_read_and_write :
  fst (console_settings true ConsoleEdit_metaObject 1
         [ PL_TERM "lineWrapMode" [PL_VARIABLE];
           PL_TERM "updateRefreshRate" [PL_INTEGER 50];
           PL_TERM "updateRefreshRate" [PL_VARIABLE] ] (demo_world [])) =
  TRUE [ PL_TERM "lineWrapMode" [PL_ATOM "WidgetWidth"];
         PL_TERM "updateRefreshRate" [PL_INTEGER 50];
         PL_TERM "updateRefreshRate" [PL_INTEGER 50] ].
Proof. reflexivity. Qed.

(** ** Calls without a console *)

(** C1, as the code has it.  The sixteen predicates that ask for the
    console of the calling thread get a console of that thread, and when
    there is none they fail, [FALSE], and leave the world as it is.
    [win_open_console] takes the first console of any thread, and throws
    "no ConsoleEdit available" when there is no console at all. *)
Theorem C1_no_console (thid : Z) (W : World) :
  (forall c, console_by_thread thid W = Some c ->
             match_thread (console c) thid = true) /\
  (console_by_thread thid W = None ->
   (forall New, window_title thid New W = (FALSE, W)) /\
   (forall Options, win_window_pos thid Options W = (FALSE, W)) /\
   win_has_menu thid W = (FALSE, W) /\
   (forall Label Before, win_insert_menu thid Label Before W = (FALSE, W)) /\
   (forall Pulldown Label Before Goal,
      win_insert_menu_item thid Pulldown Label Before Goal W = (FALSE, W)) /\
   tty_clear thid W = (FALSE, W) /\
   (forall line, rl_add_history thid line W = (FALSE, W)) /\
   rl_history thid W = (FALSE, W) /\
   tty_size thid W = (FALSE, W) /\
   (forall debug metaObject Options,
      console_settings debug metaObject thid Options W = (FALSE, W)) /\
   (forall dialog Caption A2 Pattern,
      getOpenFileName dialog thid Caption A2 Pattern W = (FALSE, W)) /\
   (forall dialog Caption A2 Pattern,
      getSaveFileName dialog thid Caption A2 Pattern W = (FALSE, W)) /\
   (forall getFont, select_font getFont thid W = (FALSE, W)) /\
   quit_console thid W = (FALSE, W) /\
   copy thid W = (FALSE, W) /\
   paste thid W = (FALSE, W)) /\
  (console_peek_first W = None ->
   forall Title In Out Err,
     win_open_console Title In Out Err W =
     (Throw no_ConsoleEdit_available, with_qDebug W ["win_open_console"])) /\
  (forall c, console_peek_first W = Some c ->
   forall Title In Out Err,
     fst (win_open_console Title In Out Err W) =
     if PL_unify_stream In && PL_unify_stream Out && PL_unify_stream Err
     then TRUE () else FALSE).
Proof.
  split; [|split; [|split]].
  - intros c Hc. apply (console_by_thread_Some thid W c Hc).
  - intros Hc.
    unfold window_title, win_window_pos, win_has_menu, win_insert_menu,
      win_insert_menu_item, tty_clear, rl_add_history, rl_history, tty_size,
      console_settings, getOpenFileName, getSaveFileName, select_font,
      quit_console, copy, paste.
    rewrite Hc. repeat split.
  - intros Hc Title In Out Err. unfold win_open_console.
    change (console_peek_first (with_qDebug W ["win_open_console"]))
      with (console_peek_first W).
    rewrite Hc. reflexivity.
  - intros c Hc Title In Out Err. unfold win_open_console.
    change (console_peek_first (with_qDebug W ["win_open_console"]))
      with (console_peek_first W).
    rewrite Hc. destruct (PL_unify_stream In && PL_unify_stream Out && PL_unify_stream Err);
      reflexivity.
Qed.

(** Thread 2 has no console in the example. *)
Lemma C1_no_console_witness :
  tty_size 2 (demo_world []) = (FALSE, demo_world []) /\
  copy 2 (demo_world []) = (FALSE, demo_world []) /\
  win_open_console "swipl" PL_VARIABLE PL_VARIABLE PL_VARIABLE no_windows =
    (Throw no_ConsoleEdit_available, with_qDebug no_windows ["win_open_console"]).
Proof.
  destruct (C1_no_console 2 (demo_world [])) as (_ & H & _).
  destruct (H eq_refl) as (_ & _ & _ & _ & _ & _ & _ & _ & Hsize & _ & _ & _ &
                           _ & _ & Hcopy & _).
  destruct (C1_no_console 2 no_windows) as (_ & _ & Hopen & _).
  split; [exact Hsize|]. split; [exact Hcopy|].
  exact (Hopen eq_refl "swipl" PL_VARIABLE PL_VARIABLE PL_VARIABLE).
Defined.

(** C1, as stated, fails for [win_open_console]: with no console it throws
    instead of failing; and it does not ask for the calling thread: where
    thread 2 has no console, it succeeds on the console of thread 1. *)
Lemma C1_win_open_console_throws :
  fst (win_open_console "swipl" PL_VARIABLE PL_VARIABLE PL_VARIABLE no_windows) =
    Throw no_ConsoleEdit_available /\
  console_by_thread 2 (demo_world []) = None /\
  fst (win_open_console "swipl" PL_VARIABLE PL_VARIABLE PL_VARIABLE (demo_world [])) =
    TRUE ().
Proof. repeat split. Qed.

(** ** Fire and wait *)

Lemma reachable_front (init s1 s : threads) :
  step init s1 -> reachable s1 s -> reachable init s.
Proof.
  intros H Hr. induction Hr as [|s s' _ IH Hstep].
  - apply (reachable_step init init s1); [apply reachable_init | exact H].
  - apply (reachable_step init s s'); [exact IH | exact Hstep].
Qed.

(** A run by a schedule is a run. *)
Lemma schedule_reachable (schedule : list bool) :
  forall init s, run_schedule schedule init = Some s -> reachable init s.
Proof.
  induction schedule as [|who rest IH]; intros init s; cbn [run_schedule].
  - intros [= <-]. apply reachable_init.
  - destruct (if who then worker_step init else gui_step init) as [s1|] eqn:H1;
      [|discriminate].
    intros H. apply (reachable_front init s1 s); [|apply IH; exact H].
    destruct who; [left | right]; exact H1.
Qed.

(** Once signalled, the point stays signalled. *)
Lemma signalled_gui_exec (st : statement) (g : shared) :
  signalled g = true -> signalled (gui_exec st g) = true.
Proof.
  intros H. destruct st; cbn [gui_exec signalled]; try exact H; try reflexivity.
  destruct (ok (vars g)); exact H.
Qed.

Lemma signalled_gui_exec_all (l : list statement) :
  forall g, signalled g = true -> signalled (gui_exec_all l g) = true.
Proof.
  induction l as [|st l IH]; intros g H; [exact H|].
  cbn [gui_exec_all fold_left]. apply IH, signalled_gui_exec, H.
Qed.

Lemma gui_exec_all_take_S (lam : list statement) (n : nat) (st : statement)
    (g : shared) :
  lam !! n = Some st ->
  gui_exec_all (take (S n) lam) g = gui_exec st (gui_exec_all (take n lam) g).
Proof.
  intros H. rewrite (take_S_r _ _ _ H). unfold gui_exec_all.
  rewrite fold_left_app. reflexivity.
Qed.

Lemma drop_cons_inv {T} (l : list T) (n : nat) (x : T) (k : list T) :
  drop n l = x :: k -> l !! n = Some x /\ k = drop (S n) l.
Proof.
  intros Hd.
  assert (Hx : l !! n = Some x).
  { rewrite <- (Nat.add_0_r n), <- lookup_drop, Hd. reflexivity. }
  split; [exact Hx|]. rewrite (drop_S l x n Hx) in Hd. injection Hd as <-.
  reflexivity.
Qed.

Lemma worker_at_S (lam : list statement) (ret : statement) (W : World) (n : nat)
    (w : list statement) (r : option outcome) (st : statement) :
  lam !! n = Some st ->
  worker_at lam ret W n w r -> worker_at lam ret W (S n) w r.
Proof.
  intros Hst [H | [(Hw & Hr & Hsig) | (Hw & m & Hm & Hsig & Hr)]].
  - left. exact H.
  - right. left. split; [exact Hw|]. split; [exact Hr|].
    rewrite (gui_exec_all_take_S lam n st _ Hst). apply signalled_gui_exec.
    exact Hsig.
  - right. right. split; [exact Hw|]. exists m.
    split; [lia|]. split; [exact Hsig | exact Hr].
Qed.

(** A step of the GUI thread before the lambda of the call has started:
    it goes on with the earlier lambdas, or, when there is none left,
    starts the first lambda after them. *)
Lemma earlier_gui_step (W : World) (g : list statement)
    (q tail : list (list statement)) (sh : shared) (w : list statement)
    (r : option outcome) (s' : threads) :
  earlier W g q sh ->
  gui_step {| worker := w; gui := g; event_queue := q ++ tail; returned := r;
              now := sh |} = Some s' ->
  (exists g' q' sh',
     earlier W g' q' sh' /\
     s' = {| worker := w; gui := g'; event_queue := q' ++ tail; returned := r;
             now := sh' |}) \/
  (exists lam rest,
     tail = lam :: rest /\ sh = at_lambda W /\
     s' = {| worker := w; gui := lam; event_queue := rest; returned := r;
             now := sh |}).
Proof.
  intros (gs & fs & -> & -> & Hv & Hsig & Hfold). unfold gui_step.
  cbn [gui event_queue worker returned now].
  destruct gs as [|f gs]; cbn [map].
  - destruct fs as [|f fs]; cbn [map app].
    + destruct tail as [|lam rest]; [discriminate|]. intros [= <-].
      right. exists lam, rest. split; [reflexivity|]. split; [|reflexivity].
      destruct sh as [V v b]. cbn in Hv, Hsig, Hfold. subst. reflexivity.
    + intros [= <-]. left.
      exists (map run_closure [f]), (map (fun f => [run_closure f]) fs), sh.
      split; [|reflexivity]. exists [f], fs. repeat split; assumption.
  - intros [= <-]. left.
    exists (map run_closure gs), (map (fun f => [run_closure f]) fs),
      (gui_exec (run_closure f) sh).
    split; [|reflexivity]. exists gs, fs.
    split; [reflexivity|]. split; [reflexivity|].
    split; [exact Hv|]. split; [exact Hsig | exact Hfold].
Qed.

(** Every step leads from a phase to a phase. *)
Lemma phase_step (lam : list statement) (ret : statement) (W : World)
    (s s' : threads) :
  ret = return_Choice \/ ret = return_ok ->
  phase lam ret W s -> step s s' -> phase lam ret W s'.
Proof.
  intros Hret Hs Hstep. destruct Hs as [g q sh He | g q sh He | n w r Hn Hw].
  - (* calling: the worker posts, or the GUI thread goes on *)
    destruct Hstep as [H | H].
    + injection H as <-. apply phase_posted. exact He.
    + rewrite <- (app_nil_r q) in H.
      apply (earlier_gui_step W g q [] sh _ _ s' He) in H
        as [(g' & q' & sh' & He' & ->) | (lam' & rest & [=] & _)].
      rewrite app_nil_r. apply phase_calling. exact He'.
  - (* posted: the worker is blocked in stop *)
    destruct Hstep as [H | H].
    + unfold worker_step in H. cbn [worker now] in H.
      destruct He as (gs & fs & _ & _ & _ & Hsig & _). rewrite Hsig in H.
      discriminate.
    + apply (earlier_gui_step W g q [lam] sh _ _ s' He) in H
        as [(g' & q' & sh' & He' & ->) | (lam' & rest & [= <- <-] & -> & ->)].
      * apply phase_posted. exact He'.
      * apply (phase_started lam ret W 0); [lia|]. left. split; reflexivity.
  - (* started *)
    destruct Hstep as [H | H].
    + unfold worker_step in H. cbn [worker now gui event_queue returned] in H.
      destruct Hw as [[-> ->] | [(-> & -> & Hsig) | (-> & _)]].
      * destruct (signalled (gui_exec_all (take n lam) (at_lambda W))) eqn:Hsig;
          [|discriminate].
        injection H as <-. apply (phase_started lam ret W n); [exact Hn|].
        right. left. split; [reflexivity|]. split; [reflexivity | exact Hsig].
      * destruct Hret as [-> | ->]; cbn [return_value] in H; injection H as <-;
          (apply (phase_started lam _ W n); [exact Hn|]);
          right; right; (split; [reflexivity|]); exists n;
          (split; [lia|]); (split; [exact Hsig | reflexivity]).
      * discriminate.
    + unfold gui_step in H. cbn [worker now gui event_queue returned] in H.
      destruct (drop n lam) as [|st k] eqn:Hd; [discriminate|].
      injection H as <-. apply drop_cons_inv in Hd as [Hst ->].
      rewrite <- (gui_exec_all_take_S lam n st _ Hst).
      apply (phase_started lam ret W (S n)).
      * apply lookup_lt_Some in Hst. lia.
      * apply (worker_at_S lam ret W n w r st Hst Hw).
Qed.

Lemma phase_start (lam : list statement) (ret : statement) (W : World) :
  phase lam ret W (start [call_exec_func lam; call_stop; ret] W).
Proof.
  apply phase_calling. exists [], (posted W).
  split; [reflexivity|]. split; [reflexivity|]. split; [reflexivity|].
  split; reflexivity.
Qed.

Lemma phase_reachable (lam : list statement) (ret : statement) (W : World)
    (s : threads) :
  ret = return_Choice \/ ret = return_ok ->
  reachable (start [call_exec_func lam; call_stop; ret] W) s ->
  phase lam ret W s.
Proof.
  intros Hret Hr. induction Hr as [|s s' _ IH Hstep]; [apply phase_start|].
  exact (phase_step lam ret W s s' Hret IH Hstep).
Qed.

(** In every state a call can reach, the worker is past [s.stop()] only
    when the point has been signalled. *)
Lemma wait_returns_after_signal (lam : list statement) (ret : statement)
    (W : World) (s : threads) :
  ret = return_Choice \/ ret = return_ok ->
  reachable (start [call_exec_func lam; call_stop; ret] W) s ->
  worker s = [ret] \/ worker s = [] -> signalled (now s) = true.
Proof.
  intros Hret Hr Hpast.
  destruct (phase_reachable lam ret W s Hret Hr) as [g q sh _ | g q sh _ | n w r Hn Hw];
    cbn [worker now] in *.
  - destruct Hpast as [[=] | [=]].
  - destruct Hpast as [H | [=]]. injection H as H. destruct Hret; subst; discriminate.
  - destruct Hw as [[-> _] | [(_ & _ & Hsig) | (_ & m & Hm & Hsig & _)]].
    + destruct Hpast as [H | [=]]. injection H as H. destruct Hret; subst; discriminate.
    + exact Hsig.
    + replace n with (m + (n - m))%nat by lia.
      rewrite <- take_take_drop. unfold gui_exec_all. rewrite fold_left_app.
      apply signalled_gui_exec_all. exact Hsig.
Qed.

(** The lambda of a file dialog has nothing after [s.go()]: when the
    predicate has returned, the lambda has ended, the lambdas posted before
    it have run, and what is returned is the answer of the dialog. *)
Lemma file_dialog_wait (W : World) (answer : string) (s : threads) (out : outcome) :
  reachable
    (start [call_exec_func [assign_Choice answer; call_go]; call_stop;
            return_Choice] W) s ->
  returned s = Some out ->
  gui s = [] /\ event_queue s = [] /\ world (now s) = processEvents W /\
  out = returns_Choice (if negb (String.eqb answer "") then TRUE answer else FALSE).
Proof.
  intros Hr Hout.
  destruct (phase_reachable _ _ W s (or_introl eq_refl) Hr)
    as [g q sh _ | g q sh _ | n w r Hn Hw]; cbn [returned] in Hout;
    try discriminate.
  destruct Hw as [[_ ->] | [(_ & -> & _) | (-> & m & Hm & Hsig & ->)]];
    try discriminate.
  cbn [length] in Hn.
  destruct m as [|[|[|m]]]; cbn in Hsig; try discriminate; [|lia].
  assert (n = 2%nat) as -> by lia. injection Hout as <-.
  cbn. repeat split.
Qed.

(** [getOpenFileName]: when the predicate has returned, in whatever order
    the two threads took their steps, the lambda has ended, and the result
    and the world are those of the predicate above. *)
Lemma getOpenFileName_wait (dialog : string -> string -> string -> string)
    (thid : Z) (Caption : string) (A2 : PlTerm) (Pattern : string) (W : World)
    (c : console_ref) (s : threads) (out : outcome) :
  console_by_thread thid W = Some c ->
  reachable (start (getOpenFileName_body dialog Caption A2 Pattern) W) s ->
  returned s = Some out ->
  gui s = [] /\ event_queue s = [] /\
  out = returns_Choice (fst (getOpenFileName dialog thid Caption A2 Pattern W)) /\
  world (now s) = snd (getOpenFileName dialog thid Caption A2 Pattern W).
Proof.
  intros Hc Hr Hout. unfold getOpenFileName_body in Hr. cbn zeta in Hr.
  destruct (file_dialog_wait W _ s out Hr Hout) as (Hg & Hq & HW & ->).
  unfold getOpenFileName. rewrite Hc. cbn zeta. unfold exec_func_and_stop.
  split; [exact Hg|]. split; [exact Hq|].
  destruct (negb _); split; [reflexivity | exact HW | reflexivity | exact HW].
Qed.

(** The same for [getSaveFileName]. *)
Lemma getSaveFileName_wait (dialog : string -> string -> string -> string)
    (thid : Z) (Caption : string) (A2 : PlTerm) (Pattern : string) (W : World)
    (c : console_ref) (s : threads) (out : outcome) :
  console_by_thread thid W = Some c ->
  reachable (start (getSaveFileName_body dialog Caption A2 Pattern) W) s ->
  returned s = Some out ->
  gui s = [] /\ event_queue s = [] /\
  out = returns_Choice (fst (getSaveFileName dialog thid Caption A2 Pattern W)) /\
  world (now s) = snd (getSaveFileName dialog thid Caption A2 Pattern W).
Proof.
  intros Hc Hr Hout. unfold getSaveFileName_body in Hr. cbn zeta in Hr.
  destruct (file_dialog_wait W _ s out Hr Hout) as (Hg & Hq & HW & ->).
  unfold getSaveFileName. rewrite Hc. cbn zeta. unfold exec_func_and_stop.
  split; [exact Hg|]. split; [exact Hq|].
  destruct (negb _); split; [reflexivity | exact HW | reflexivity | exact HW].
Qed.

Lemma with_console_font_same (W : World) :
  with_console_font W (console_font W) = W.
Proof. destruct W; reflexivity. Qed.

(** The lambda of [select_font] signals with its fourth statement. *)
Lemma select_font_signalled (getFont : string -> option string) (c : ptr)
    (W : World) (n : nat) :
  signalled (gui_exec_all (take n (select_font_lambda getFont c)) (at_lambda W)) =
  (4 <=? n)%nat.
Proof.
  destruct n as [|[|[|[|[|n]]]]]; cbn; rewrite ?take_nil; cbn; try reflexivity;
    destruct (getFont (console_font (processEvents W))); reflexivity.
Qed.

(** What the lambda of [select_font] has done from [s.go()] on: the
    dialog is answered and, on acceptance, the console has the font; the
    preference is stored with the fifth statement only. *)
Lemma select_font_after_go (getFont : string -> option string) (c : ptr)
    (W : World) (n : nat) :
  (4 <= n)%nat ->
  ok (vars (gui_exec_all (take n (select_font_lambda getFont c)) (at_lambda W))) =
    match getFont (console_font (processEvents W)) with
    | Some _ => true
    | None => false
    end /\
  world (gui_exec_all (take n (select_font_lambda getFont c)) (at_lambda W)) =
    match getFont (console_font (processEvents W)) with
    | Some f =>
        if (n =? 4)%nat
        then set_console_at (processEvents W) c (setFont f)
        else with_console_font (set_console_at (processEvents W) c (setFont f)) f
    | None => processEvents W
    end.
Proof.
  intros Hn. destruct n as [|[|[|[|[|n]]]]]; try lia; cbn; rewrite ?take_nil; cbn;
    destruct (getFont (console_font (processEvents W))); cbn;
    rewrite ?with_console_font_same; split; reflexivity.
Qed.

(** [select_font]: when the worker is past [s.stop()], the dialog has been
    answered and the font set, and what the predicate returns is what the
    predicate above returns; but the lambda may still have its end to run,
    and the world is the one of the predicate above only when it has. *)
Lemma select_font_wait (getFont : string -> option string) (thid : Z)
    (W : World) (c : console_ref) (s : threads) :
  console_by_thread thid W = Some c ->
  reachable (start (select_font_body getFont (self c)) W) s ->
  worker s = [return_ok] \/ worker s = [] ->
  (forall out, returned s = Some out ->
               out = returns_ok (fst (select_font getFont thid W))) /\
  ((gui s = [leave_lambda] /\
    world (now s) =
      match getFont (console_font (processEvents W)) with
      | Some f => set_console_at (processEvents W) (self c) (setFont f)
      | None => processEvents W
      end) \/
   (gui s = [] /\ world (now s) = snd (select_font getFont thid W))).
Proof.
  intros Hc Hr Hpast.
  assert (Hsel : select_font getFont thid W =
                 match getFont (console_font (processEvents W)) with
                 | Some f =>
                     (TRUE (),
                      with_console_font
                        (set_console_at (processEvents W) (self c) (setFont f)) f)
                 | None => (FALSE, processEvents W)
                 end).
  { unfold select_font. rewrite Hc. reflexivity. }
  rewrite Hsel. clear Hsel. unfold select_font_body in Hr.
  destruct (phase_reachable _ _ W s (or_intror eq_refl) Hr)
    as [g q sh _ | g q sh _ | n w r Hn Hw]; cbn [worker gui now returned] in *.
  - destruct Hpast as [[=] | [=]].
  - destruct Hpast as [[=] | [=]].
  - assert (Hpos : forall k, (4 <= k <= n)%nat ->
              (drop n (select_font_lambda getFont (self c)) = [leave_lambda] /\
               world (gui_exec_all (take n (select_font_lambda getFont (self c)))
                        (at_lambda W)) =
                 match getFont (console_font (processEvents W)) with
                 | Some f => set_console_at (processEvents W) (self c) (setFont f)
                 | None => processEvents W
                 end) \/
              (drop n (select_font_lambda getFont (self c)) = [] /\
               world (gui_exec_all (take n (select_font_lambda getFont (self c)))
                        (at_lambda W)) =
                 (match getFont (console_font (processEvents W)) with
                  | Some f =>
                      (TRUE (),
                       with_console_font
                         (set_console_at (processEvents W) (self c) (setFont f)) f)
                  | None => (FALSE, processEvents W)
                  end).2)).
    { intros k Hk.
      destruct (select_font_after_go getFont (self c) W n ltac:(lia)) as [_ HW].
      rewrite HW. cbn [length select_font_lambda] in Hn.
      assert (n = 4 \/ n = 5)%nat as [-> | ->] by lia.
      - left. split; [reflexivity|].
        destruct (getFont (console_font (processEvents W))); reflexivity.
      - right. split; [reflexivity|].
        destruct (getFont (console_font (processEvents W))); reflexivity. }
    destruct Hw as [[-> _] | [(_ & -> & Hsig) | (_ & m & Hm & Hsig & ->)]].
    + destruct Hpast as [[=] | [=]].
    + rewrite select_font_signalled in Hsig. apply Nat.leb_le in Hsig.
      split; [intros out [=]|]. apply (Hpos n). lia.
    + rewrite select_font_signalled in Hsig. apply Nat.leb_le in Hsig.
      split; [|apply (Hpos m); lia].
      intros out [= <-]. cbn [return_value].
      destruct (select_font_after_go getFont (self c) W m Hsig) as [-> _].
      destruct (getFont (console_font (processEvents W))); reflexivity.
Qed.

(** C9, as the code has it at [select_font].  The lambda declares
    [Preferences p] and calls [s.go()] as its last statement, so that [p]
    is destroyed after the signal.  With a console of thread 1 and a user
    who picks the font Serif, the two threads can come to this state: the
    wait has returned and the predicate has returned [TRUE], as the
    predicate above does, while the lambda has still its end to run, and
    the font kept in the preferences is Monospace: it is Serif when the
    lambda has ended. *)
Theorem C9_select_font_returns_before_the_lambda_ends :
  let getFont := fun _ : string => Some "Serif" in
  let W := demo_world [] in
  exists s,
    reachable (start (select_font_body getFont [0; 1]%nat) W) s /\
    worker s = [] /\
    returned s = Some (returns_ok (fst (select_font getFont 1 W))) /\
    fst (select_font getFont 1 W) = TRUE () /\
    gui s = [leave_lambda] /\
    console_font (world (now s)) = "Monospace" /\
    console_font (snd (select_font getFont 1 W)) = "Serif".
Proof.
  intros getFont W.
  destruct (run_schedule [true; false; false; false; false; false; true; true]
              (start (select_font_body getFont [0; 1]%nat) W)) as [s|] eqn:Hrun;
    [|discriminate].
  exists s. split; [apply (schedule_reachable _ _ _ Hrun)|].
  injection Hrun as <-. repeat split.
Qed.

(** The other runs of that call: the GUI thread may as well end the
    lambda before the worker goes on, and then the world is the one of the
    predicate above when the predicate returns. *)
Example select_font_lambda_ends_first :
  let getFont := fun _ : string => Some "Serif" in
  let W := demo_world [] in
  (fun s => (gui <$> s, returned <$> s, (world ∘ now) <$> s))
    (run_schedule [true; false; false; false; false; false; false; true; true]
       (start (select_font_body getFont [0; 1]%nat) W)) =
  (Some [], Some (Some (returns_ok (TRUE ()))), Some (snd (select_font getFont 1 W))).
Proof. reflexivity. Qed.

(** ** The order in which search_widget looks at the widgets *)

Lemma visits_unfold (cls : QClass) (cs : list QObject) (p : ptr) :
  visits (Object cls cs) p = (p, Object cls cs) :: visits_under p cs 0.
Proof.
  cbn [visits]. f_equal. generalize 0%nat.
  induction cs as [|c cs IH]; intros i; [reflexivity|].
  cbn [visits_under]. rewrite <- IH. reflexivity.
Qed.

Lemma stack_visits_push_children (p : ptr) (cs : list QObject) :
  forall (i : nat) (s : list (ptr * QObject)),
  stack_visits (push_children p i cs s) = visits_under p cs i ++ stack_visits s.
Proof.
  induction cs as [|c cs IH]; intros i s; [reflexivity|].
  cbn [push_children visits_under]. rewrite IH, <- app_assoc. f_equal.
  destruct (isWidgetType c); reflexivity.
Qed.

Lemma find_app_first {T} (f : T -> bool) (l1 l2 : list T) :
  List.find f (l1 ++ l2) =
  match List.find f l1 with Some x => Some x | None => List.find f l2 end.
Proof.
  induction l1 as [|x l1 IH]; [reflexivity|].
  cbn [app List.find]. destruct (f x); [reflexivity | exact IH].
Qed.

(** The loop finds the first widget that matches, in the order of
    [stack_visits]. *)
Lemma search_loop_find (matches : QObject -> bool) (s : list (ptr * QObject)) :
  search_loop matches s = List.find (fun e => matches (snd e)) (stack_visits s).
Proof.
  funelim (search_loop matches s).
  - reflexivity.
  - unfold stack_visits. cbn [map concat fst snd].
    destruct o as [cls cs]. rewrite visits_unfold. cbn [app List.find snd].
    destruct (matches (Object cls cs)); [reflexivity|].
    rewrite H, stack_visits_push_children. reflexivity.
Qed.

Lemma search_from_find (matches : QObject -> bool) (tops : list QObject) :
  forall i,
  search_from matches i tops =
  List.find (fun e => matches (snd e)) (visits_from i tops).
Proof.
  induction tops as [|widget rest IH]; intros i; [reflexivity|].
  cbn [search_from visits_from]. rewrite find_app_first, search_loop_find, IH.
  unfold stack_visits. cbn [map concat fst snd]. rewrite app_nil_r. reflexivity.
Qed.

(** Induction on an object with the hypothesis for all its children. *)
Lemma QObject_children_ind (P : QObject -> Prop) :
  (forall cls cs, Forall P cs -> P (Object cls cs)) -> forall o, P o.
Proof.
  intros F. fix ind 1. intros [cls cs]. apply F.
  revert cs. fix all 1. intros [|c cs]; constructor; [apply ind | apply all].
Qed.

Lemma visits_head (o : QObject) (p : ptr) : In (p, o) (visits o p).
Proof. destruct o as [cls cs]. rewrite visits_unfold. left. reflexivity. Qed.

(** What a search looks at under [o] are widgets of the hierarchy. *)
Lemma visits_widget_at (tops : list QObject) (o : QObject) :
  forall (p : ptr) (e : ptr * QObject),
  widget_at tops p o -> In e (visits o p) -> widget_at tops (fst e) (snd e).
Proof.
  induction o as [cls cs IH] using QObject_children_ind. intros p e Hp.
  rewrite visits_unfold. intros [<- | He]; [exact Hp|].
  enough (Hsub : forall sub i,
             Forall (fun c => forall p e, widget_at tops p c ->
                                In e (visits c p) ->
                                widget_at tops (fst e) (snd e)) sub ->
             (forall j c, sub !! j = Some c -> cs !! (i + j)%nat = Some c) ->
             In e (visits_under p sub i) -> widget_at tops (fst e) (snd e)).
  { apply (Hsub cs 0%nat IH); [|exact He]. intros j c Hj. exact Hj. }
  clear He IH. induction sub as [|c sub IHsub]; intros i Hall Hcs He;
    [contradiction|].
  inversion Hall as [|c' sub' Hc Hall']; subst.
  cbn [visits_under] in He. apply in_app_or in He as [He | He].
  - apply (IHsub (S i) Hall'); [|exact He]. intros j c' Hj.
    replace (S i + j)%nat with (i + S j)%nat by lia. apply Hcs. exact Hj.
  - destruct (isWidgetType c) eqn:Hw; [|contradiction].
    apply (Hc (p ++ [i]) e); [|exact He].
    apply (widget_child tops p (Object cls cs) i c Hp); [|exact Hw].
    cbn [children]. replace i with (i + 0)%nat by lia. apply Hcs. reflexivity.
Qed.

Lemma visits_from_widget_at (tops : list QObject) (e : ptr * QObject) :
  forall (rest : list QObject) (i : nat),
  (forall j c, rest !! j = Some c -> tops !! (i + j)%nat = Some c) ->
  In e (visits_from i rest) -> widget_at tops (fst e) (snd e).
Proof.
  induction rest as [|widget rest IH]; intros i Hrest He; [contradiction|].
  cbn [visits_from] in He. apply in_app_or in He as [He | He].
  - apply (visits_widget_at tops widget [i] e); [|exact He].
    apply widget_top. replace i with (i + 0)%nat by lia. apply Hrest. reflexivity.
  - apply (IH (S i)); [|exact He]. intros j c Hj.
    replace (S i + j)%nat with (i + S j)%nat by lia. apply Hrest. exact Hj.
Qed.

Lemma visits_under_child (p : ptr) (c : QObject) :
  forall (cs : list QObject) (i j : nat),
  cs !! j = Some c -> isWidgetType c = true ->
  In ((p ++ [(i + j)%nat]), c) (visits_under p cs i).
Proof.
  induction cs as [|c0 cs IH]; intros i j Hj Hw; [discriminate|].
  cbn [visits_under]. apply in_or_app. destruct j as [|j].
  - right. injection Hj as ->. rewrite Hw, Nat.add_0_r. apply visits_head.
  - left. replace (i + S j)%nat with (S i + j)%nat by lia. apply IH; assumption.
Qed.

(** With a widget, a search under [o] also looks at its widget children. *)
Lemma visits_closed (o : QObject) :
  forall (p q : ptr) (w c : QObject) (i : nat),
  In (q, w) (visits o p) -> children w !! i = Some c -> isWidgetType c = true ->
  In (q ++ [i], c) (visits o p).
Proof.
  induction o as [cls cs IH] using QObject_children_ind. intros p q w c i.
  rewrite visits_unfold. intros [[= <- <-] | Hin] Hc Hw.
  - right. apply (visits_under_child p c cs 0 i Hc Hw).
  - right. revert Hin. generalize 0%nat.
    induction IH as [|c0 cs Hc0 _ IHcs]; intros k Hin; [contradiction|].
    cbn [visits_under] in *. apply in_app_or in Hin as [Hin | Hin];
      apply in_or_app.
    + left. apply IHcs. exact Hin.
    + right. destruct (isWidgetType c0); [|contradiction].
      apply (Hc0 _ q w c i Hin Hc Hw).
Qed.

Lemma visits_from_top (o : QObject) :
  forall (rest : list QObject) (i j : nat),
  rest !! j = Some o -> In ([(i + j)%nat], o) (visits_from i rest).
Proof.
  induction rest as [|widget rest IH]; intros i j Hj; [discriminate|].
  cbn [visits_from]. apply in_or_app. destruct j as [|j].
  - left. injection Hj as ->. rewrite Nat.add_0_r. apply visits_head.
  - right. replace (i + S j)%nat with (S i + j)%nat by lia. apply IH. exact Hj.
Qed.

Lemma visits_from_closed (q : ptr) (w c : QObject) (k : nat) :
  children w !! k = Some c -> isWidgetType c = true ->
  forall (rest : list QObject) (i : nat),
  In (q, w) (visits_from i rest) -> In (q ++ [k], c) (visits_from i rest).
Proof.
  intros Hc Hw. induction rest as [|widget rest IH]; intros i Hin; [contradiction|].
  cbn [visits_from] in *. apply in_app_or in Hin as [Hin | Hin]; apply in_or_app.
  - left. apply (visits_closed widget _ q w c k Hin Hc Hw).
  - right. apply IH. exact Hin.
Qed.

(** A search comes to every widget of the hierarchy. *)
Lemma widget_at_visit_order (W : World) (p : ptr) (o : QObject) :
  widget_at (topLevelWidgets W) p o -> In (p, o) (visit_order W).
Proof.
  unfold visit_order. induction 1 as [i o Hi | p o i c _ IH Hc Hw].
  - apply (visits_from_top o (topLevelWidgets W) 0 i Hi).
  - apply (visits_from_closed p o c i Hc Hw). exact IH.
Qed.

Lemma visit_order_widget_at (W : World) (p : ptr) (o : QObject) :
  In (p, o) (visit_order W) -> widget_at (topLevelWidgets W) p o.
Proof.
  intros H.
  apply (visits_from_widget_at (topLevelWidgets W) (p, o) (topLevelWidgets W) 0);
    [|exact H].
  intros j c Hj. exact Hj.
Qed.

Lemma find_none_all {T} (f : T -> bool) (l : list T) :
  (forall x, In x l -> f x = false) -> List.find f l = None.
Proof.
  induction l as [|x l IH]; intros H; [reflexivity|].
  cbn [List.find]. rewrite (H x) by (left; reflexivity).
  apply IH. intros y Hy. apply H. right. exact Hy.
Qed.

(** The search finds nothing only when no widget of the hierarchy matches. *)
Lemma search_widget_None (matches : QObject -> bool) (W : World) :
  search_widget matches W = None <->
  forall p o, widget_at (topLevelWidgets W) p o -> matches o = false.
Proof.
  unfold search_widget. rewrite search_from_find. fold (visit_order W). split.
  - intros Hnone p o Hw.
    apply (find_none _ _ Hnone (p, o)). apply widget_at_visit_order. exact Hw.
  - intros Hall. apply find_none_all. intros [p o] Hin.
    apply (Hall p o). apply visit_order_widget_at. exact Hin.
Qed.

(** X1.  [search_widget] returns the first widget that matches in this
    order: the top-level widgets one after the other, and under each a
    widget before the widgets under it, the widget children taken from the
    last one registered to the first. *)
Theorem X1_search_widget_order (matches : QObject -> bool) (W : World) :
  search_widget matches W =
  List.find (fun e => matches (snd e)) (visit_order W).
Proof. unfold search_widget, visit_order. apply search_from_find. Qed.

(** Of two consoles of a thread in one window, the one registered last is
    the console of the thread. *)
Example two_consoles_last_child_first :
  self <$> console_by_thread 1 two_consoles_world = Some [1; 1]%nat.
Proof. reflexivity. Qed.

(** X2.  [search_widget] returns null exactly when no widget of the
    hierarchy matches, where the hierarchy is made of the top-level widgets
    and of the children that are widgets of its widgets; and what it
    returns is a widget of the hierarchy that matches. *)
Theorem X2_search_widget_complete (matches : QObject -> bool) (W : World) :
  (search_widget matches W = None <->
   forall p o, widget_at (topLevelWidgets W) p o -> matches o = false) /\
  (forall p o, search_widget matches W = Some (p, o) ->
     widget_at (topLevelWidgets W) p o /\ matches o = true /\
     deref (topLevelWidgets W) p = Some o).
Proof.
  split; [apply search_widget_None|].
  intros p o Hs. destruct (search_widget_Some matches W p o Hs) as [Hm Hd].
  split; [|split; assumption].
  unfold search_widget in Hs. rewrite search_from_find in Hs.
  apply find_some in Hs as [Hin _]. apply visit_order_widget_at. exact Hin.
Qed.

(** X3.  Where the calling thread has a console, [console_peek_first]
    finds a console too, that one or one the search comes to before it, so
    that [win_open_console] does not throw "no ConsoleEdit available",
    whatever its arguments. *)
Theorem X3_win_open_console_finds_a_console (thid : Z) (W : World)
    (c : console_ref) :
  console_by_thread thid W = Some c ->
  (exists c', console_peek_first W = Some c') /\
  forall Title In Out Err,
    fst (win_open_console Title In Out Err W) <> Throw no_ConsoleEdit_available.
Proof.
  intros Hc.
  assert (Hpeek : exists c', console_peek_first W = Some c').
  { unfold console_by_thread, cast_found in Hc.
    destruct (search_widget _ W) as [[p o]|] eqn:Hs; [|discriminate].
    destruct (as_ConsoleEdit o) as [[w ce]|] eqn:Ho; [|discriminate].
    unfold search_widget in Hs. rewrite search_from_find in Hs.
    apply find_some in Hs as [Hin _]. apply visit_order_widget_at in Hin.
    unfold console_peek_first, cast_found.
    destruct (search_widget _ W) as [[p' o']|] eqn:Hs'.
    - destruct (search_widget_Some _ W p' o' Hs') as [Hm _].
      destruct (as_ConsoleEdit o') as [[w' ce']|]; [eauto|discriminate].
    - rewrite search_widget_None in Hs'. specialize (Hs' p o Hin).
      rewrite Ho in Hs'. discriminate. }
  split; [exact Hpeek|]. destruct Hpeek as [c' Hc'].
  intros Title In Out Err. unfold win_open_console.
  change (console_peek_first (with_qDebug W ["win_open_console"]))
    with (console_peek_first W).
  rewrite Hc'.
  destruct (PL_unify_stream In && PL_unify_stream Out && PL_unify_stream Err);
    discriminate.
Qed.

Lemma X3_win_open_console_finds_a_console_witness :
  (exists c', console_peek_first (demo_world []) = Some c') /\
  fst (win_open_console "swipl" PL_VARIABLE PL_VARIABLE PL_VARIABLE
         (demo_world [])) <> Throw no_ConsoleEdit_available.
Proof.
  destruct (X3_win_open_console_finds_a_console 1 (demo_world [])
              {| self := [0; 1]%nat; widget := demo_console_widget;
                 console := demo_console |} eq_refl) as [Hpeek Hopen].
  split; [exact Hpeek|].
  exact (Hopen "swipl" PL_VARIABLE PL_VARIABLE PL_VARIABLE).
Defined.

(** [win_open_console(T, S, S, E, _)], one variable for the input and the
    output stream: the first [PL_unify_stream] binds [S] to the input
    stream, the second finds it bound, and the call fails.  The console has
    been made all the same. *)
Example win_open_console_one_variable_twice :
  let W' := snd (win_open_console "swipl" PL_VARIABLE
                   (PL_TERM "$stream" [PL_INTEGER 1]) PL_VARIABLE (demo_world [])) in
  fst (win_open_console "swipl" PL_VARIABLE
         (PL_TERM "$stream" [PL_INTEGER 1]) PL_VARIABLE (demo_world [])) = FALSE /\
  length (topLevelWidgets W') = 2%nat /\
  self <$> console_by_thread 1 W' = Some [0; 1]%nat.
Proof. repeat split. Qed.

(** ** What unify leaves alone *)

(** X4.  [unify] assigns only when it returns: whenever it throws or stops
    at the assertion the object is as it was, a read leaves the object as
    it was, and a write that returns gives back the term it was given. *)
Theorem X4_unify_assigns_only_on_success {O} (debug : bool)
    (p : QMetaProperty O) (o : O) (v : PlTerm) :
  match fst (unify debug p o v) with
  | Ok t =>
      (v = PL_VARIABLE /\ snd (unify debug p o v) = o) \/
      (v <> PL_VARIABLE /\ t = v)
  | Throw _ | Crash _ => snd (unify debug p o v) = o
  end.
Proof.
  assert (Hatom : forall a,
    match fst (unify_atom_Int debug p o (PL_ATOM a) a) with
    | Ok t =>
        (PL_ATOM a = PL_VARIABLE /\
         snd (unify_atom_Int debug p o (PL_ATOM a) a) = o) \/
        (PL_ATOM a <> PL_VARIABLE /\ t = PL_ATOM a)
    | Throw _ | Crash _ => snd (unify_atom_Int debug p o (PL_ATOM a) a) = o
    end).
  { intros a. unfold unify_atom_Int.
    destruct (enumerator p) as [e|]; [|reflexivity].
    destruct (Q_ASSERT_not_flag debug p); [|reflexivity].
    destruct (keyToValue e a =? -1); cbn; [reflexivity|].
    right. split; [discriminate | reflexivity]. }
  unfold unify. destruct v as [|i|a|d|s|f args].
  - destruct (type p); cbn; try reflexivity; try (left; split; reflexivity).
    destruct (enumerator p) as [e|]; [|left; split; reflexivity].
    destruct (Q_ASSERT_not_flag debug p); [|reflexivity].
    destruct (valueToKey e (toInt (read p o))); left; split; reflexivity.
  - destruct (type p); cbn [fst snd]; try reflexivity;
      (destruct (PlTerm_int (PL_INTEGER i)); [|reflexivity..];
       destruct (write p o (QVariant_int _)); cbn; [|reflexivity];
       right; split; [discriminate | reflexivity]).
  - destruct (type p); cbn [fst snd]; try reflexivity; [apply Hatom|].
    destruct (write p o (QVariant_string a)); [|apply Hatom].
    cbn. right. split; [discriminate | reflexivity].
  - destruct (type p); cbn [fst snd]; try reflexivity.
    destruct (write p o (QVariant_double d)); cbn; [|reflexivity].
    right. split; [discriminate | reflexivity].
  - reflexivity.
  - reflexivity.
Qed.

Lemma unify_read_only {O} (debug : bool) (p : QMetaProperty O) (o : O) :
  snd (unify debug p o PL_VARIABLE) = o.
Proof.
  unfold unify. destruct (type p); try reflexivity.
  destruct (enumerator p); [|reflexivity].
  destruct (Q_ASSERT_not_flag debug p); [|reflexivity].
  destruct (valueToKey _ _); reflexivity.
Qed.

(** ** console_settings, option after option *)

Lemma console_settings_loop_app (debug : bool)
    (metaObject : list (QMetaProperty ConsoleEdit)) (l1 l2 : list PlTerm) :
  forall c,
  console_settings_loop debug metaObject (l1 ++ l2) c =
  settings_then (console_settings_loop debug metaObject l1 c)
    (console_settings_loop debug metaObject l2).
Proof.
  induction l1 as [|opt l1 IH]; intros c.
  - cbn [app console_settings_loop settings_then].
    destruct (console_settings_loop debug metaObject l2 c) as [[b|e|why] c2];
      reflexivity.
  - cbn [app console_settings_loop].
    destruct (PlTerm_arity opt) as [[|[|n]]|e|why];
      destruct (PlTerm_name opt) as [f|e'|why']; try reflexivity.
    destruct (indexOfProperty metaObject f) as [[pid p]|]; [|reflexivity].
    destruct (unify debug p c (PlTerm_arg opt 1)) as [[v|e|why] c']; try reflexivity.
    rewrite IH.
    destruct (console_settings_loop debug metaObject l1 c') as [[b1|e1|why1] c1];
      cbn [settings_then mbind result_bind]; try reflexivity.
    destruct (console_settings_loop debug metaObject l2 c1) as [[b2|e2|why2] c2];
      reflexivity.
Qed.

Lemma indexOfProperty_In {O} (metaObject : list (QMetaProperty O)) (n : string)
    (pid : nat) (p : QMetaProperty O) :
  indexOfProperty metaObject n = Some (pid, p) -> In p metaObject.
Proof.
  unfold indexOfProperty. intros H. apply list_find_Some in H as (Hl & _ & _).
  apply list_elem_of_In. apply (list_elem_of_lookup_2 _ _ _ Hl).
Qed.

Lemma unify_keeps_thread (debug : bool) (metaObject : list (QMetaProperty ConsoleEdit))
    (p : QMetaProperty ConsoleEdit) (c : ConsoleEdit) (v : PlTerm) :
  keep_thread metaObject -> In p metaObject ->
  thread (snd (unify debug p c v)) = thread c.
Proof.
  intros Hk Hp.
  assert (Hatom : forall a v0,
            thread (snd (unify_atom_Int debug p c v0 a)) = thread c).
  { intros a v0. unfold unify_atom_Int.
    destruct (enumerator p) as [e|]; [|reflexivity].
    destruct (Q_ASSERT_not_flag debug p); [|reflexivity].
    destruct (keyToValue e a =? -1); cbn; [reflexivity|].
    destruct (write p c (QVariant_int (keyToValue e a))) as [c'|] eqn:Hw;
      [exact (Hk _ _ _ _ Hp Hw) | reflexivity]. }
  destruct v as [|i|a|d|s|f args]; try reflexivity.
  - rewrite unify_read_only. reflexivity.
  - unfold unify. destruct (type p); try reflexivity;
      (destruct (PlTerm_int (PL_INTEGER i)); [|reflexivity..];
       destruct (write p c (QVariant_int _)) as [c'|] eqn:Hw;
       [exact (Hk _ _ _ _ Hp Hw) | reflexivity]).
  - unfold unify. destruct (type p); try reflexivity; [apply Hatom|].
    destruct (write p c (QVariant_string a)) as [c'|] eqn:Hw;
      [exact (Hk _ _ _ _ Hp Hw) | apply Hatom].
  - unfold unify. destruct (type p); try reflexivity.
    destruct (write p c (QVariant_double d)) as [c'|] eqn:Hw;
      [exact (Hk _ _ _ _ Hp Hw) | reflexivity].
Qed.

Lemma console_settings_loop_keeps_thread (debug : bool)
    (metaObject : list (QMetaProperty ConsoleEdit)) (opts : list PlTerm) :
  keep_thread metaObject ->
  forall c, thread (snd (console_settings_loop debug metaObject opts c)) = thread c.
Proof.
  intros Hk. induction opts as [|opt opts IH]; intros c; [reflexivity|].
  cbn [console_settings_loop].
  destruct (PlTerm_arity opt) as [[|[|n]]|e|why];
    destruct (PlTerm_name opt) as [f|e'|why']; try reflexivity.
  destruct (indexOfProperty metaObject f) as [[pid p]|] eqn:Hp; [|reflexivity].
  pose proof (unify_keeps_thread debug metaObject p c (PlTerm_arg opt 1) Hk
                (indexOfProperty_In _ _ _ _ Hp)) as Hu.
  destruct (unify debug p c (PlTerm_arg opt 1)) as [[v|e|why] c']; cbn [snd] in *;
    try exact Hu.
  specialize (IH c').
  destruct (console_settings_loop debug metaObject opts c') as [r c''].
  cbn [snd] in *. congruence.
Qed.

(** An assignment that keeps the tag of the object it is made to keeps
    the skeleton. *)
Lemma skeleton_update_at (f : QClass -> QClass) (p : ptr) :
  forall ws,
  (forall o, deref ws p = Some o -> tag (f (class_of o)) = tag (class_of o)) ->
  map skeleton (update f ws p) = map skeleton ws.
Proof.
  induction p as [|i p IH]; intros ws Hf; [reflexivity|].
  cbn [update]. apply list_eq. intros j.
  rewrite !list_lookup_fmap. destruct (decide (i = j)) as [<-|Hne].
  - rewrite list_lookup_alter_eq.
    destruct (ws !! i) as [[cls cs]|] eqn:Hi; [|reflexivity].
    cbn. f_equal. destruct p as [|k p].
    + cbn [skeleton class_of children]. f_equal.
      apply (Hf (Object cls cs)). cbn. rewrite Hi. reflexivity.
    + cbn [class_of children skeleton]. rewrite IH; [reflexivity|].
      intros o Ho. apply Hf. cbn [deref]. rewrite Hi. exact Ho.
  - rewrite list_lookup_alter_ne by exact Hne. reflexivity.
Qed.

(** After an assignment to the console of a thread that keeps its thread,
    the thread finds that console, as assigned. *)
Lemma console_by_thread_set_console (thid : Z) (W : World) (c : console_ref)
    (ce : ConsoleEdit) :
  console_by_thread thid W = Some c ->
  thread ce = thread (console c) ->
  console_by_thread thid (set_console_at W (self c) (fun _ => ce)) =
  Some {| self := self c; widget := widget c; console := ce |}.
Proof.
  intros Hc Ht.
  destruct (console_by_thread_Some thid W c Hc) as (_ & cs & Hd).
  set (W1 := set_console_at W (self c) (fun _ => ce)).
  assert (Hframe : exists c1, console_by_thread thid W1 = Some c1 /\
                              self c1 = self c).
  { apply fmap_self_eq. rewrite <- Hc. apply console_by_thread_frame.
    unfold W1, set_console_at. cbn [topLevelWidgets with_widgets].
    apply skeleton_update_at. intros o Ho. rewrite Hd in Ho. injection Ho as <-.
    cbn. rewrite Ht. reflexivity. }
  destruct Hframe as (c1 & Hc1 & Hself). rewrite Hc1. f_equal.
  destruct (console_by_thread_Some thid W1 c1 Hc1) as (_ & cs1 & Hd1).
  rewrite Hself in Hd1. unfold W1, set_console_at in Hd1.
  cbn [topLevelWidgets with_widgets] in Hd1.
  rewrite (deref_update _ _ _ _ Hd) in Hd1. cbn in Hd1.
  destruct c1 as [s1 w1 ce1]. cbn [self widget console] in *.
  injection Hd1 as -> -> _. subst s1. reflexivity.
Qed.

Lemma set_console_at_twice (W : World) (p : ptr) (c1 c2 : ConsoleEdit) :
  set_console_at (set_console_at W p (fun _ => c1)) p (fun _ => c2) =
  set_console_at W p (fun _ => c2).
Proof.
  unfold set_console_at. cbn [topLevelWidgets with_widgets].
  rewrite update_update. unfold with_widgets. cbn. f_equal.
  apply update_ext. intros []; reflexivity.
Qed.

Lemma console_settings_found (debug : bool)
    (metaObject : list (QMetaProperty ConsoleEdit)) (thid : Z)
    (Options : list PlTerm) (W : World) (c : console_ref) :
  console_by_thread thid W = Some c ->
  console_settings debug metaObject thid Options W =
  (bound ← fst (console_settings_loop debug metaObject Options (console c));
   TRUE bound,
   set_console_at W (self c)
     (fun _ => snd (console_settings_loop debug metaObject Options (console c)))).
Proof.
  intros Hc. unfold console_settings. rewrite Hc.
  destruct (console_settings_loop debug metaObject Options (console c)).
  reflexivity.
Qed.

(** X5.  One call of [console_settings] with two lists of options put
    together does what two calls, one list each, do one after the other:
    if the first list ends well the second starts from the console the
    first left; if an option of the first list throws, the second list is
    not looked at, and what the options before it have written stays. *)
Theorem X5_console_settings_in_sequence (debug : bool)
    (metaObject : list (QMetaProperty ConsoleEdit)) (thid : Z)
    (l1 l2 : list PlTerm) (W : World) :
  keep_thread metaObject ->
  console_settings debug metaObject thid (l1 ++ l2) W =
  calls_then (console_settings debug metaObject thid l1 W)
    (console_settings debug metaObject thid l2).
Proof.
  intros Hk. destruct (console_by_thread thid W) as [c|] eqn:Hc.
  - rewrite !(console_settings_found debug metaObject thid _ W c Hc).
    rewrite console_settings_loop_app.
    pose proof (console_settings_loop_keeps_thread debug metaObject l1 Hk
                  (console c)) as Ht.
    destruct (console_settings_loop debug metaObject l1 (console c))
      as [[b1|e1|why1] c1]; cbn [settings_then calls_then fst snd mbind result_bind] in *;
      try reflexivity.
    rewrite (console_settings_found debug metaObject thid l2 _ _
               (console_by_thread_set_console thid W c c1 Hc Ht)).
    cbn [self console]. rewrite set_console_at_twice.
    destruct (console_settings_loop debug metaObject l2 c1) as [[b2|e2|why2] c2];
      reflexivity.
  - unfold console_settings. rewrite Hc. reflexivity.
Qed.

Lemma ConsoleEdit_metaObject_keep_thread : keep_thread ConsoleEdit_metaObject.
Proof.
  intros p o x o' Hp Hw. cbn in Hp.
  destruct Hp as [<- | [<- | [<- | [<- | [<- | [<- | []]]]]]];
    cbn in Hw; destruct x; try discriminate; injection Hw as <-; reflexivity.
Qed.

(** [console_settings([updateRefreshRate(50), bogus(1), lineWrapMode(X)])]. *)
Lemma X5_console_settings_in_sequence_witness :
  console_settings true ConsoleEdit_metaObject 1
    ([PL_TERM "updateRefreshRate" [PL_INTEGER 50]]
     ++ [PL_TERM "bogus" [PL_INTEGER 1]; PL_TERM "lineWrapMode" [PL_VARIABLE]])
    (demo_world []) =
  calls_then
    (console_settings true ConsoleEdit_metaObject 1
       [PL_TERM "updateRefreshRate" [PL_INTEGER 50]] (demo_world []))
    (console_settings true ConsoleEdit_metaObject 1
       [PL_TERM "bogus" [PL_INTEGER 1]; PL_TERM "lineWrapMode" [PL_VARIABLE]]).
Proof.
  apply (X5_console_settings_in_sequence true ConsoleEdit_metaObject 1).
  exact ConsoleEdit_metaObject_keep_thread.
Defined.

Example console_settings_stops_at_bogus :
  console_settings true ConsoleEdit_metaObject 1
    [ PL_TERM "updateRefreshRate" [PL_INTEGER 50];
      PL_TERM "bogus" [PL_INTEGER 1]; PL_TERM "lineWrapMode" [PL_VARIABLE] ]
    (demo_world []) =
  (Throw property_not_found,
   snd (console_settings true ConsoleEdit_metaObject 1
          [PL_TERM "updateRefreshRate" [PL_INTEGER 50]] (demo_world []))).
Proof. reflexivity. Qed.

Lemma console_settings_loop_queries (debug : bool)
    (metaObject : list (QMetaProperty ConsoleEdit)) (opts : list PlTerm) :
  Forall (fun opt => is_query opt = true) opts ->
  forall c, snd (console_settings_loop debug metaObject opts c) = c.
Proof.
  induction 1 as [|opt opts Hq _ IH]; intros c; [reflexivity|].
  destruct opt as [| | | | |f [|[] []]]; try discriminate.
  cbn [console_settings_loop PlTerm_arity PlTerm_name name_arity length].
  destruct (indexOfProperty metaObject f) as [[pid p]|]; [|reflexivity].
  change (PlTerm_arg (PL_TERM f [PL_VARIABLE]) 1) with PL_VARIABLE.
  pose proof (unify_read_only debug p c) as Hu.
  destruct (unify debug p c PL_VARIABLE) as [[v|e|why] c']; cbn [snd] in *;
    subst c'; try reflexivity.
  specialize (IH c).
  destruct (console_settings_loop debug metaObject opts c) as [r c''].
  exact IH.
Qed.

(** X6.  A call of [console_settings] changes nothing when every option
    is [name(Value)] with [Value] unbound when the loop comes to it, as it
    is for a single such option and for options with a variable each,
    however the call ends: with the values, or with an exception for a name
    that is no property or a property of a kind that cannot be read. *)
Theorem X6_console_settings_queries (debug : bool)
    (metaObject : list (QMetaProperty ConsoleEdit)) (thid : Z)
    (Options : list PlTerm) (W : World) :
  Forall (fun opt => is_query opt = true) Options ->
  snd (console_settings debug metaObject thid Options W) = W.
Proof.
  intros Hq. destruct (console_by_thread thid W) as [c|] eqn:Hc.
  - rewrite (console_settings_found debug metaObject thid Options W c Hc).
    cbn [snd]. rewrite (console_settings_loop_queries debug metaObject Options Hq).
    destruct (console_by_thread_Some thid W c Hc) as (_ & cs & Hd).
    apply (set_console_at_same W c cs Hd).
  - unfold console_settings. rewrite Hc. reflexivity.
Qed.

Lemma X6_console_settings_queries_witness :
  snd (console_settings true ConsoleEdit_metaObject 1
         [PL_TERM "lineWrapMode" [PL_VARIABLE]; PL_TERM "bogus" [PL_VARIABLE]]
         (demo_world [])) = demo_world [].
Proof.
  apply (X6_console_settings_queries true ConsoleEdit_metaObject 1).
  repeat constructor.
Defined.

(** [console_settings([lineWrapMode(X), documentTitle(X)])], one variable
    in two options: the first read binds [X] to 'WidgetWidth', the second
    option is found as [documentTitle('WidgetWidth')], and is a write. *)
Example console_settings_one_variable_twice :
  let r := console_settings true ConsoleEdit_metaObject 1
             [ PL_TERM "lineWrapMode" [PL_VARIABLE];
               PL_TERM "documentTitle" [PL_ATOM "WidgetWidth"] ] (demo_world []) in
  fst (console_settings true ConsoleEdit_metaObject 1
         [PL_TERM "lineWrapMode" [PL_VARIABLE]] (demo_world [])) =
    TRUE [PL_TERM "lineWrapMode" [PL_ATOM "WidgetWidth"]] /\
  documentTitle (props demo_console) = "" /\
  (console <$> console_by_thread 1 (snd r)) ≫= (Some ∘ documentTitle ∘ props) =
    Some "WidgetWidth".
Proof. repeat split. Qed.

(** ** Enumerations by name and by value *)

Lemma keyToValue_In (e : QMetaEnum) (k : string) :
  keyToValue e k <> -1 -> In (k, keyToValue e k) (keys e).
Proof.
  unfold keyToValue.
  destruct (List.find (fun kv => String.eqb (fst kv) k) (keys e)) as [[k' i]|] eqn:Hf;
    [|intros H; contradiction H; reflexivity].
  intros _. apply find_some in Hf as [Hin Hk]. cbn [fst snd] in *.
  apply String.eqb_eq in Hk. subst k'. exact Hin.
Qed.

Lemma valueToKey_In (e : QMetaEnum) (k : string) (i : Z) :
  In (k, i) (keys e) -> exists k', valueToKey e i = Some k' /\ In (k', i) (keys e).
Proof.
  intros Hin. unfold valueToKey.
  destruct (List.find (fun kv => snd kv =? i) (keys e)) as [[k' i']|] eqn:Hf.
  - apply find_some in Hf as [Hin' Hi]. cbn [snd] in Hi.
    apply Z.eqb_eq in Hi. subst i'. exists k'. split; [reflexivity | exact Hin'].
  - pose proof (find_none _ _ Hf (k, i) Hin) as Hn. cbn [snd] in Hn.
    rewrite Z.eqb_refl in Hn. discriminate.
Qed.

Lemma keyToValue_of_key (e : QMetaEnum) (k : string) (i : Z) :
  NoDup (map fst (keys e)) -> In (k, i) (keys e) -> keyToValue e k = i.
Proof.
  unfold keyToValue. induction (keys e) as [|[k0 i0] l IH]; intros Hnd Hin;
    [contradiction|].
  cbn [map fst] in Hnd. apply NoDup_cons in Hnd as [Hk0 Hnd].
  cbn [List.find fst snd]. destruct (String.eqb_spec k0 k) as [->|Hne].
  - destruct Hin as [[= Hi] | Hin]; [exact Hi|].
    contradiction Hk0. apply list_elem_of_In, in_map_iff.
    exists (k, i). split; [reflexivity|exact Hin].
  - destruct Hin as [[= Hk _] | Hin]; [contradiction|]. apply IH; assumption.
Qed.

(** X7.  On an enumerated property that keeps what it is given, a key
    written by name reads back as a key of the same value: the first key
    of the enumeration with that value.  A key whose value is -1 is not
    among those that can be written. *)
Theorem X7_enum_reads_back_same_value {O} (debug : bool) (p : QMetaProperty O)
    (o : O) (e : QMetaEnum) (k : string) :
  type p = QVariant.Int -> enumerator p = Some e ->
  Q_ASSERT_not_flag debug p = true ->
  NoDup (map fst (keys e)) ->
  keyToValue e k <> -1 ->
  stores p (QVariant_int (keyToValue e k)) ->
  exists o' k',
    unify debug p o (PL_ATOM k) = (Ok (PL_ATOM k), o') /\
    unify debug p o' PL_VARIABLE = (Ok (PL_ATOM k'), o') /\
    valueToKey e (keyToValue e k) = Some k' /\
    keyToValue e k' = keyToValue e k.
Proof.
  intros Ht He Ha Hnd Hk Hst.
  destruct (Hst o) as (o' & Hw & Hr).
  destruct (valueToKey_In e k _ (keyToValue_In e k Hk)) as (k' & Hv & Hin).
  exists o', k'. cbn [unify]. unfold unify_atom_Int.
  rewrite Ht, He, Ha, Hw, Hr. cbn [toInt]. rewrite Hv.
  destruct (Z.eqb_spec (keyToValue e k) (-1)); [contradiction|].
  repeat split. apply keyToValue_of_key; assumption.
Qed.

Lemma X7_enum_reads_back_same_value_witness :
  exists o' k',
    unify true lineWrapMode_property demo_console (PL_ATOM "NoWrap") =
      (Ok (PL_ATOM "NoWrap"), o') /\
    unify true lineWrapMode_property o' PL_VARIABLE = (Ok (PL_ATOM k'), o') /\
    valueToKey LineWrapMode (keyToValue LineWrapMode "NoWrap") = Some k' /\
    keyToValue LineWrapMode k' = keyToValue LineWrapMode "NoWrap".
Proof.
  apply (X7_enum_reads_back_same_value true lineWrapMode_property demo_console
           LineWrapMode "NoWrap");
    [reflexivity | reflexivity | reflexivity | | discriminate
     | apply lineWrapMode_stores].
  apply (bool_decide_unpack _). vm_compute. exact I.
Defined.

(** ** The window of a console *)

Lemma tag_set_widget (f : QWidget -> QWidget) (cls : QClass) :
  tag (set_widget f cls) = tag cls.
Proof. destruct cls; reflexivity. Qed.

Lemma parent_main_window_inv (W : World) (ce mw : ptr) (mbar : list QMenu) :
  parent_main_window W ce = Some (mw, mbar) ->
  exists wd cs,
    parentWidget (topLevelWidgets W) ce =
      Some (mw, Object (Class_QMainWindow wd mbar) cs).
Proof.
  unfold parent_main_window.
  destruct (parentWidget (topLevelWidgets W) ce) as [[w [cls cs]]|]; [|discriminate].
  unfold as_QMainWindow. cbn [class_of]. destruct cls; try discriminate.
  intros [= <- <-]. eauto.
Qed.

Lemma parentWidget_set_widget (f : QWidget -> QWidget) (tops : list QObject)
    (p w : ptr) (o : QObject) :
  parentWidget tops p = Some (w, o) ->
  parentWidget (update (set_widget f) tops w) p =
  Some (w, Object (set_widget f (class_of o)) (children o)).
Proof.
  unfold parentWidget.
  destruct (deref tops (removelast p)) as [o'|] eqn:Hd; [|discriminate].
  destruct (isWidgetType o') eqn:Hw; [|discriminate].
  intros [= <- <-]. rewrite (deref_update _ _ _ _ Hd).
  destruct o' as [[| | |] cs]; try discriminate; reflexivity.
Qed.

(** A thread finds its console at the same place in a world of the same
    skeleton. *)
Lemma console_by_thread_same_place (thid : Z) (W W' : World) (c : console_ref) :
  map skeleton (topLevelWidgets W') = map skeleton (topLevelWidgets W) ->
  console_by_thread thid W = Some c ->
  exists c', console_by_thread thid W' = Some c' /\ self c' = self c.
Proof.
  intros Hs Hc. apply fmap_self_eq. rewrite <- Hc.
  apply console_by_thread_frame. exact Hs.
Qed.

Lemma skeleton_set_widget_at (W : World) (w : ptr) (f : QWidget -> QWidget) :
  map skeleton (topLevelWidgets (set_widget_at W w f)) =
  map skeleton (topLevelWidgets W).
Proof.
  unfold set_widget_at. cbn [topLevelWidgets with_widgets].
  apply skeleton_update. intros cls. apply tag_set_widget.
Qed.

Lemma window_title_found (thid : Z) (New : string) (W : World) (c : console_ref)
    (mw : ptr) (wd : QWidget) (mbar : list QMenu) (cs : list QObject) :
  console_by_thread thid W = Some c ->
  parentWidget (topLevelWidgets W) (self c) =
    Some (mw, Object (Class_QMainWindow wd mbar) cs) ->
  window_title thid New W =
  (TRUE (windowTitle wd), set_widget_at W mw (with_windowTitle New)).
Proof. intros Hc Hp. unfold window_title. rewrite Hc, Hp. reflexivity. Qed.

(** X8.  For a console in a main window, [window_title(Old, New)]
    succeeds; a call after it gives [New] as the old title; and the menu
    bar of the window is as it was. *)
Theorem X8_window_title_set_then_get (thid : Z) (New : string) (W : World)
    (c : console_ref) (mw : ptr) (mbar : list QMenu) :
  console_by_thread thid W = Some c ->
  parent_main_window W (self c) = Some (mw, mbar) ->
  exists old,
    window_title thid New W =
      (TRUE old, set_widget_at W mw (with_windowTitle New)) /\
    (forall New2,
       fst (window_title thid New2 (set_widget_at W mw (with_windowTitle New))) =
       TRUE New) /\
    parent_main_window (set_widget_at W mw (with_windowTitle New)) (self c) =
      Some (mw, mbar).
Proof.
  intros Hc Hp. destruct (parent_main_window_inv W _ mw mbar Hp) as (wd & cs & Hpw).
  exists (windowTitle wd).
  split; [apply (window_title_found thid New W c mw wd mbar cs Hc Hpw)|].
  set (W1 := set_widget_at W mw (with_windowTitle New)).
  assert (Hpw1 : parentWidget (topLevelWidgets W1) (self c) =
                 Some (mw, Object (Class_QMainWindow (with_windowTitle New wd) mbar) cs)).
  { apply (parentWidget_set_widget (with_windowTitle New) _ _ _ _ Hpw). }
  split.
  - intros New2.
    destruct (console_by_thread_same_place thid W W1 c
                (skeleton_set_widget_at W mw _) Hc) as (c1 & Hc1 & Hself).
    rewrite <- Hself in Hpw1.
    rewrite (window_title_found thid New2 W1 c1 mw _ mbar cs Hc1 Hpw1).
    reflexivity.
  - unfold parent_main_window. rewrite Hpw1. reflexivity.
Qed.

Lemma X8_window_title_set_then_get_witness :
  exists old,
    window_title 1 "swipl" (demo_world []) =
      (TRUE old, set_widget_at (demo_world []) [0%nat] (with_windowTitle "swipl")) /\
    (forall New2,
       fst (window_title 1 New2
              (set_widget_at (demo_world []) [0%nat] (with_windowTitle "swipl"))) =
       TRUE "swipl") /\
    parent_main_window
      (set_widget_at (demo_world []) [0%nat] (with_windowTitle "swipl"))
      [0; 1]%nat = Some ([0%nat], []).
Proof.
  apply (X8_window_title_set_then_get 1 "swipl" (demo_world [])
           {| self := [0; 1]%nat; widget := demo_console_widget;
              console := demo_console |} [0%nat] []); reflexivity.
Defined.

Lemma win_has_menu_FALSE (thid : Z) (W : World) (c : console_ref) :
  console_by_thread thid W = Some c ->
  fst (win_has_menu thid W) = FALSE ->
  parent_main_window W (self c) = None.
Proof.
  intros Hc. unfold win_has_menu, parent_main_window. rewrite Hc.
  destruct (parentWidget (topLevelWidgets W) (self c)) as [[w o]|];
    [|reflexivity].
  cbn [mbind option_bind compose snd].
  destruct (as_QMainWindow o) as [[wd mbar]|]; [discriminate | reflexivity].
Qed.

(** X9.  Where [win_has_menu] fails and the GUI thread has nothing left to
    do, the menu calls change no widget, whatever their arguments:
    [win_insert_menu] leaves a line in the debug output,
    [win_insert_menu_item] leaves nothing, and [window_title] fails. *)
Theorem X9_without_menu_no_menu_changes (thid : Z) (W : World) :
  posted W = [] ->
  fst (win_has_menu thid W) = FALSE ->
  (forall Label Before,
     topLevelWidgets (processEvents (snd (win_insert_menu thid Label Before W))) =
     topLevelWidgets W) /\
  (forall Pulldown Label Before Goal,
     processEvents (snd (win_insert_menu_item thid Pulldown Label Before Goal W)) =
     W) /\
  (forall New, window_title thid New W = (FALSE, W)).
Proof.
  intros Hq Hm. destruct (console_by_thread thid W) as [c|] eqn:Hc.
  - pose proof (win_has_menu_FALSE thid W c Hc Hm) as Hp.
    split; [|split].
    + intros Label Before.
      rewrite (win_insert_menu_found thid Label Before W c Hc). cbn [snd].
      rewrite processEvents_exec_func, (processEvents_idle W Hq).
      cbn [run]. rewrite Hp. reflexivity.
    + intros Pulldown Label Before Goal.
      rewrite (win_insert_menu_item_found thid Pulldown Label Before Goal W c Hc).
      cbn [snd]. rewrite processEvents_exec_func, (processEvents_idle W Hq).
      cbn [run]. rewrite Hp. reflexivity.
    + intros New. unfold window_title. rewrite Hc.
      unfold parent_main_window in Hp.
      destruct (parentWidget (topLevelWidgets W) (self c)) as [[w o]|];
        [|reflexivity].
      destruct (as_QMainWindow o) as [[wd mbar]|]; [discriminate | reflexivity].
  - split; [|split].
    + intros Label Before. rewrite (win_insert_menu_none thid Label Before W Hc).
      cbn [snd]. rewrite (processEvents_idle W Hq). reflexivity.
    + intros Pulldown Label Before Goal. unfold win_insert_menu_item. rewrite Hc.
      cbn [snd]. apply (processEvents_idle W Hq).
    + intros New. unfold window_title. rewrite Hc. reflexivity.
Qed.

(** A console that is its own window has no menu. *)
Lemma X9_without_menu_no_menu_changes_witness :
  topLevelWidgets
    (processEvents (snd (win_insert_menu 1 "Tools" "-" bare_console_world))) =
    topLevelWidgets bare_console_world /\
  processEvents
    (snd (win_insert_menu_item 1 "Tools" "Run" "-" "run" bare_console_world)) =
    bare_console_world /\
  window_title 1 "swipl" bare_console_world = (FALSE, bare_console_world).
Proof.
  destruct (X9_without_menu_no_menu_changes 1 bare_console_world eq_refl eq_refl)
    as (Hmenu & Hitem & Htitle).
  split; [apply Hmenu|]. split; [apply Hitem | apply Htitle].
Defined.

(** ** Menus stay where they are *)

Lemma lookup_insert_before {T} (i : nat) (a : T) (l : list T) :
  (i <= length l)%nat -> insert_before i a l !! i = Some a.
Proof.
  intros Hi. unfold insert_before.
  apply list_lookup_middle. symmetry. apply length_take_le. exact Hi.
Qed.

Lemma delete_insert_before {T} (i : nat) (a : T) (l : list T) :
  (i <= length l)%nat -> delete i (insert_before i a l) = l.
Proof.
  intros Hi. unfold insert_before.
  pose proof (length_take_le l i Hi) as Hlen. pose proof (take_drop i l) as Hl.
  revert Hlen Hl. generalize (take i l) (drop i l). intros t d <- <-.
  apply delete_middle.
Qed.

Lemma insert_before_length {T} (a : T) (l : list T) :
  insert_before (length l) a l = l ++ [a].
Proof. unfold insert_before. rewrite firstn_all, drop_all. reflexivity. Qed.

Lemma insert_menu_at_position (Label Before : string) (mbar : list QMenu) (i : nat) :
  existsb (fun ac => String.eqb (title ac) Label) mbar = false ->
  menu_position Before mbar = Some i ->
  (i <= length mbar)%nat /\
  insert_menu Label Before mbar = Some (insert_before i (new_QMenu Label) mbar).
Proof.
  intros HL. unfold menu_position, insert_menu. rewrite HL.
  destruct (list_find (fun ac => title ac = Before) mbar) as [[j ac]|] eqn:Hf.
  - intros [= <-]. split; [|reflexivity].
    apply list_find_Some in Hf as (Hj & _). apply lookup_lt_Some in Hj. lia.
  - destruct (String.eqb Before "-"); [|discriminate]. intros [= <-].
    split; [lia|]. rewrite insert_before_length. reflexivity.
Qed.

(** X10.  When no menu labelled [Label] is there and [win_insert_menu] has
    a place for it, before the first menu labelled [Before] or, for "-", at
    the end, then after the call the menu bar has an empty menu [Label] at
    that place, and is the menu bar of before when that menu is taken out
    again: the other menus keep their order and their items. *)
Theorem X10_win_insert_menu_place (thid : Z) (Label Before : string) (W : World)
    (c : console_ref) (mw : ptr) (mbar : list QMenu) (i : nat) :
  console_by_thread thid W = Some c ->
  parent_main_window (processEvents W) (self c) = Some (mw, mbar) ->
  existsb (fun ac => String.eqb (title ac) Label) mbar = false ->
  menu_position Before mbar = Some i ->
  exists mbar',
    parent_main_window
      (processEvents (snd (win_insert_menu thid Label Before W))) (self c) =
      Some (mw, mbar') /\
    mbar' !! i = Some (new_QMenu Label) /\
    delete i mbar' = mbar.
Proof.
  intros Hc Hp HL Hpos.
  destruct (insert_menu_at_position Label Before mbar i HL Hpos) as [Hi Hins].
  exists (insert_before i (new_QMenu Label) mbar).
  rewrite (win_insert_menu_found thid Label Before W c Hc). cbn [snd].
  rewrite processEvents_exec_func. cbn [run]. rewrite Hp, Hins.
  split; [apply (parent_main_window_set_menuBar _ _ mw mbar _ Hp)|].
  split; [apply lookup_insert_before | apply delete_insert_before]; exact Hi.
Qed.

(** [win_insert_menu('Edit', 'Help')] on a menu bar File, Help. *)
Lemma X10_win_insert_menu_place_witness :
  exists mbar',
    parent_main_window
      (processEvents
         (snd (win_insert_menu 1 "Edit" "Help"
                 (demo_world [File_menu; new_QMenu "Help"])))) [0; 1]%nat =
      Some ([0%nat], mbar') /\
    mbar' !! 1%nat = Some (new_QMenu "Edit") /\
    delete 1%nat mbar' = [File_menu; new_QMenu "Help"].
Proof.
  apply (X10_win_insert_menu_place 1 "Edit" "Help"
           (demo_world [File_menu; new_QMenu "Help"])
           {| self := [0; 1]%nat; widget := demo_console_widget;
              console := demo_console |}); reflexivity.
Defined.

(** ** Items stay where they are *)

Lemma insert_before_sublist {T} (i : nat) (a : T) (l : list T) :
  l `sublist_of` insert_before i a l.
Proof.
  unfold insert_before. rewrite <- (take_drop i l) at 1.
  apply sublist_app; [reflexivity|]. apply sublist_cons. reflexivity.
Qed.

(** The texts of the items of a menu, in order, are among the texts of its
    items after [win_insert_menu_item], in that order. *)
Lemma insert_menu_item_in_keeps (ce : ptr) (Label Before Goal ctxtmod : string)
    (mn : list QAction) :
  text <$> mn `sublist_of`
  text <$> fst (insert_menu_item_in ce Label Before Goal ctxtmod mn).
Proof.
  unfold insert_menu_item_in, add_action.
  destruct (if negb (String.eqb Label "--")
            then list_find (fun bc => text bc = Label) mn else None)
    as [[i bc]|] eqn:Hfind.
  - cbn [fst]. rewrite list_fmap_insert.
    destruct (negb (String.eqb Label "--")); [|discriminate].
    apply list_find_Some in Hfind as (Hi & _ & _).
    rewrite list_insert_id; [reflexivity|].
    rewrite list_lookup_fmap, Hi. reflexivity.
  - destruct (String.eqb Before "-").
    + cbn [fst]. destruct (String.eqb Label "--"); rewrite fmap_app;
        apply sublist_inserts_r; reflexivity.
    + destruct (list_find (fun bc => text bc = Before) mn) as [[i bc]|].
      * cbn [fst]. destruct (String.eqb Label "--");
          apply (fmap_sublist text), insert_before_sublist.
      * cbn [fst]. apply (fmap_sublist text).
        etransitivity; [|apply insert_before_sublist].
        apply sublist_inserts_r. reflexivity.
Qed.

Lemma insert_menu_item_keeps (ce : ptr) (Pulldown Label Before Goal ctxtmod : string)
    (mbar : list QMenu) :
  Forall2
    (fun m m' =>
       title m' = title m /\
       (title m <> Pulldown -> m' = m) /\
       text <$> actions m `sublist_of` text <$> actions m')
    mbar (insert_menu_item ce Pulldown Label Before Goal ctxtmod mbar).
Proof.
  assert (Hrefl : forall l : list QMenu,
             Forall2 (fun m m' =>
                        title m' = title m /\ (title m <> Pulldown -> m' = m) /\
                        text <$> actions m `sublist_of` text <$> actions m') l l).
  { induction l; constructor; [|assumption].
    split; [reflexivity|split; [intros _; reflexivity | reflexivity]]. }
  induction mbar as [|ac mbar IH]; [constructor|].
  cbn [insert_menu_item].
  destruct (String.eqb_spec (title ac) Pulldown) as [He|Hne].
  - pose proof (insert_menu_item_in_keeps ce Label Before Goal ctxtmod (actions ac))
      as Hk.
    destruct (insert_menu_item_in ce Label Before Goal ctxtmod (actions ac))
      as [mn returned]. cbn [fst] in Hk.
    destruct returned; (constructor; [|first [apply Hrefl | exact IH]]);
      (split; [reflexivity|]; split; [intros Hn; contradiction | exact Hk]).
  - constructor; [|exact IH].
    split; [reflexivity|split; [intros _; reflexivity | reflexivity]].
Qed.

Lemma win_insert_menu_item_bar (thid : Z) (Pulldown Label Before Goal : string)
    (W : World) (c : console_ref) (mw : ptr) (mbar : list QMenu) :
  console_by_thread thid W = Some c ->
  parent_main_window (processEvents W) (self c) = Some (mw, mbar) ->
  processEvents (snd (win_insert_menu_item thid Pulldown Label Before Goal W)) =
  set_menuBar_at (processEvents W) mw
    (insert_menu_item (self c) Pulldown Label Before Goal "win_menu" mbar).
Proof.
  intros Hc Hp.
  rewrite (win_insert_menu_item_found thid Pulldown Label Before Goal W c Hc).
  cbn [snd]. rewrite processEvents_exec_func. cbn [run]. rewrite Hp. reflexivity.
Qed.

(** X11.  [win_insert_menu_item] takes no item away and moves none,
    whatever its arguments: after the call the menu bar has the same menus
    by title, the menus not titled [Pulldown] are as they were, and in
    each menu the texts of the items of before are there in their order. *)
Theorem X11_win_insert_menu_item_keeps_items (thid : Z)
    (Pulldown Label Before Goal : string) (W : World) (c : console_ref)
    (mw : ptr) (mbar : list QMenu) :
  console_by_thread thid W = Some c ->
  parent_main_window (processEvents W) (self c) = Some (mw, mbar) ->
  exists mbar',
    parent_main_window
      (processEvents (snd (win_insert_menu_item thid Pulldown Label Before Goal W)))
      (self c) = Some (mw, mbar') /\
    Forall2
      (fun m m' =>
         title m' = title m /\
         (title m <> Pulldown -> m' = m) /\
         text <$> actions m `sublist_of` text <$> actions m')
      mbar mbar'.
Proof.
  intros Hc Hp. eexists. split.
  - rewrite (win_insert_menu_item_bar thid Pulldown Label Before Goal W c mw mbar
               Hc Hp).
    apply (parent_main_window_set_menuBar _ _ mw mbar _ Hp).
  - apply insert_menu_item_keeps.
Qed.

Lemma X11_win_insert_menu_item_keeps_items_witness :
  exists mbar',
    parent_main_window
      (processEvents
         (snd (win_insert_menu_item 1 "File" "Save" "Quit" "save"
                 (demo_world [File_menu])))) [0; 1]%nat = Some ([0%nat], mbar') /\
    Forall2
      (fun m m' =>
         title m' = title m /\
         (title m <> "File" -> m' = m) /\
         text <$> actions m `sublist_of` text <$> actions m')
      [File_menu] mbar'.
Proof.
  apply (X11_win_insert_menu_item_keeps_items 1 "File" "Save" "Quit" "save"
           (demo_world [File_menu])
           {| self := [0; 1]%nat; widget := demo_console_widget;
              console := demo_console |}); reflexivity.
Defined.

(** ** One call after another *)

Lemma list_find_insert_found {T} (P : T -> Prop) `{forall x, Decision (P x)}
    (l : list T) (i : nat) (x y : T) :
  list_find P l = Some (i, x) -> P y ->
  list_find P (<[i := y]> l) = Some (i, y).
Proof.
  intros Hf Hy. apply list_find_Some in Hf as (Hi & Hx & Hbefore).
  apply list_find_Some. split; [|split].
  - apply list_lookup_insert_eq. apply lookup_lt_Some in Hi. exact Hi.
  - exact Hy.
  - intros j z Hj Hlt. rewrite list_lookup_insert_ne in Hj by lia.
    apply (Hbefore j z Hj Hlt).
Qed.

Lemma list_find_snoc_new {T} (P : T -> Prop) `{forall x, Decision (P x)}
    (l : list T) (y : T) :
  list_find P l = None -> P y ->
  list_find P (l ++ [y]) = Some (length l, y).
Proof.
  intros Hf Hy. rewrite list_find_app_r by exact Hf.
  cbn [list_find]. rewrite decide_True by exact Hy. reflexivity.
Qed.

Lemma insert_snoc {T} (l : list T) (x y : T) : <[length l := y]> (l ++ [x]) = l ++ [y].
Proof.
  replace (length l) with (length l + 0)%nat by lia.
  rewrite insert_app_r. reflexivity.
Qed.

Lemma set_menuBar_at_twice (W : World) (mw : ptr) (mbar mbar' : list QMenu) :
  set_menuBar_at (set_menuBar_at W mw mbar) mw mbar' = set_menuBar_at W mw mbar'.
Proof.
  unfold set_menuBar_at. destruct W; cbn. f_equal.
  rewrite update_update. apply update_ext. intros []; reflexivity.
Qed.

Lemma posted_set_menuBar_at (W : World) (mw : ptr) (mbar : list QMenu) :
  posted (set_menuBar_at W mw mbar) = posted W.
Proof. destruct W; reflexivity. Qed.

Lemma skeleton_set_menuBar_at (W : World) (mw : ptr) (mbar : list QMenu) :
  map skeleton (topLevelWidgets (set_menuBar_at W mw mbar)) =
  map skeleton (topLevelWidgets W).
Proof.
  unfold set_menuBar_at. cbn [topLevelWidgets with_widgets].
  apply skeleton_update. intros cls. apply tag_set_menuBar.
Qed.

Lemma length_append (p s : string) :
  String.length (p ++ s)%string = (String.length p + String.length s)%nat.
Proof.
  induction p as [|a p IH]; [reflexivity|].
  change (S (String.length (p ++ s)%string) = S (String.length p + String.length s)).
  f_equal. exact IH.
Qed.

Lemma prefixed_string_differs (p s : string) :
  p <> "" -> (p ++ s)%string <> s.
Proof.
  intros Hp He. apply (f_equal String.length) in He.
  rewrite length_append in He.
  destruct p as [|a p]; [contradiction|]. cbn [String.length] in He. lia.
Qed.

(** X12.  [win_insert_menu_item] is not repeatable on a new item.  When
    the first menu titled [Pulldown] has no item [Label], a call with
    [Before] "-" appends an item whose tool tip is "win_menu:" followed by
    the goal, and the same call made again leaves that one item in place but
    sets its tool tip to the goal alone, which is another string. *)
Theorem X12_win_insert_menu_item_again (thid : Z) (Pulldown Label Goal : string)
    (W : World) (c : console_ref) (mw : ptr) (mbar : list QMenu) (i : nat)
    (ac : QMenu) :
  console_by_thread thid W = Some c ->
  parent_main_window (processEvents W) (self c) = Some (mw, mbar) ->
  list_find (fun ac => title ac = Pulldown) mbar = Some (i, ac) ->
  Label <> "--" ->
  list_find (fun bc => text bc = Label) (actions ac) = None ->
  let item := new_QAction (self c) Label "win_menu" Goal in
  let once := processEvents (snd (win_insert_menu_item thid Pulldown Label "-" Goal W)) in
  let twice :=
    processEvents (snd (win_insert_menu_item thid Pulldown Label "-" Goal once)) in
  once = set_menuBar_at (processEvents W) mw
           (<[i := {| title := title ac; actions := actions ac ++ [item] |}]> mbar) /\
  twice = set_menuBar_at (processEvents W) mw
            (<[i := {| title := title ac;
                       actions := actions ac ++ [setToolTip item Goal] |}]> mbar) /\
  toolTip item = ("win_menu:" ++ Goal)%string /\
  toolTip (setToolTip item Goal) = Goal /\
  once <> twice.
Proof.
  intros Hc Hp Hmenu HL Hitem item once twice.
  assert (Hin1 : insert_menu_item_in (self c) Label "-" Goal "win_menu" (actions ac) =
                 (actions ac ++ [item], true)).
  { unfold insert_menu_item_in. destruct (String.eqb_spec Label "--"); [contradiction|].
    cbn [negb]. rewrite Hitem. reflexivity. }
  assert (Honce : once = set_menuBar_at (processEvents W) mw
            (<[i := {| title := title ac; actions := actions ac ++ [item] |}]> mbar)).
  { unfold once.
    rewrite (win_insert_menu_item_bar thid Pulldown Label "-" Goal W c mw mbar Hc Hp).
    rewrite (insert_menu_item_first _ _ _ _ _ _ mbar i ac _ Hmenu Hin1). reflexivity. }
  set (ac1 := {| title := title ac; actions := actions ac ++ [item] |}) in *.
  assert (Hposted : posted once = []).
  { rewrite Honce, posted_set_menuBar_at. apply posted_processEvents. }
  destruct (console_by_thread_same_place thid W once c) as (c' & Hc' & Hself); [|exact Hc|].
  { rewrite Honce, skeleton_set_menuBar_at. apply skeleton_processEvents. }
  assert (Hp1 : parent_main_window (processEvents once) (self c') =
                Some (mw, <[i := ac1]> mbar)).
  { rewrite (processEvents_idle _ Hposted), Hself, Honce.
    apply (parent_main_window_set_menuBar _ _ mw mbar _ Hp). }
  assert (Hmenu1 : list_find (fun ac => title ac = Pulldown) (<[i := ac1]> mbar) =
                   Some (i, ac1)).
  { apply (list_find_insert_found _ _ _ _ _ Hmenu).
    apply list_find_Some in Hmenu as (_ & Ht & _). exact Ht. }
  assert (Hitem1 : list_find (fun bc => text bc = Label) (actions ac1) =
                   Some (length (actions ac), item)).
  { apply list_find_snoc_new; [exact Hitem | reflexivity]. }
  assert (Htwice : twice = set_menuBar_at (processEvents W) mw
            (<[i := {| title := title ac;
                       actions := actions ac ++ [setToolTip item Goal] |}]> mbar)).
  { unfold twice.
    rewrite (win_insert_menu_item_bar thid Pulldown Label "-" Goal once c' mw _ Hc' Hp1).
    rewrite (insert_menu_item_first _ _ _ _ _ _ _ i ac1 _ Hmenu1
               (insert_menu_item_in_rebinds _ _ _ _ _ _ _ _ HL Hitem1)).
    rewrite (processEvents_idle _ Hposted), Honce, set_menuBar_at_twice.
    rewrite list_insert_insert_eq. cbn [actions title ac1]. rewrite insert_snoc.
    reflexivity. }
  split; [exact Honce|]. split; [exact Htwice|].
  split; [reflexivity|]. split; [reflexivity|].
  intros He. rewrite Honce, Htwice in He.
  apply (f_equal (fun V => parent_main_window V (self c))) in He.
  rewrite !(parent_main_window_set_menuBar _ _ mw mbar _ Hp) in He.
  injection He as He. apply (f_equal (fun l => l !! i)) in He.
  apply list_find_Some in Hmenu as (Hi & _). apply lookup_lt_Some in Hi.
  rewrite !list_lookup_insert_eq in He by exact Hi.
  injection He as He. apply app_inv_head in He. injection He as He.
  apply (prefixed_string_differs "win_menu:" Goal); [discriminate | exact He].
Qed.

(** [win_insert_menu_item('File', 'Save', '-', save)] on a File menu without
    Save. *)
Lemma X12_win_insert_menu_item_again_witness :
  let W := demo_world [File_menu] in
  let once := processEvents (snd (win_insert_menu_item 1 "File" "Save" "-" "save" W)) in
  let twice := processEvents (snd (win_insert_menu_item 1 "File" "Save" "-" "save" once)) in
  once <> twice.
Proof.
  intros W once twice.
  apply (X12_win_insert_menu_item_again 1 "File" "Save" "save" W
           {| self := [0; 1]%nat; widget := demo_console_widget;
              console := demo_console |} [0%nat] [File_menu] 0%nat File_menu);
    first [reflexivity | discriminate].
Defined.

(** X13.  When [Before] is neither "-" nor the text of an item, the lambda
    of [win_insert_menu_item] does not return from the loop over the menu
    bar: with [Label] not an item either, every menu titled [Pulldown], not
    the first one only, gets the new item and after it a placeholder item
    with the text of [Before] and an empty goal; the other menus are left
    as they are. *)
Theorem X13_missing_before_adds_placeholder (thid : Z)
    (Pulldown Label Before Goal : string) (W : World) (c : console_ref)
    (mw : ptr) (mbar : list QMenu) :
  console_by_thread thid W = Some c ->
  parent_main_window (processEvents W) (self c) = Some (mw, mbar) ->
  Before <> "-" ->
  Forall (fun m => title m = Pulldown ->
                   (Label <> "--" ->
                    list_find (fun bc => text bc = Label) (actions m) = None) /\
                   list_find (fun bc => text bc = Before) (actions m) = None) mbar ->
  processEvents (snd (win_insert_menu_item thid Pulldown Label Before Goal W)) =
  set_menuBar_at (processEvents W) mw
    ((fun m =>
        if String.eqb (title m) Pulldown
        then {| title := title m;
                actions := actions m ++
                           [ new_QAction (self c) Label "win_menu" Goal;
                             new_QAction (self c) Before "win_menu" "" ] |}
        else m) <$> mbar).
Proof.
  intros Hc Hp HB Hall.
  rewrite (win_insert_menu_item_bar thid Pulldown Label Before Goal W c mw mbar Hc Hp).
  f_equal. clear Hp. induction Hall as [|m mbar Hm Hall IH]; [reflexivity|].
  cbn [insert_menu_item fmap list_fmap].
  destruct (String.eqb_spec (title m) Pulldown) as [He|Hne].
  - destruct (Hm He) as [HL HBefore].
    assert (Hin : insert_menu_item_in (self c) Label Before Goal "win_menu" (actions m) =
                  (actions m ++ [ new_QAction (self c) Label "win_menu" Goal;
                                  new_QAction (self c) Before "win_menu" "" ], false)).
    { unfold insert_menu_item_in, add_action.
      assert ((if negb (String.eqb Label "--")
               then list_find (fun bc => text bc = Label) (actions m) else None) = None)
        as ->.
      { destruct (String.eqb_spec Label "--"); [reflexivity|]. cbn [negb]. auto. }
      destruct (String.eqb_spec Before "-"); [contradiction|].
      rewrite HBefore. cbn zeta. f_equal. unfold insert_before.
      rewrite take_app_length, drop_app_length. reflexivity. }
    rewrite Hin. f_equal. exact IH.
  - f_equal. exact IH.
Qed.

(** [win_insert_menu_item('File', 'Save', 'Close', save)] with two menus
    titled File, none of which has Save or Close. *)
Lemma X13_missing_before_adds_placeholder_witness :
  parent_main_window
    (processEvents
       (snd (win_insert_menu_item 1 "File" "Save" "Close" "save"
               (demo_world [File_menu; new_QMenu "Edit"; new_QMenu "File"]))))
    [0; 1]%nat =
  Some ([0%nat],
        [ {| title := "File";
             actions := actions File_menu ++
                        [ new_QAction [0; 1]%nat "Save" "win_menu" "save";
                          new_QAction [0; 1]%nat "Close" "win_menu" "" ] |};
          new_QMenu "Edit";
          {| title := "File";
             actions := [ new_QAction [0; 1]%nat "Save" "win_menu" "save";
                          new_QAction [0; 1]%nat "Close" "win_menu" "" ] |} ]).
Proof.
  rewrite (X13_missing_before_adds_placeholder 1 "File" "Save" "Close" "save"
             (demo_world [File_menu; new_QMenu "Edit"; new_QMenu "File"])
             {| self := [0; 1]%nat; widget := demo_console_widget;
                console := demo_console |} [0%nat]
             [File_menu; new_QMenu "Edit"; new_QMenu "File"]).
  - reflexivity.
  - reflexivity.
  - reflexivity.
  - discriminate.
  - repeat constructor.
Defined.

Lemma insert_insert_before {T} (i : nat) (a b : T) (l : list T) :
  (i <= length l)%nat -> <[i := b]> (insert_before i a l) = insert_before i b l.
Proof.
  intros Hi. unfold insert_before.
  pose proof (length_take_le l i Hi) as Hlen. revert Hlen.
  generalize (take i l) (drop i l). intros t d <-.
  replace (length t) with (length t + 0)%nat at 1 by lia.
  rewrite insert_app_r. reflexivity.
Qed.

Lemma list_find_insert_before_new {T} (P : T -> Prop) `{forall x, Decision (P x)}
    (i : nat) (a : T) (l : list T) :
  (i <= length l)%nat -> list_find P l = None -> P a ->
  list_find P (insert_before i a l) = Some (i, a).
Proof.
  intros Hi Hnone Ha. unfold insert_before.
  assert (Ht : list_find P (take i l) = None).
  { apply list_find_None. apply list_find_None in Hnone.
    rewrite <- (take_drop i l) in Hnone. apply Forall_app in Hnone as [Ht _]. exact Ht. }
  rewrite list_find_app_r by exact Ht. cbn [list_find].
  rewrite decide_True by exact Ha. cbn. rewrite length_take_le by exact Hi.
  reflexivity.
Qed.

Lemma insert_menu_item_none (ce : ptr) (Pulldown Label Before Goal ctxtmod : string)
    (mbar : list QMenu) :
  Forall (fun m => title m <> Pulldown) mbar ->
  insert_menu_item ce Pulldown Label Before Goal ctxtmod mbar = mbar.
Proof.
  induction 1 as [|m mbar Hm _ IH]; [reflexivity|].
  cbn [insert_menu_item]. destruct (String.eqb_spec (title m) Pulldown);
    [contradiction|]. rewrite IH. reflexivity.
Qed.

(** When only one menu has that title, it is the only one touched, whether
    the body returns or not. *)
Lemma insert_menu_item_only (ce : ptr) (Pulldown Label Before Goal ctxtmod : string)
    (mbar : list QMenu) :
  forall (i : nat) (ac : QMenu) (mn : list QAction) (returned : bool),
  list_find (fun ac => title ac = Pulldown) mbar = Some (i, ac) ->
  Forall (fun m => title m <> Pulldown) (drop (S i) mbar) ->
  insert_menu_item_in ce Label Before Goal ctxtmod (actions ac) = (mn, returned) ->
  insert_menu_item ce Pulldown Label Before Goal ctxtmod mbar =
  <[i := {| title := title ac; actions := mn |}]> mbar.
Proof.
  induction mbar as [|a mbar IH]; intros i ac mn returned Hfind Hrest Hin;
    [discriminate|].
  cbn [list_find] in Hfind. cbn [insert_menu_item].
  destruct (String.eqb_spec (title a) Pulldown) as [He|Hne].
  - rewrite decide_True in Hfind by exact He. injection Hfind as <- <-.
    rewrite Hin. cbn [drop] in Hrest. destruct returned; [reflexivity|].
    rewrite (insert_menu_item_none _ _ _ _ _ _ _ Hrest). reflexivity.
  - rewrite decide_False in Hfind by exact Hne.
    destruct (list_find _ mbar) as [[i' ac']|] eqn:Hf; [|discriminate].
    cbn in Hfind. injection Hfind as <- <-.
    cbn [insert list_insert]. f_equal.
    apply (IH i' ac' mn returned eq_refl Hrest Hin).
Qed.

(** X14.  [win_insert_menu] and then [win_insert_menu_item] for that menu,
    both posted before the GUI thread runs: when the menu bar has no menu
    [Label] and [win_insert_menu] has a place for it, the menu bar is
    afterwards the one of before with a menu [Label] at that place.  Its
    items are: for the item position "-", the new item alone, or a separator
    alone when the item label is "--"; for every other item position, which
    the empty menu cannot match, the new item followed by a placeholder item
    with the text of that position and an empty goal. *)
Theorem X14_new_menu_takes_item (thid : Z)
    (Label Before Item ItemBefore Goal : string)
    (W : World) (c : console_ref) (mw : ptr) (mbar : list QMenu) (i : nat) :
  console_by_thread thid W = Some c ->
  parent_main_window (processEvents W) (self c) = Some (mw, mbar) ->
  existsb (fun ac => String.eqb (title ac) Label) mbar = false ->
  menu_position Before mbar = Some i ->
  fst (win_insert_menu_item thid Label Item ItemBefore Goal
         (snd (win_insert_menu thid Label Before W))) = TRUE () /\
  processEvents
    (snd (win_insert_menu_item thid Label Item ItemBefore Goal
            (snd (win_insert_menu thid Label Before W)))) =
  set_menuBar_at (processEvents W) mw
    (insert_before i
       {| title := Label;
          actions :=
            if String.eqb ItemBefore "-" then
              if String.eqb Item "--" then [separator]
              else [new_QAction (self c) Item "win_menu" Goal]
            else [ new_QAction (self c) Item "win_menu" Goal;
                   new_QAction (self c) ItemBefore "win_menu" "" ] |} mbar).
Proof.
  intros Hc Hp HL Hpos.
  destruct (insert_menu_at_position Label Before mbar i HL Hpos) as [Hi Hins].
  rewrite (win_insert_menu_found thid Label Before W c Hc). cbn [snd].
  assert (Hc1 : console_by_thread thid
                  (exec_func (lambda_win_insert_menu (self c) Label Before) W) =
                Some c) by exact Hc.
  rewrite (win_insert_menu_item_found thid Label Item ItemBefore Goal _ c Hc1).
  cbn [fst snd]. split; [reflexivity|].
  rewrite !processEvents_exec_func. cbn [run]. rewrite Hp, Hins.
  rewrite (parent_main_window_set_menuBar _ _ mw mbar _ Hp), set_menuBar_at_twice.
  f_equal.
  assert (Hnone : Forall (fun m => title m <> Label) mbar).
  { apply list_find_title_existsb in HL. apply list_find_None in HL. exact HL. }
  assert (Hfind : list_find (fun ac => title ac = Label)
                    (insert_before i (new_QMenu Label) mbar) =
                  Some (i, new_QMenu Label)).
  { apply list_find_insert_before_new; [exact Hi| |reflexivity].
    apply list_find_title_existsb. exact HL. }
  assert (Hrest : Forall (fun m => title m <> Label)
                    (drop (S i) (insert_before i (new_QMenu Label) mbar))).
  { assert (Hd : Forall (fun m => title m <> Label) (drop i mbar))
      by (apply Forall_drop; exact Hnone).
    unfold insert_before. pose proof (length_take_le mbar i Hi) as Hlen.
    revert Hd Hlen. generalize (take i mbar) (drop i mbar). intros t d Hd <-.
    replace (S (length t)) with (length t + 1)%nat by lia.
    rewrite drop_app_add. exact Hd. }
  set (mn := if String.eqb ItemBefore "-" then
               if String.eqb Item "--" then [separator]
               else [new_QAction (self c) Item "win_menu" Goal]
             else [ new_QAction (self c) Item "win_menu" Goal;
                    new_QAction (self c) ItemBefore "win_menu" "" ]).
  assert (Hin : exists returned,
             insert_menu_item_in (self c) Item ItemBefore Goal "win_menu"
               (actions (new_QMenu Label)) = (mn, returned)).
  { unfold insert_menu_item_in, mn. cbn [actions new_QMenu list_find].
    destruct (negb (String.eqb Item "--")); cbn [fmap option_fmap option_map];
      destruct (String.eqb ItemBefore "-");
      destruct (String.eqb Item "--"); eexists; reflexivity. }
  destruct Hin as [returned Hin].
  rewrite (insert_menu_item_only _ _ _ _ _ _ _ i (new_QMenu Label) mn returned
             Hfind Hrest Hin).
  apply insert_insert_before. exact Hi.
Qed.

(** [win_insert_menu('Edit', 'Help')] and then
    [win_insert_menu_item('Edit', 'Copy', 'Paste', copy)] on a menu bar
    File, Help. *)
Lemma X14_new_menu_takes_item_witness :
  processEvents
    (snd (win_insert_menu_item 1 "Edit" "Copy" "Paste" "copy"
            (snd (win_insert_menu 1 "Edit" "Help"
                    (demo_world [File_menu; new_QMenu "Help"]))))) =
  demo_world
    [ File_menu;
      {| title := "Edit";
         actions := [ new_QAction [0; 1]%nat "Copy" "win_menu" "copy";
                      new_QAction [0; 1]%nat "Paste" "win_menu" "" ] |};
      new_QMenu "Help" ].
Proof.
  destruct (X14_new_menu_takes_item 1 "Edit" "Help" "Copy" "Paste" "copy"
              (demo_world [File_menu; new_QMenu "Help"])
              {| self := [0; 1]%nat; widget := demo_console_widget;
                 console := demo_console |} [0%nat] [File_menu; new_QMenu "Help"]
              1%nat eq_refl eq_refl eq_refl eq_refl) as [_ H].
  rewrite H. reflexivity.
Defined.
